(** * PLC log analyzer and log generator: shallow embedding and properties

    The development embeds the two scripts of the repository,

    - [.agents/skills/cim-visualizer/scripts/analyze-log.py] (module [Analyzer]),
    - [generate_log.py] (module [Generator]),

    together with the parts of the Python runtime they call (module [Py]:
    text operations, the backtracking regular-expression engine behind
    [re.search], [collections.Counter], [datetime]).

    Text.  A Python [str] is a sequence of code points; it is embedded as a
    list of [ascii], each element standing for the code point of the same
    number (U+0000 to U+00FF).  The character classes of [re] are the ones
    CPython uses for [str] patterns, restricted to that range.

    Effects.  [print] appends one entry to the list of printed texts;
    exceptions are values of [exn]; [M A] is the resulting writer/error
    monad.  Python integers are [Z]. *)

From Stdlib Require Import List Ascii ZArith NArith Lia Bool Arith.
From Stdlib Require Import Sorting.Permutation Sorting.Sorted.
Import ListNotations.

Set Implicit Arguments.

(** ** Python text *)

Definition str := list ascii.

Inductive str_lit := lit_nil | lit_cons (c : ascii) (s : str_lit).

Fixpoint str_lit_of_bytes (l : list Byte.byte) : str_lit :=
  match l with
  | [] => lit_nil
  | b :: l => lit_cons (ascii_of_byte b) (str_lit_of_bytes l)
  end.

Fixpoint bytes_of_str_lit (l : str_lit) : list Byte.byte :=
  match l with
  | lit_nil => []
  | lit_cons b l => byte_of_ascii b :: bytes_of_str_lit l
  end.

Declare Scope str_scope.
Delimit Scope str_scope with str.
#[warnings="-via-type-remapping,-via-type-mismatch"]
String Notation str str_lit_of_bytes bytes_of_str_lit
  (via str_lit mapping [[nil] => lit_nil, [cons] => lit_cons]) : str_scope.

Open Scope list_scope.
Open Scope str_scope.
Open Scope Z_scope.

Module Py.

(** *** Characters *)

Definition ord (c : ascii) : N := N_of_ascii c.

Definition between (lo hi : N) (c : ascii) : bool :=
  ((lo <=? ord c) && (ord c <=? hi))%N.

Definition is_cp (n : N) (c : ascii) : bool := (ord c =? n)%N.

Definition NL : ascii := ascii_of_N 10.
Definition CR : ascii := ascii_of_N 13.
Definition TAB : ascii := ascii_of_N 9.

(** [\d] of a [str] pattern: Unicode decimal digits (category Nd); below
    U+0100 these are the ten ASCII digits. *)
Definition isdecimal (c : ascii) : bool := between 48 57 c.

(** [\s] and [str.strip()]: Unicode white space ([str.isspace]); below
    U+0100 these are TAB..CR, FS..US, SPACE, NEL and NBSP. *)
Definition isspace (c : ascii) : bool :=
  between 9 13 c || between 28 32 c || is_cp 133 c || is_cp 160 c.

(** [str.isalnum] below U+0100: letters, digits and numeric characters. *)
Definition isalnum (c : ascii) : bool :=
  between 48 57 c || between 65 90 c || between 97 122 c
  || is_cp 170 c || is_cp 178 c || is_cp 179 c || is_cp 181 c || is_cp 185 c || is_cp 186 c
  || between 188 190 c || between 192 214 c || between 216 246 c
  || between 248 255 c.

(** [\w]: alphanumeric or underscore. *)
Definition isword (c : ascii) : bool := isalnum c || is_cp 95 c.

(** *** Text operations *)

Definition len {A} (l : list A) : Z := Z.of_nat (length l).

Fixpoint str_eqb (a b : str) : bool :=
  match a, b with
  | [], [] => true
  | x :: a', y :: b' => Ascii.eqb x y && str_eqb a' b'
  | _, _ => false
  end.

(** [sep.join(l)] *)
Fixpoint join (sep : str) (l : list str) : str :=
  match l with
  | [] => []
  | [x] => x
  | x :: rest => x ++ sep ++ join sep rest
  end.

(** [c in s] for a one-character [c] *)
Definition has_char (c : ascii) (s : str) : bool := existsb (Ascii.eqb c) s.

(** [s.split(c)] for a one-character separator [c] *)
Fixpoint split (c : ascii) (s : str) : list str :=
  match s with
  | [] => [[]]
  | x :: s' =>
      if Ascii.eqb x c then [] :: split c s'
      else match split c s' with
           | [] => [[x]]
           | f :: fs => (x :: f) :: fs
           end
  end.

Fixpoint startswith (p s : str) : bool :=
  match p, s with
  | [], _ => true
  | x :: p', y :: s' => Ascii.eqb x y && startswith p' s'
  | _ :: _, [] => false
  end.

(** [s.endswith(p)] *)
Definition endswith (s p : str) : bool := startswith (rev p) (rev s).

Fixpoint lstrip (s : str) : str :=
  match s with
  | c :: s' => if isspace c then lstrip s' else s
  | [] => []
  end.

(** [s.strip()] *)
Definition strip (s : str) : str := rev (lstrip (rev (lstrip s))).

(** [s * n] *)
Fixpoint repeat_str (s : str) (n : nat) : str :=
  match n with
  | O => []
  | S n' => s ++ repeat_str s n'
  end.

(** [s.upper()].  The result is a sequence of code points, some of them
    above U+00FF: sharp s becomes "SS", the micro sign becomes U+039C and
    y with diaeresis becomes U+0178. *)
Definition upper_char (c : ascii) : list N :=
  let n := ord c in
  if between 97 122 c then [n - 32]%N
  else if is_cp 181 c then [924]%N
  else if is_cp 223 c then [83; 83]%N
  else if is_cp 255 c then [376]%N
  else if between 224 254 c && negb (is_cp 247 c) then [n - 32]%N
  else [n].

Definition upper (s : str) : list N := flat_map upper_char s.

Fixpoint cp_startswith (p s : list N) : bool :=
  match p, s with
  | [], _ => true
  | x :: p', y :: s' => (x =? y)%N && cp_startswith p' s'
  | _ :: _, [] => false
  end.

(** [p in s] on sequences of code points *)
Fixpoint cp_contains (p s : list N) : bool :=
  cp_startswith p s ||
  match s with
  | [] => false
  | _ :: s' => cp_contains p s'
  end.

Definition code_points (s : str) : list N := map ord s.

(** *** Decimal rendering of integers *)

Definition digit_char (d : Z) : ascii := ascii_of_N (48 + Z.to_N (d mod 10)).

Fixpoint digits_from (fuel : nat) (n : Z) (acc : str) : str :=
  match fuel with
  | O => acc
  | S f =>
      let acc' := digit_char n :: acc in
      if n / 10 =? 0 then acc' else digits_from f (n / 10) acc'
  end.

(** Decimal digits of a non-negative integer; the binary size bounds the
    number of decimal digits. *)
Definition digits (n : Z) : str := digits_from (S (Z.to_nat (Z.log2 n))) n [].

(** [str(n)] *)
Definition str_of_Z (n : Z) : str :=
  if n <? 0 then "-" ++ digits (- n) else digits n.

(** ["%0<w>d" % n] for [n >= 0] *)
Definition zero_pad (w : nat) (n : Z) : str :=
  let d := digits n in repeat_str "0" (w - length d) ++ d.

Fixpoint group3 (fuel : nat) (rd : str) : str :=
  match fuel with
  | O => rd
  | S f =>
      match rd with
      | a :: b :: c :: (d :: rest) => a :: b :: c :: "," ++ group3 f (d :: rest)
      | _ => rd
      end
  end.

(** [f"{n:,}"] for [n >= 0]: decimal digits in groups of three. *)
Definition str_of_Z_commas (n : Z) : str :=
  let d := digits n in rev (group3 (length d) (rev d)).

(** [int(s)] for a text of decimal digits *)
Definition int_of_digits (s : str) : Z :=
  fold_left (fun acc c => acc * 10 + (Z.of_N (ord c) - 48)) s 0.

(** *** Exceptions and standard output *)

(** The subclasses of [Exception] that occur *)
Inductive error :=
| ValueError
| TypeError
| IndexError
| OverflowError
| OSError (msg : str).

(** What [raise] can carry: an [Exception], or [SystemExit] (raised by
    [sys.exit]), which is not one. *)
Inductive exn :=
| Exception (e : error)
| SystemExit (code : Z).

(** A computation prints texts (one entry per call of [print]) and then
    either raises or returns. *)
Definition M (A : Type) : Type := (list str * (exn + A))%type.

Definition ret {A} (a : A) : M A := ([], inr a).

Definition bind {A B} (m : M A) (f : A -> M B) : M B :=
  match m with
  | (o, inl e) => (o, inl e)
  | (o, inr a) => let (o', r) := f a in (o ++ o', r)
  end.

Definition raise {A} (e : exn) : M A := ([], inl e).

Definition print (s : str) : M unit := ([s], inr tt).

(** [try: body / except: handler] with a bare [except], which catches
    every exception. *)
Definition try_except_all {A} (body : M A) (handler : M A) : M A :=
  match body with
  | (o, inl _) => let (o', r) := handler in (o ++ o', r)
  | (o, inr a) => (o, inr a)
  end.

(** [try: body / except Exception as e: handler e]; [SystemExit] is not a
    subclass of [Exception] and passes through. *)
Definition try_except_Exception {A} (body : M A) (handler : error -> M A) : M A :=
  match body with
  | (o, inl (SystemExit c)) => (o, inl (SystemExit c))
  | (o, inl (Exception e)) => let (o', r) := handler e in (o ++ o', r)
  | (o, inr a) => (o, inr a)
  end.

(** A library call that returns or raises an [Exception] *)
Definition lift {A} (r : error + A) : M A :=
  match r with
  | inl e => ([], inl (Exception e))
  | inr a => ([], inr a)
  end.

Definition stdout {A} (m : M A) : list str := fst m.
Definition outcome {A} (m : M A) : exn + A := snd m.

(** Exit status of the interpreter running a script body. *)
Definition exit_status (m : M unit) : Z :=
  match outcome m with
  | inr _ => 0
  | inl (SystemExit c) => c
  | inl _ => 1
  end.

(** [for x in l: body x] *)
Fixpoint for_each {A} (l : list A) (body : A -> M unit) : M unit :=
  match l with
  | [] => ret tt
  | x :: l' => bind (body x) (fun _ => for_each l' body)
  end.

(** *** Regular expressions: the backtracking matcher of [re] *)

Inductive regex :=
| Eps
| Chr (p : ascii -> bool)          (* one character of a class *)
| Seq (r1 r2 : regex)
| Alt (r1 r2 : regex)              (* r1|r2, r1 tried first *)
| Star (p : ascii -> bool)         (* greedy repetition of a class *)
| Group (i : nat) (r : regex).     (* capturing group number i *)

Definition Lit (c : ascii) : regex := Chr (Ascii.eqb c).
Definition Plus (p : ascii -> bool) : regex := Seq (Chr p) (Star p).

(** [\d] *)
Definition dig_re : regex := Chr isdecimal.

Fixpoint Rep (n : nat) (r : regex) : regex :=
  match n with
  | O => Eps
  | S n' => Seq r (Rep n' r)
  end.

Fixpoint Cat (rs : list regex) : regex :=
  match rs with
  | [] => Eps
  | [r] => r
  | r :: rs' => Seq r (Cat rs')
  end.

Definition captures := list (nat * str).

Definition set_group (i : nat) (w : str) (c : captures) : captures := (i, w) :: c.

Fixpoint group (i : nat) (c : captures) : option str :=
  match c with
  | [] => None
  | (j, w) :: c' => if Nat.eqb i j then Some w else group i c'
  end.

Section Matcher.
Variable A : Type.

Fixpoint star_greedy (p : ascii -> bool) (s : str) (k : str -> option A) : option A :=
  match s with
  | a :: s' =>
      if p a then
        match star_greedy p s' k with
        | Some x => Some x
        | None => k s
        end
      else k s
  | [] => k s
  end.

(** [backtrack r s c k]: match [r] at the head of [s], then continue with
    [k] on the rest; on failure of [k] the next alternative is tried. *)
Fixpoint backtrack (r : regex) (s : str) (c : captures)
         (k : str -> captures -> option A) : option A :=
  match r with
  | Eps => k s c
  | Chr p =>
      match s with
      | a :: s' => if p a then k s' c else None
      | [] => None
      end
  | Seq r1 r2 => backtrack r1 s c (fun s1 c1 => backtrack r2 s1 c1 k)
  | Alt r1 r2 =>
      match backtrack r1 s c k with
      | Some x => Some x
      | None => backtrack r2 s c k
      end
  | Star p => star_greedy p s (fun s' => k s' c)
  | Group i r1 =>
      backtrack r1 s c
        (fun s' c' => k s' (set_group i (firstn (length s - length s') s) c'))
  end.
End Matcher.

(** A match object: the captured groups and the text after the match. *)
Record match_obj := { m_groups : captures; m_rest : str }.

(** [re.match(r, s)] *)
Definition re_match (r : regex) (s : str) : option match_obj :=
  backtrack r s [] (fun s' c => Some {| m_groups := c; m_rest := s' |}).

(** [re.search(r, s)]: the first position at which [r] matches. *)
Fixpoint re_search (r : regex) (s : str) : option match_obj :=
  match re_match r s with
  | Some m => Some m
  | None =>
      match s with
      | [] => None
      | _ :: s' => re_search r s'
      end
  end.

(** [match.groups()] for a pattern with [n] groups *)
Definition groups (n : nat) (m : match_obj) : list (option str) :=
  map (fun i => group i (m_groups m)) (seq 1 n).

Definition truthy {A} (o : option A) : bool :=
  match o with Some _ => true | None => false end.

(** *** [collections.Counter]: a dict, so keys stay in insertion order *)

Definition Counter := list (str * Z).

(** [c[k]], 0 for a missing key *)
Fixpoint getitem (c : Counter) (k : str) : Z :=
  match c with
  | [] => 0
  | (k', v) :: c' => if str_eqb k k' then v else getitem c' k
  end.

(** [c[k] = v]: an existing key keeps its position, a new one goes last *)
Fixpoint setitem (c : Counter) (k : str) (v : Z) : Counter :=
  match c with
  | [] => [(k, v)]
  | (k', v') :: c' =>
      if str_eqb k k' then (k', v) :: c' else (k', v') :: setitem c' k v
  end.

(** [c[k] += 1] *)
Definition incr (c : Counter) (k : str) : Counter := setitem c k (getitem c k + 1).

(** Insertion into a list sorted by descending count, before the first
    entry whose count is not larger: equal counts keep their order. *)
Fixpoint insert_desc (x : str * Z) (l : list (str * Z)) : list (str * Z) :=
  match l with
  | [] => [x]
  | y :: l' => if snd x <? snd y then y :: insert_desc x l' else x :: y :: l'
  end.

(** [sorted(items, key=itemgetter(1), reverse=True)], a stable sort *)
Fixpoint sorted_by_count_desc (l : list (str * Z)) : list (str * Z) :=
  match l with
  | [] => []
  | x :: l' => insert_desc x (sorted_by_count_desc l')
  end.

(** [c.most_common(n)] is [heapq.nlargest(n, c.items(), key=itemgetter(1))],
    that is [sorted(c.items(), key=itemgetter(1), reverse=True)[:n]]. *)
Definition most_common (n : nat) (c : Counter) : list (str * Z) :=
  firstn n (sorted_by_count_desc c).

End Py.
Import Py.

(** ** The [datetime] module *)

Module Datetime.

Record datetime := {
  year : Z; month : Z; day : Z;
  hour : Z; minute : Z; second : Z; microsecond : Z
}.

(** A normalised [timedelta]: [0 <= seconds < 86400],
    [0 <= microseconds < 1000000]. *)
Record timedelta := { days : Z; seconds : Z; microseconds : Z }.

Definition MAXORDINAL : Z := 3652059.
Definition DI400Y : Z := 146097.
Definition DI100Y : Z := 36524.
Definition DI4Y : Z := 1461.

Definition is_leap (y : Z) : bool :=
  (y mod 4 =? 0) && (negb (y mod 100 =? 0) || (y mod 400 =? 0)).

(** [_DAYS_IN_MONTH], index 0 unused *)
Definition DAYS_IN_MONTH : list Z := [-1; 31; 28; 31; 30; 31; 30; 31; 31; 30; 31; 30; 31].

(** [_DAYS_BEFORE_MONTH], index 0 unused *)
Definition DAYS_BEFORE_MONTH : list Z :=
  [-1; 0; 31; 59; 90; 120; 151; 181; 212; 243; 273; 304; 334].

Definition table (t : list Z) (i : Z) : Z := nth (Z.to_nat i) t 0.

Definition b2z (b : bool) : Z := if b then 1 else 0.

Definition days_in_month (y m : Z) : Z :=
  if (m =? 2) && is_leap y then 29 else table DAYS_IN_MONTH m.

Definition days_before_month (y m : Z) : Z :=
  table DAYS_BEFORE_MONTH m + b2z ((2 <? m) && is_leap y).

Definition days_before_year (y : Z) : Z :=
  let y' := y - 1 in y' * 365 + y' / 4 - y' / 100 + y' / 400.

Definition ymd2ord (y m d : Z) : Z :=
  days_before_year y + days_before_month y m + d.

(** [_ord2ymd] *)
Definition ord2ymd (ordinal : Z) : Z * Z * Z :=
  let n := ordinal - 1 in
  let n400 := n / DI400Y in
  let n := n mod DI400Y in
  let y := n400 * 400 + 1 in
  let n100 := n / DI100Y in
  let n := n mod DI100Y in
  let n4 := n / DI4Y in
  let n := n mod DI4Y in
  let n1 := n / 365 in
  let n := n mod 365 in
  let y := y + n100 * 100 + n4 * 4 + n1 in
  if (n1 =? 4) || (n100 =? 4) then (y - 1, 12, 31)
  else
    let leapyear := (n1 =? 3) && (negb (n4 =? 24) || (n100 =? 3)) in
    let m := Z.shiftr (n + 50) 5 in
    let preceding := table DAYS_BEFORE_MONTH m + b2z ((2 <? m) && leapyear) in
    if n <? preceding then
      let m := m - 1 in
      let preceding := preceding - (table DAYS_IN_MONTH m + b2z ((m =? 2) && leapyear)) in
      (y, m, n - preceding + 1)
    else (y, m, n - preceding + 1).

(** The constructor [datetime(y, m, d, H, M, S, us)] with its range checks. *)
Definition new_datetime (y m d H Mi Sec us : Z) : error + datetime :=
  if negb ((1 <=? y) && (y <=? 9999)) then inl ValueError
  else if negb ((1 <=? m) && (m <=? 12)) then inl ValueError
  else if negb ((1 <=? d) && (d <=? days_in_month y m)) then inl ValueError
  else if negb ((0 <=? H) && (H <=? 23)) then inl ValueError
  else if negb ((0 <=? Mi) && (Mi <=? 59)) then inl ValueError
  else if negb ((0 <=? Sec) && (Sec <=? 59)) then inl ValueError
  else if negb ((0 <=? us) && (us <=? 999999)) then inl ValueError
  else inr {| year := y; month := m; day := d;
              hour := H; minute := Mi; second := Sec; microsecond := us |}.

Definition toordinal (t : datetime) : Z := ymd2ord (year t) (month t) (day t).

(** The constructor [timedelta(days, seconds, microseconds)]: the value is
    normalised, and a magnitude above 999999999 days is refused. *)
Definition new_timedelta (d s us : Z) : error + timedelta :=
  let total := (d * 86400 + s) * 1000000 + us in
  let us' := total mod 1000000 in
  let ts := total / 1000000 in
  let s' := ts mod 86400 in
  let d' := ts / 86400 in
  if 999999999 <? Z.abs d' then inl OverflowError
  else inr {| days := d'; seconds := s'; microseconds := us' |}.

(** [a - b] on two [datetime] values *)
Definition sub (a b : datetime) : error + timedelta :=
  let secs1 := second a + minute a * 60 + hour a * 3600 in
  let secs2 := second b + minute b * 60 + hour b * 3600 in
  new_timedelta (toordinal a - toordinal b) (secs1 - secs2)
                (microsecond a - microsecond b).

(** [t + delta] *)
Definition add (t : datetime) (delta : timedelta) : error + datetime :=
  match new_timedelta (toordinal t + days delta)
          (hour t * 3600 + minute t * 60 + second t + seconds delta)
          (microsecond t + microseconds delta) with
  | inl e => inl e
  | inr d =>
      let H := seconds d / 3600 in
      let rem := seconds d mod 3600 in
      let Mi := rem / 60 in
      let Sec := rem mod 60 in
      if (0 <? days d) && (days d <=? MAXORDINAL) then
        let '(y, m, dd) := ord2ymd (days d) in
        new_datetime y m dd H Mi Sec (microseconds d)
      else inl OverflowError
  end.

(** [str(delta)] *)
Definition str_of_timedelta (d : timedelta) : str :=
  let mm := seconds d / 60 in
  let ss := seconds d mod 60 in
  let hh := mm / 60 in
  let mm := mm mod 60 in
  let s := str_of_Z hh ++ ":" ++ zero_pad 2 mm ++ ":" ++ zero_pad 2 ss in
  let s := if days d =? 0 then s
           else str_of_Z (days d) ++ " day"
                ++ (if Z.abs (days d) =? 1 then "" else "s") ++ ", " ++ s in
  if microseconds d =? 0 then s else s ++ "." ++ zero_pad 6 (microseconds d).

(** [t.strftime("%Y-%m-%d %H:%M:%S.%f")].  (The four-digit rendering of
    [%Y] is the one of years 1000 to 9999.) *)
Definition strftime_Ymd_HMS_f (t : datetime) : str :=
  zero_pad 4 (year t) ++ "-" ++ zero_pad 2 (month t) ++ "-" ++ zero_pad 2 (day t)
  ++ " " ++ zero_pad 2 (hour t) ++ ":" ++ zero_pad 2 (minute t) ++ ":"
  ++ zero_pad 2 (second t) ++ "." ++ zero_pad 6 (microsecond t).

(** The regular expression [_strptime] compiles for the format
    ['%Y-%m-%d %H:%M:%S']: each directive is a group, white space in the
    format becomes [\s+]. *)
Definition rng (lo hi : N) : regex := Chr (between lo hi).

Definition re_Y : regex := Group 1 (Rep 4 dig_re).
Definition re_m : regex :=
  Group 2 (Alt (Seq (Lit "1") (rng 48 50)) (Alt (Seq (Lit "0") (rng 49 57)) (rng 49 57))).
Definition re_d : regex :=
  Group 3 (Alt (Seq (Lit "3") (rng 48 49))
          (Alt (Seq (rng 49 50) dig_re)
          (Alt (Seq (Lit "0") (rng 49 57))
          (Alt (rng 49 57) (Seq (Lit " ") (rng 49 57)))))).
Definition re_H : regex :=
  Group 4 (Alt (Seq (Lit "2") (rng 48 51)) (Alt (Seq (rng 48 49) dig_re) dig_re)).
Definition re_M : regex := Group 5 (Alt (Seq (rng 48 53) dig_re) dig_re).
Definition re_S : regex :=
  Group 6 (Alt (Seq (Lit "6") (rng 48 49)) (Alt (Seq (rng 48 53) dig_re) dig_re)).

Definition strptime_re : regex :=
  Cat [re_Y; Lit "-"; re_m; Lit "-"; re_d; Plus isspace; re_H; Lit ":"; re_M; Lit ":"; re_S].

(** [int(s)]: surrounding white space is ignored *)
Definition int (s : str) : Z := int_of_digits (strip s).

(** [datetime.strptime(s, '%Y-%m-%d %H:%M:%S')] *)
Definition strptime_Ymd_HMS (s : str) : error + datetime :=
  match re_match strptime_re s with
  | None => inl ValueError                       (* does not match format *)
  | Some m =>
      match m_rest m with
      | _ :: _ => inl ValueError                 (* unconverted data remains *)
      | [] =>
          match groups 6 m with
          | [Some gY; Some gm; Some gd; Some gH; Some gM; Some gS] =>
              new_datetime (int gY) (int gm) (int gd) (int gH) (int gM) (int gS) 0
          | _ => inl TypeError
          end
      end
  end.

End Datetime.

(** ** Notation for the monad, and fallible list indexing *)

Notation "x <- m ;; k" := (bind m (fun x => k))
  (at level 61, m at next level, right associativity).
Notation "m ;; k" := (bind m (fun _ => k))
  (at level 61, right associativity).

(** [l[i]] with Python's negative indices and [IndexError] *)
Definition item {A} (l : list A) (i : Z) : error + A :=
  let j := if i <? 0 then i + len l else i in
  if j <? 0 then inl IndexError
  else match nth_error l (Z.to_nat j) with
       | Some x => inr x
       | None => inl IndexError
       end.

(** ** analyze-log.py *)

Module Analyzer.

(** What the file system answers to [open(path, 'r', encoding='utf-8',
    errors='ignore')] and to [gzip.open(path, 'rt', ...)]: the decoded
    text of the file, or the exception raised. *)
Record World := {
  open_text : str -> error + str;
  gzip_open_text : str -> error + str
}.

(** Universal newlines of text mode: CR LF and CR are read as LF. *)
Fixpoint universal_newlines (s : str) : str :=
  match s with
  | [] => []
  | c :: s' =>
      if Ascii.eqb c CR then
        NL :: match s' with
              | d :: s'' => if Ascii.eqb d NL then universal_newlines s''
                            else universal_newlines s'
              | [] => []
              end
      else c :: universal_newlines s'
  end.

Fixpoint split_keepends (s : str) : list str :=
  match s with
  | [] => []
  | c :: s' =>
      if Ascii.eqb c NL then [c] :: split_keepends s'
      else match split_keepends s' with
           | [] => [[c]]
           | l :: ls => (c :: l) :: ls
           end
  end.

(** [f.readlines()] on a text-mode file *)
Definition readlines (text : str) : list str :=
  split_keepends (universal_newlines text).

Definition read_log_file (w : World) (filepath : str) : M (list str) :=
  if endswith filepath ".gz" then
    text <- lift (gzip_open_text w filepath) ;; ret (readlines text)
  else
    text <- lift (open_text w filepath) ;; ret (readlines text).

(** The detection pattern  \d{4}-\d{2}-\d{2}\s+\d{2}:\d{2}:\d{2}  *)
Definition datetime_re : regex :=
  Cat [Rep 4 dig_re; Lit "-"; Rep 2 dig_re; Lit "-"; Rep 2 dig_re; Plus isspace;
       Rep 2 dig_re; Lit ":"; Rep 2 dig_re; Lit ":"; Rep 2 dig_re].

(** [.] matches any character but a newline *)
Definition dot (c : ascii) : bool := negb (Ascii.eqb c NL).

(** The pattern  \[.*\]  *)
Definition bracket_re : regex := Cat [Lit "["; Star dot; Lit "]"].

(** The class  [\.\d]  *)
Definition dot_or_digit (c : ascii) : bool := Ascii.eqb c "." || isdecimal c.

(** The class  [^\]]  *)
Definition not_rbracket (c : ascii) : bool := negb (Ascii.eqb c "]").

(** The record pattern of [analyze_plc_debug], piece by piece:
    group 1 is  \d{4}-\d{2}-\d{2}\s+\d{2}:\d{2}:\d{2}[\.\d]*  (the timestamp),
    then  \s+\[ , group 2 is  [^\]]+  (the device), then  \]\s+ ,
    group 3 is  \w+  (the signal). *)
Definition record_re : regex :=
  Cat [Group 1 (Seq datetime_re (Star dot_or_digit)); Plus isspace;
       Lit "["; Group 2 (Plus not_rbracket); Lit "]"; Plus isspace;
       Group 3 (Plus isword)].

Definition detect_format (lines : list str) : str :=
  match lines with
  | [] => "empty"
  | line0 :: _ =>
      let sample := join [NL] (firstn 10 lines) in
      if truthy (re_search datetime_re sample) then "plc_debug"
      else if has_char TAB line0 && (3 <? len (split TAB line0)) then "tab_separated"
      else if has_char "," line0 && (3 <? len (split "," line0)) then "csv"
      else if truthy (re_search bracket_re sample)
              && cp_contains (code_points "AMHS") (upper sample) then "mcs_amhs"
      else "unknown"
  end.

Definition dashes : str := repeat_str "-" 50.

Record scan_state := {
  timestamps : list str;
  devices : Counter;
  signals : Counter
}.

Definition scan_init : scan_state :=
  {| timestamps := []; devices := []; signals := [] |}.

(** One turn of the loop over the lines.  Every group of [record_re] takes
    part in every match, so [match.groups()] holds three texts. *)
Definition scan_line (st : scan_state) (line : str) : M scan_state :=
  match re_search record_re line with
  | None => ret st
  | Some m =>
      match groups 3 m with
      | [Some ts; Some device; Some signal] =>
          ret {| timestamps := timestamps st ++ [ts];
                 devices := incr (devices st) device;
                 signals := incr (signals st) signal |}
      | _ => raise (Exception TypeError)
      end
  end.

Fixpoint scan (st : scan_state) (lines : list str) : M scan_state :=
  match lines with
  | [] => ret st
  | line :: rest => st' <- scan_line st line ;; scan st' rest
  end.

Definition print_ranking (ranking : list (str * Z)) : M unit :=
  for_each ranking
    (fun '(name, count) => print ("  " ++ name ++ ": " ++ str_of_Z count ++ " entries")).

Definition analyze_plc_debug (lines : list str) : M unit :=
  print "Format: PLC Debug" ;;
  print dashes ;;
  st <- scan scan_init lines ;;
  print ("Total entries: " ++ str_of_Z (len (timestamps st))) ;;
  (match timestamps st with
   | [] => ret tt
   | _ :: _ =>
       first <- lift (item (timestamps st) 0) ;;
       last <- lift (item (timestamps st) (-1)) ;;
       print ("Time range: " ++ first ++ " to " ++ last) ;;
       try_except_all
         (first <- lift (item (timestamps st) 0) ;;
          start <- lift (Datetime.strptime_Ymd_HMS (firstn 19 first)) ;;
          last <- lift (item (timestamps st) (-1)) ;;
          end_ <- lift (Datetime.strptime_Ymd_HMS (firstn 19 last)) ;;
          duration <- lift (Datetime.sub end_ start) ;;
          print ("Duration: " ++ Datetime.str_of_timedelta duration))
         (ret tt)
   end) ;;
  print (NL :: "Top 10 Devices:") ;;
  print_ranking (most_common 10 (devices st)) ;;
  print (NL :: "Top 10 Signals:") ;;
  print_ranking (most_common 10 (signals st)).

Definition analyze_csv (lines : list str) : M unit :=
  print "Format: CSV" ;;
  print dashes ;;
  match lines with
  | [] => ret tt
  | _ :: _ =>
      line0 <- lift (item lines 0) ;;
      let header := split "," (strip line0) in
      print ("Columns: " ++ str_of_Z (len header)) ;;
      print ("Headers: " ++ join ", " (firstn 5 header)
             ++ (if 5 <? len header then "..." else "")) ;;
      print ("Data rows: " ++ str_of_Z (len lines - 1))
  end.

Definition analyze_tab (lines : list str) : M unit :=
  print "Format: Tab-Separated" ;;
  print dashes ;;
  match lines with
  | [] => ret tt
  | _ :: _ =>
      line0 <- lift (item lines 0) ;;
      let cols := split TAB (strip line0) in
      print ("Columns: " ++ str_of_Z (len cols)) ;;
      print ("Data rows: " ++ str_of_Z (len lines))
  end.

(** [str(e)] of the exception caught in [main] *)
Definition message (e : error) : str :=
  match e with
  | OSError msg => msg
  | ValueError => "ValueError"
  | TypeError => "TypeError"
  | IndexError => "IndexError"
  | OverflowError => "OverflowError"
  end.

(** [for i, line in enumerate(l): print(f"  {i+1}: {line.strip()[:80]}")] *)
Fixpoint print_preview (i : Z) (l : list str) : M unit :=
  match l with
  | [] => ret tt
  | line :: rest =>
      print ("  " ++ str_of_Z (i + 1) ++ ": " ++ firstn 80 (strip line)) ;;
      print_preview (i + 1) rest
  end.

Definition main (w : World) (argv : list str) : M unit :=
  (if len argv <? 2 then
     print "Usage: python analyze-log.py <logfile>" ;;
     print "" ;;
     print "Analyzes PLC log files and provides summary statistics." ;;
     print "Supports: PLC Debug, CSV, Tab-separated, MCS/AMHS formats" ;;
     raise (SystemExit 1)
   else ret tt) ;;
  filepath <- lift (item argv 1) ;;
  print ("Analyzing: " ++ filepath) ;;
  print (repeat_str "=" 50) ;;
  lines <- try_except_Exception (read_log_file w filepath)
             (fun e => print ("Error reading file: " ++ message e) ;;
                       raise (SystemExit 1)) ;;
  let file_size := len (concat lines) in
  print ("File size: " ++ str_of_Z_commas file_size ++ " characters") ;;
  print ("Lines: " ++ str_of_Z_commas (len lines)) ;;
  print "" ;;
  let format_type := detect_format lines in
  if str_eqb format_type "plc_debug" then analyze_plc_debug lines
  else if str_eqb format_type "csv" then analyze_csv lines
  else if str_eqb format_type "tab_separated" then analyze_tab lines
  else if str_eqb format_type "empty" then print "File is empty"
  else
    (print ("Format: " ++ format_type) ;;
     print dashes ;;
     print "First 3 lines:" ;;
     print_preview 0 (firstn 3 lines)).

End Analyzer.

(** ** generate_log.py *)

Module Generator.

(** The module [random] is an unseeded source of draws: [draws k] is the
    [k]-th number drawn, and every sequence of draws is possible. *)
Definition Rand := nat -> nat.

(** [random.choice(l)] *)
Definition choice {A} (l : list A) (default : A) (draw : nat) : A :=
  nth (draw mod length l)%nat l default.

(** [random.randint(a, b)] *)
Definition randint (a b : Z) (draw : nat) : Z :=
  a + Z.of_nat draw mod (b - a + 1).

(** The value functions of the signal table *)
Inductive val_func :=
| RandInt (a b : Z)            (* lambda: str(random.randint(a, b)) *)
| Choice (l : list str).       (* lambda: random.choice(l) *)

Definition call (f : val_func) (draw : nat) : str :=
  match f with
  | RandInt a b => str_of_Z (randint a b draw)
  | Choice l => choice l "" draw
  end.

Definition devices : list str :=
  ["SYSTEM/LINE1/DEV-101"; "SYSTEM/LINE1/DEV-102";
   "SYSTEM/LINE1/DEV-103"; "SYSTEM/LINE1/DEV-104"].

Definition signals : list (str * str * val_func) :=
  [("INPUT:Temperature", "Integer", RandInt 10 50);
   ("INPUT:Counter", "Integer", RandInt 0 1000);
   ("INPUT:Mode", "String", Choice ["RUNNING"; "STOPPED"; "ERROR"; "STOPPING"]);
   ("INPUT:Sensor_A", "Boolean", Choice ["ON"; "OFF"]);
   ("INPUT:Pressure", "Integer", RandInt 50 150);
   ("INPUT:Motor_Running", "Boolean", Choice ["ON"; "OFF"]);
   ("INPUT:System_State", "String", Choice ["OK"; "WARNING"; "ERROR"])].

(** [datetime.datetime(2025, 9, 22, 13, 0, 0)] *)
Definition start_time : Datetime.datetime :=
  {| Datetime.year := 2025; Datetime.month := 9; Datetime.day := 22;
     Datetime.hour := 13; Datetime.minute := 0; Datetime.second := 0;
     Datetime.microsecond := 0 |}.

(** [s[:-3]] *)
Definition drop_last3 (s : str) : str := firstn (length s - 3) s.

(** The line written when [line_count] lines are out, from three draws. *)
Definition make_line (line_count : Z) (d1 d2 d3 : nat) : error + str :=
  let device := choice devices "" d1 in
  let '(signal_name, signal_type, signal_val_func) :=
    choice signals ("", "", Choice []) d2 in
  let val := call signal_val_func d3 in
  match Datetime.new_timedelta 0 0 (line_count * 10 * 1000) with
  | inl e => inl e
  | inr elapsed =>
      match Datetime.add start_time elapsed with
      | inl e => inl e
      | inr current_time =>
          let timestamp := drop_last3 (Datetime.strftime_Ymd_HMS_f current_time) in
          inr (timestamp ++ " [Info] [" ++ device ++ "] [" ++ signal_name
               ++ "] (" ++ signal_type ++ ") : " ++ val ++ [NL])
      end
  end.

Record state := {
  current_size : Z;
  line_count : Z;
  written : list str      (* the texts passed to [f.write], in order *)
}.

(** The [while] loop; [None] stands for a loop cut short by [fuel].  The
    progress messages on standard output render a floating-point number
    and are left out. *)
Fixpoint loop (fuel : nat) (draws : Rand) (target_size_bytes : Z) (st : state)
  : option (state * (error + unit)) :=
  match fuel with
  | O => None
  | S fuel' =>
      if current_size st <? target_size_bytes then
        let k := (3 * Z.to_nat (line_count st))%nat in
        match make_line (line_count st) (draws k) (draws (k + 1)%nat) (draws (k + 2)%nat) with
        | inl e => Some (st, inl e)
        | inr line =>
            loop fuel' draws target_size_bytes
                 {| current_size := current_size st + len line;
                    line_count := line_count st + 1;
                    written := written st ++ [line] |}
        end
      else Some (st, inr tt)
  end.

Definition initial : state := {| current_size := 0; line_count := 0; written := [] |}.

(** [generate_large_log(filename, target_size_mb)]: the texts written to
    the file and the way the call ends.  Every turn of the loop writes at
    least one character, so [target_size_bytes] turns and one more test
    are enough. *)
Definition generate_large_log (draws : Rand) (target_size_mb : Z)
  : option (state * (error + unit)) :=
  let target_size_bytes := target_size_mb * 1024 * 1024 in
  loop (S (Z.to_nat target_size_bytes)) draws target_size_bytes initial.

(** The content of the file once it is closed *)
Definition file_content (st : state) : str := concat (written st).

End Generator.

(** ** Specification vocabulary *)

Module Spec.

(** The words a pattern denotes, without regard to matching order. *)
Inductive lang : regex -> str -> Prop :=
| lang_eps : lang Eps []
| lang_chr p a : p a = true -> lang (Chr p) [a]
| lang_seq r1 r2 w1 w2 : lang r1 w1 -> lang r2 w2 -> lang (Seq r1 r2) (w1 ++ w2)
| lang_alt_l r1 r2 w : lang r1 w -> lang (Alt r1 r2) w
| lang_alt_r r1 r2 w : lang r2 w -> lang (Alt r1 r2) w
| lang_star p w : forallb p w = true -> lang (Star p) w
| lang_group i r w : lang r w -> lang (Group i r) w.

(** [s] has a part that the pattern denotes. *)
Definition Contains (r : regex) (s : str) : Prop :=
  exists pre w post, s = pre ++ w ++ post /\ lang r w.

(** Group [i] is set by every match of the pattern. *)
Fixpoint always_binds (r : regex) (i : nat) : bool :=
  match r with
  | Group j r1 => Nat.eqb i j || always_binds r1 i
  | Seq r1 r2 => always_binds r1 i || always_binds r2 i
  | Alt r1 r2 => always_binds r1 i && always_binds r2 i
  | _ => false
  end.

(** [n] decimal digits *)
Definition digits_n (n : nat) (w : str) : Prop :=
  length w = n /\ forallb isdecimal w = true.

(** A non-empty run of characters of a class *)
Definition run1 (p : ascii -> bool) (w : str) : Prop :=
  w <> [] /\ forallb p w = true.

(** The date-time shape YYYY-MM-DD HH:MM:SS, the two parts separated by
    white space. *)
Definition datetime_shape (w : str) : Prop :=
  exists Y Mo D ws H Mi S,
    w = Y ++ "-" ++ Mo ++ "-" ++ D ++ ws ++ H ++ ":" ++ Mi ++ ":" ++ S
    /\ digits_n 4 Y /\ digits_n 2 Mo /\ digits_n 2 D /\ run1 isspace ws
    /\ digits_n 2 H /\ digits_n 2 Mi /\ digits_n 2 S.

(** The record shape: a timestamp with an optional fractional suffix, a
    bracketed device identifier, an identifier token of word characters. *)
Definition record_shape (w : str) : Prop :=
  exists ts frac ws1 dev ws2 sig,
    w = ts ++ frac ++ ws1 ++ "[" ++ dev ++ "]" ++ ws2 ++ sig
    /\ datetime_shape ts /\ forallb Analyzer.dot_or_digit frac = true
    /\ run1 isspace ws1 /\ run1 Analyzer.not_rbracket dev
    /\ run1 isspace ws2 /\ run1 isword sig.

(** [s] has a part of the given shape. *)
Definition has_part (shape : str -> Prop) (s : str) : Prop :=
  exists pre w post, s = pre ++ w ++ post /\ shape w.

(** [a] comes before [b] in [l]. *)
Definition precedes {A} (a b : A) (l : list A) : Prop :=
  exists l1 l2 l3, l = l1 ++ a :: l2 ++ b :: l3.

(** Position of the first occurrence of [k] in [l] ([length l] if none) *)
Fixpoint first_index (k : str) (l : list str) : nat :=
  match l with
  | [] => O
  | x :: l' => if str_eqb k x then O else S (first_index k l')
  end.

(** Number of occurrences of [k] in [l] *)
Fixpoint occurrences (k : str) (l : list str) : Z :=
  match l with
  | [] => 0
  | x :: l' => (if str_eqb k x then 1 else 0) + occurrences k l'
  end.

Definition total (c : Counter) : Z := fold_right (fun kv acc => snd kv + acc) 0 c.

(** The three groups of the first match of the record pattern in a line *)
Definition record_of (line : str) : option (str * str * str) :=
  match re_search Analyzer.record_re line with
  | Some m =>
      match groups 3 m with
      | [Some ts; Some device; Some signal] => Some (ts, device, signal)
      | _ => None
      end
  | None => None
  end.

(** The records of the matching lines, in line order *)
Definition records (lines : list str) : list (str * str * str) :=
  flat_map (fun line => match record_of line with Some r => [r] | None => [] end) lines.

Definition timestamp_seq (lines : list str) : list str :=
  map (fun r => fst (fst r)) (records lines).
Definition device_seq (lines : list str) : list str :=
  map (fun r => snd (fst r)) (records lines).
Definition signal_seq (lines : list str) : list str :=
  map (fun r => snd r) (records lines).

(** The counter obtained by counting the keys one after the other *)
Definition tally (keys : list str) (c : Counter) : Counter := fold_left incr keys c.

(** [Count P l n]: exactly [n] elements of [l] satisfy [P]. *)
Inductive Count {A} (P : A -> Prop) : list A -> nat -> Prop :=
| Count_nil : Count P [] 0
| Count_hit x l n : P x -> Count P l n -> Count P (x :: l) (S n)
| Count_miss x l n : ~ P x -> Count P l n -> Count P (x :: l) n.

(** A line as [readlines] returns it before the end of the file: no line
    break but the final LF. *)
Definition no_break (c : ascii) : bool := negb (Ascii.eqb c NL || Ascii.eqb c CR).

Definition terminated_line (line : str) : Prop :=
  exists body, line = body ++ [NL] /\ forallb no_break body = true.

(** The state after a line of the scanning loop *)
Definition step (st : Analyzer.scan_state) (line : str) : Analyzer.scan_state :=
  match record_of line with
  | Some (ts, device, signal) =>
      {| Analyzer.timestamps := Analyzer.timestamps st ++ [ts];
         Analyzer.devices := incr (Analyzer.devices st) device;
         Analyzer.signals := incr (Analyzer.signals st) signal |}
  | None => st
  end.

(** Descending order of counts *)
Definition count_ge (a b : str * Z) : Prop := snd b <= snd a.

(** One printed line of a ranking *)
Definition render_entry (e : str * Z) : str :=
  "  " ++ fst e ++ ": " ++ str_of_Z (snd e) ++ " entries".

(** Both timestamps, cut to 19 characters, parse under the format
    %Y-%m-%d %H:%M:%S. *)
Definition both_parse (first last : str) : Prop :=
  exists start end_,
    Datetime.strptime_Ymd_HMS (firstn 19 first) = inr start
    /\ Datetime.strptime_Ymd_HMS (firstn 19 last) = inr end_.

(** What the [try] block of [analyze_plc_debug] prints *)
Definition duration_lines (first last : str) : list str :=
  match Datetime.strptime_Ymd_HMS (firstn 19 first),
        Datetime.strptime_Ymd_HMS (firstn 19 last) with
  | inr start, inr end_ =>
      match Datetime.sub end_ start with
      | inr d => ["Duration: " ++ Datetime.str_of_timedelta d]
      | inl _ => []
      end
  | _, _ => []
  end.

Definition time_lines (ts : list str) : list str :=
  match ts with
  | [] => []
  | first :: _ =>
      ("Time range: " ++ first ++ " to " ++ last ts [])
        :: duration_lines first (last ts [])
  end.

(** The report of [analyze_plc_debug], from the records of the lines *)
Definition report (lines : list str) : list str :=
  ["Format: PLC Debug"; Analyzer.dashes;
   "Total entries: " ++ str_of_Z (len (timestamp_seq lines))]
  ++ time_lines (timestamp_seq lines)
  ++ [NL :: "Top 10 Devices:"]
  ++ map render_entry (most_common 10 (tally (device_seq lines) []))
  ++ [NL :: "Top 10 Signals:"]
  ++ map render_entry (most_common 10 (tally (signal_seq lines) [])).

(** The fields of a [datetime] are in the ranges its constructor checks. *)
Definition valid_datetime (t : Datetime.datetime) : Prop :=
  1 <= Datetime.year t <= 9999 /\ 1 <= Datetime.month t <= 12
  /\ 1 <= Datetime.day t <= 31
  /\ 0 <= Datetime.hour t <= 23 /\ 0 <= Datetime.minute t <= 59
  /\ 0 <= Datetime.second t <= 59 /\ 0 <= Datetime.microsecond t <= 999999.

(** A text without line breaks *)
Definition safe (s : str) : Prop := forallb no_break s = true.

(** The lines of the generator:
    <timestamp> [Info] [<device>] [<signal>] (<type>) : <value>
    with a timestamp YYYY-MM-DD HH:MM:SS.mmm. *)
Definition generator_line (line : str) : Prop :=
  exists Y Mo D H Mi S F device signal type val,
    line = Y ++ "-" ++ Mo ++ "-" ++ D ++ " " ++ H ++ ":" ++ Mi ++ ":" ++ S
           ++ "." ++ F ++ " [Info] [" ++ device ++ "] [" ++ signal
           ++ "] (" ++ type ++ ") : " ++ val ++ [NL]
    /\ digits_n 4 Y /\ digits_n 2 Mo /\ digits_n 2 D /\ digits_n 2 H
    /\ digits_n 2 Mi /\ digits_n 2 S /\ digits_n 3 F
    /\ safe device /\ safe signal /\ safe type /\ safe val.

(** A text begins with the date-time shape. *)
Definition starts_with_datetime (s : str) : Prop :=
  exists ts rest, s = ts ++ rest /\ datetime_shape ts.

(** The six format tags *)
Definition format_tags : list str :=
  ["plc_debug"; "csv"; "tab_separated"; "mcs_amhs"; "unknown"; "empty"].

(** The sample of [detect_format]: the first ten lines, joined by LF *)
Definition sample_of (lines : list str) : str := join [NL] (firstn 10 lines).

(** A bracketed part [...] within one line *)
Definition bracket_shape (w : str) : Prop :=
  exists inner, w = "[" ++ inner ++ "]" /\ forallb Analyzer.dot inner = true.

(** The rules of the detector, in the words of its contract *)
Definition plc_rule (lines : list str) : Prop :=
  has_part datetime_shape (sample_of lines).

Definition tab_rule (line0 : str) : Prop :=
  In TAB line0 /\ 3 < len (split TAB line0).

Definition csv_rule (line0 : str) : Prop :=
  In ","%char line0 /\ 3 < len (split "," line0).

Definition amhs_rule (lines : list str) : Prop :=
  has_part bracket_shape (sample_of lines)
  /\ exists pre post, upper (sample_of lines) = pre ++ code_points "AMHS" ++ post.

(** The last part of [main]: the summarizer chosen by the detected format *)
Definition dispatch (lines : list str) : M unit :=
  if str_eqb (Analyzer.detect_format lines) "plc_debug" then
    Analyzer.analyze_plc_debug lines
  else if str_eqb (Analyzer.detect_format lines) "csv" then
    Analyzer.analyze_csv lines
  else if str_eqb (Analyzer.detect_format lines) "tab_separated" then
    Analyzer.analyze_tab lines
  else if str_eqb (Analyzer.detect_format lines) "empty" then
    print "File is empty"
  else
    (print ("Format: " ++ Analyzer.detect_format lines) ;;
     print Analyzer.dashes ;;
     print "First 3 lines:" ;;
     Analyzer.print_preview 0 (firstn 3 lines)).

(** What [main] prints between reading the file and the summary *)
Definition preamble (filepath : str) (lines : list str) : list str :=
  ["Analyzing: " ++ filepath; repeat_str "=" 50;
   "File size: " ++ str_of_Z_commas (len (concat lines)) ++ " characters";
   "Lines: " ++ str_of_Z_commas (len lines); ""].

Definition usage : list str :=
  ["Usage: python analyze-log.py <logfile>"; "";
   "Analyzes PLC log files and provides summary statistics.";
   "Supports: PLC Debug, CSV, Tab-separated, MCS/AMHS formats"].

(** The output has a line that reports a duration. *)
Definition duration_printed (out : list str) : Prop :=
  exists l, In l out /\ startswith "Duration: " l = true.

End Spec.
Import Spec.

(** ** Concrete inputs *)

Module Examples.

(** A first line with both the date-time shape and five comma-separated
    fields *)
Definition dated_csv : list str :=
  ["2024-01-15 10:00:00,a,b,c,d" ++ [NL]; "1,2,3,4,5" ++ [NL]].

(** The two lines of the example of the specification *)
Definition info_lines : list str :=
  ["2024-01-15 10:00:00 [Info] [DEV-1] [Temp] (Integer) : 30" ++ [NL];
   "2024-01-15 10:00:01 [Info] [DEV-1] [Temp] (Integer) : 31" ++ [NL]].

(** Two lines in the format that the comment in [analyze_plc_debug]
    documents, and one line that is not a record *)
Definition documented_lines : list str :=
  ["2024-01-15 10:00:00.123 [DEV-1] Temp = 30" ++ [NL];
   "# comment" ++ [NL];
   "2024-01-15 10:00:01 [DEV-1] Temp = 31" ++ [NL]].

(** A record line of the documented format *)
Definition record_line (device signal : str) : str :=
  "2024-01-15 10:00:00 [" ++ device ++ "] " ++ signal ++ " = 1" ++ [NL].

(** Devices X and Y tie with two records each, X is met first. *)
Definition tie_lines : list str :=
  [record_line "X" "S1"; record_line "Y" "S2"; record_line "Z" "S1";
   record_line "Y" "S2"; record_line "X" "S3"].

(** Eleven devices, one record each *)
Definition eleven_devices : list str :=
  map (fun d => record_line d "Temp")
      ["D01"; "D02"; "D03"; "D04"; "D05"; "D06"; "D07"; "D08"; "D09"; "D10"; "D11"].

(** The CSV file of the specification's example *)
Definition csv_lines : list str := ["a,b,c,d,e" ++ [NL]; "1,2,3,4,5" ++ [NL]].

(** Month 13 matches the record pattern but is no date. *)
Definition bad_month_lines : list str :=
  ["2024-13-15 10:00:00 [DEV-1] Temp = 30" ++ [NL];
   "2024-01-15 10:00:01 [DEV-1] Temp = 31" ++ [NL]].

(** A file system with one CSV file *)
Definition one_file : Analyzer.World :=
  {| Analyzer.open_text := fun path =>
       if str_eqb path "a.csv" then inr (concat csv_lines)
       else inl (OSError "No such file or directory");
     Analyzer.gzip_open_text := fun path => inl (OSError "Not a gzipped file") |}.

(** A date at the end of one line, a time at the start of the next *)
Definition split_datetime_text : str := "2024-01-15" ++ [NL] ++ "10:00:00" ++ [NL].

End Examples.

(** ** Further vocabulary *)

Module Extra.

(** Matching with captured groups: [sem r w c c'] says that [r] denotes
    the word [w] and that matching it turns the captures [c] into [c']. *)
Inductive sem : regex -> str -> captures -> captures -> Prop :=
| sem_eps c : sem Eps [] c c
| sem_chr p a c : p a = true -> sem (Chr p) [a] c c
| sem_seq r1 r2 w1 w2 c c1 c2 :
    sem r1 w1 c c1 -> sem r2 w2 c1 c2 -> sem (Seq r1 r2) (w1 ++ w2) c c2
| sem_alt_l r1 r2 w c c' : sem r1 w c c' -> sem (Alt r1 r2) w c c'
| sem_alt_r r1 r2 w c c' : sem r2 w c c' -> sem (Alt r1 r2) w c c'
| sem_star p w c : forallb p w = true -> sem (Star p) w c c
| sem_group i r w c c' : sem r w c c' -> sem (Group i r) w c (set_group i w c').

(** The class whose greedy repetition ends the pattern, if there is one *)
Fixpoint tail_class (r : regex) : option (ascii -> bool) :=
  match r with
  | Star p => Some p
  | Seq _ r2 => tail_class r2
  | Group _ r1 => tail_class r1
  | _ => None
  end.

(** The text does not go on with a character of the class. *)
Definition stops (p : ascii -> bool) (s : str) : Prop :=
  match s with
  | [] => True
  | a :: _ => p a = false
  end.

(** A pattern without groups *)
Fixpoint group_free (r : regex) : bool :=
  match r with
  | Group _ _ => false
  | Seq r1 r2 | Alt r1 r2 => group_free r1 && group_free r2
  | _ => true
  end.

(** A timestamp as the record pattern captures it *)
Definition timestamp_text (ts : str) : Prop :=
  exists d frac, ts = d ++ frac /\ datetime_shape d
                 /\ forallb Analyzer.dot_or_digit frac = true.

(** Where a record sits in its line *)
Definition record_in_line (line ts device signal : str) : Prop :=
  exists pre ws1 ws2 post,
    line = pre ++ ts ++ ws1 ++ "[" ++ device ++ "]" ++ ws2 ++ signal ++ post
    /\ timestamp_text ts /\ run1 isspace ws1 /\ run1 Analyzer.not_rbracket device
    /\ run1 isspace ws2 /\ run1 isword signal /\ stops isword post.

(** Number of occurrences of a character *)
Fixpoint count_char (c : ascii) (s : str) : Z :=
  match s with
  | [] => 0
  | x :: s' => (if Ascii.eqb x c then 1 else 0) + count_char c s'
  end.

(** A line as [readlines] returns it: no line break inside; it ends in LF,
    or it is the non-empty rest of a text without final LF. *)
Definition read_line (l : str) : Prop :=
  exists body, forallb no_break body = true
               /\ (l = body ++ [NL] \/ (l = body /\ body <> [])).

(** The texts [print_preview i l] prints *)
Fixpoint preview_lines (i : Z) (l : list str) : list str :=
  match l with
  | [] => []
  | line :: rest =>
      ("  " ++ str_of_Z (i + 1) ++ ": " ++ firstn 80 (strip line))
        :: preview_lines (i + 1) rest
  end.

(** The report of [analyze_plc_debug] when no line matches *)
Definition zero_report : list str :=
  ["Format: PLC Debug"; Analyzer.dashes; "Total entries: 0";
   NL :: "Top 10 Devices:"; NL :: "Top 10 Signals:"].

(** The text that [read_log_file] gets for a path *)
Definition source (w : Analyzer.World) (path : str) : error + str :=
  if endswith path ".gz" then Analyzer.gzip_open_text w path
  else Analyzer.open_text w path.

(** 1 when the text has a rest after its last LF, 0 otherwise *)
Definition unterminated (s : str) : Z :=
  if Ascii.eqb (last s NL) NL then 0 else 1.

(** A file system with one file in the MCS/AMHS style *)
Definition amhs_file : Analyzer.World :=
  {| Analyzer.open_text := fun path =>
       if str_eqb path "mcs.log" then
         inr ("[AMHS] transfer start" ++ [NL] ++ "carrier 1" ++ [NL]
              ++ "carrier 2" ++ [NL] ++ "carrier 3" ++ [NL])
       else inl (OSError "No such file or directory");
     Analyzer.gzip_open_text := fun path => inl (OSError "Not a gzipped file") |}.

(** A first line of four tab-separated fields of which three are empty or
    white space *)
Definition tab_edge_lines : list str := ["a" ++ [TAB; TAB; TAB; NL]; "b" ++ [NL]].

(** [rk] is the ranking of the counter [c] of the key sequence [ks], cut
    to [n] entries: as many entries as there are keys, up to [n]; no key
    twice; each entry with the number of occurrences of its key; no key
    left out that occurs more often than a listed one. *)
Definition top_ranking (n : nat) (ks : list str) (c : Counter) (rk : list (str * Z)) : Prop :=
  length rk = Nat.min n (length c)
  /\ NoDup (map fst rk)
  /\ (forall k v, In (k, v) rk -> v = occurrences k ks /\ 1 <= v)
  /\ (forall k v k', In (k, v) rk -> ~ In k' (map fst rk) -> occurrences k' ks <= v).

(** White space, then a word character *)
Fixpoint ws_then_word (s : str) : bool :=
  match s with
  | [] => false
  | c :: s' => if isspace c then ws_then_word s' else isword c
  end.

(** Somewhere in the text: a closing bracket, white space (at least one
    character), a word character *)
Fixpoint bracket_then_word (s : str) : bool :=
  match s with
  | [] => false
  | c :: s' =>
      (Ascii.eqb c "]"
       && match s' with
          | d :: s'' => isspace d && ws_then_word s''
          | [] => false
          end)
      || bracket_then_word s'
  end.

(** Neither a line break nor a closing bracket *)
Definition plain (c : ascii) : bool := no_break c && Analyzer.not_rbracket c.

(** The line written as number [n] (from 0), with its parts *)
Definition generated_line (n : Z) (line : str) : Prop :=
  exists t device name type f draw,
    Datetime.add Generator.start_time
      {| Datetime.days := n * 10 * 1000 / 1000000 / 86400;
         Datetime.seconds := (n * 10 * 1000 / 1000000) mod 86400;
         Datetime.microseconds := (n * 10 * 1000) mod 1000000 |} = inr t
    /\ In device Generator.devices
    /\ In (name, type, f) Generator.signals
    /\ line = Generator.drop_last3 (Datetime.strftime_Ymd_HMS_f t)
              ++ " [Info] [" ++ device ++ "] [" ++ name ++ "] (" ++ type ++ ") : "
              ++ Generator.call f draw ++ [NL].

(** What the loop of the generator keeps true of its state *)
Definition loop_invariant (target : Z) (st : Generator.state) : Prop :=
  Generator.line_count st = len (Generator.written st)
  /\ Generator.current_size st = len (concat (Generator.written st))
  /\ (forall i line, nth_error (Generator.written st) i = Some line ->
        generated_line (Z.of_nat i) line)
  /\ (forall init x, Generator.written st = init ++ [x] -> len (concat init) < target).

(** A file system with one text file *)
Definition file_at (name text : str) : Analyzer.World :=
  {| Analyzer.open_text := fun path =>
       if str_eqb path name then inr text
       else inl (OSError "No such file or directory");
     Analyzer.gzip_open_text := fun path => inl (OSError "Not a gzipped file") |}.

End Extra.
Import Extra.

(** * Properties *)

(** ** Texts *)

Lemma str_eqb_eq (a b : str) : str_eqb a b = true <-> a = b.
Proof.
  revert b; induction a as [|x a IH]; intros [|y b]; simpl; split; try congruence; try easy.
  - rewrite andb_true_iff, Ascii.eqb_eq, IH. intros [-> ->]; reflexivity.
  - intros E; injection E as -> ->. rewrite andb_true_iff, Ascii.eqb_eq, IH; auto.
Qed.

Lemma str_eqb_refl (a : str) : str_eqb a a = true.
Proof. apply str_eqb_eq; reflexivity. Qed.

Lemma str_eqb_neq (a b : str) : str_eqb a b = false <-> a <> b.
Proof.
  split.
  - intros E H. apply str_eqb_eq in H. congruence.
  - intros H. destruct (str_eqb a b) eqn:E; [apply str_eqb_eq in E; contradiction | reflexivity].
Qed.

(** ** The matcher against the denotation of patterns *)

Section MatcherFacts.
Variable A : Type.

Lemma star_greedy_sound p s (k : str -> option A) x :
  star_greedy p s k = Some x ->
  exists w s', s = w ++ s' /\ forallb p w = true /\ k s' = Some x.
Proof.
  induction s as [|a s IH]; simpl.
  - intros H. exists [], []. auto.
  - destruct (p a) eqn:Pa.
    + destruct (star_greedy p s k) eqn:E.
      * intros H; injection H as ->.
        destruct (IH eq_refl) as (w & s' & -> & Hw & Hk).
        exists (a :: w), s'. simpl. rewrite Pa, Hw. auto.
      * intros H. exists [], (a :: s). auto.
    + intros H. exists [], (a :: s). auto.
Qed.

Lemma star_greedy_complete p w s' (k : str -> option A) :
  forallb p w = true -> k s' <> None -> star_greedy p (w ++ s') k <> None.
Proof.
  induction w as [|a w IH]; simpl.
  - intros _ H. destruct s' as [|b s']; simpl; auto.
    destruct (p b); auto. destruct (star_greedy p s' k); auto. discriminate.
  - rewrite andb_true_iff. intros [Pa Hw] Hk. rewrite Pa.
    specialize (IH Hw Hk). destruct (star_greedy p (w ++ s') k); [discriminate | contradiction].
Qed.

Lemma firstn_consumed (w s' : str) :
  firstn (length (w ++ s') - length s') (w ++ s') = w.
Proof.
  rewrite length_app.
  replace (length w + length s' - length s')%nat with (length w + 0)%nat by lia.
  rewrite firstn_app_2. simpl. apply app_nil_r.
Qed.

Lemma backtrack_sound r : forall s c (k : str -> captures -> option A) x,
  backtrack r s c k = Some x ->
  exists w s' c', s = w ++ s' /\ lang r w /\ k s' c' = Some x
    /\ forall i, (group i c <> None \/ always_binds r i = true) -> group i c' <> None.
Proof.
  induction r as [|p|r1 IH1 r2 IH2|r1 IH1 r2 IH2|p|j r IH]; intros s c k x; simpl.
  - intros H. exists [], s, c. repeat split; auto using lang_eps.
    intros i [Hi|Hi]; [assumption|discriminate].
  - destruct s as [|a s]; [discriminate|]. destruct (p a) eqn:Pa; [|discriminate].
    intros H. exists [a], s, c. repeat split; auto using lang_chr.
    intros i [Hi|Hi]; [assumption|discriminate].
  - intros H. apply IH1 in H. destruct H as (w1 & s1 & c1 & -> & L1 & H & B1).
    apply IH2 in H. destruct H as (w2 & s2 & c2 & -> & L2 & H & B2).
    exists (w1 ++ w2), s2, c2. rewrite app_assoc. repeat split; auto using lang_seq.
    intros i [Hi|Hi]; apply B2; auto.
    apply orb_true_iff in Hi. destruct Hi; auto.
  - destruct (backtrack r1 s c k) eqn:E.
    + intros H; injection H as ->. apply IH1 in E.
      destruct E as (w & s' & c' & -> & L & H & B).
      exists w, s', c'. repeat split; auto using lang_alt_l.
      intros i [Hi|Hi]; apply B; auto.
      apply andb_true_iff in Hi. tauto.
    + intros H. apply IH2 in H.
      destruct H as (w & s' & c' & -> & L & H & B).
      exists w, s', c'. repeat split; auto using lang_alt_r.
      intros i [Hi|Hi]; apply B; auto.
      apply andb_true_iff in Hi. tauto.
  - intros H. apply star_greedy_sound in H. destruct H as (w & s' & -> & Hw & H).
    exists w, s', c. repeat split; auto using lang_star.
    intros i [Hi|Hi]; [assumption|discriminate].
  - intros H. apply IH in H. destruct H as (w & s' & c' & -> & L & H & B).
    rewrite firstn_consumed in H.
    exists w, s', (set_group j w c'). repeat split; auto using lang_group.
    intros i Hi. simpl. destruct (Nat.eqb i j) eqn:Eij; [discriminate|].
    apply B. destruct Hi as [Hi|Hi]; auto.
Qed.

Lemma backtrack_complete r w : lang r w ->
  forall s' c (k : str -> captures -> option A),
    (forall c', k s' c' <> None) -> backtrack r (w ++ s') c k <> None.
Proof.
  induction 1 as [|p a Pa|r1 r2 w1 w2 L1 IH1 L2 IH2|r1 r2 w L IH|r1 r2 w L IH|p w Hw|i r w L IH];
    intros s' c k Hk; simpl.
  - apply Hk.
  - rewrite Pa. apply Hk.
  - rewrite <- app_assoc. apply IH1. intros c1. apply IH2. assumption.
  - specialize (IH s' c k Hk). destruct (backtrack r1 (w ++ s') c k); [discriminate|contradiction].
  - destruct (backtrack r1 (w ++ s') c k); [discriminate|]. apply IH; assumption.
  - apply star_greedy_complete; auto.
  - apply IH. intros c'. apply Hk.
Qed.
End MatcherFacts.

Lemma re_match_sound r s m :
  re_match r s = Some m ->
  exists w, s = w ++ m_rest m /\ lang r w
    /\ forall i, always_binds r i = true -> group i (m_groups m) <> None.
Proof.
  unfold re_match. intros H. apply backtrack_sound in H.
  destruct H as (w & s' & c' & -> & L & H & B). injection H as <-. simpl.
  exists w. repeat split; auto.
Qed.

Lemma re_match_complete r w post : lang r w -> re_match r (w ++ post) <> None.
Proof.
  intros L. unfold re_match. apply backtrack_complete; auto. discriminate.
Qed.

Lemma re_search_sound r s m :
  re_search r s = Some m ->
  Contains r s /\ forall i, always_binds r i = true -> group i (m_groups m) <> None.
Proof.
  induction s as [|a s IH]; simpl.
  - destruct (re_match r []) eqn:E; [|discriminate]. intros H; injection H as ->.
    apply re_match_sound in E. destruct E as (w & E & L & B).
    split; auto. exists [], w, (m_rest m). auto.
  - destruct (re_match r (a :: s)) eqn:E.
    + intros H; injection H as ->.
      apply re_match_sound in E. destruct E as (w & E & L & B).
      split; auto. exists [], w, (m_rest m). auto.
    + intros H. destruct (IH H) as [(pre & w & post & -> & L) B].
      split; auto. exists (a :: pre), w, post. auto.
Qed.

Lemma re_search_complete r s : Contains r s -> re_search r s <> None.
Proof.
  intros (pre & w & post & -> & L).
  induction pre as [|a pre IH]; simpl.
  - pose proof (re_match_complete post L) as H.
    destruct (w ++ post); simpl; destruct (re_match r _); try discriminate; contradiction.
  - destruct (re_match r (a :: pre ++ w ++ post)); [discriminate|]. assumption.
Qed.

(** [re.search] finds a match exactly when the text has a part in the
    language of the pattern. *)
Lemma re_search_iff r s : truthy (re_search r s) = true <-> Contains r s.
Proof.
  split.
  - destruct (re_search r s) eqn:E; [|discriminate]. intros _.
    apply re_search_sound in E. tauto.
  - intros H. apply re_search_complete in H. destruct (re_search r s); [reflexivity|contradiction].
Qed.

(** ** Patterns and shapes *)

Lemma lang_eps_inv w : lang Eps w -> w = [].
Proof. inversion 1; reflexivity. Qed.

Lemma lang_seq_inv r1 r2 w :
  lang (Seq r1 r2) w -> exists w1 w2, w = w1 ++ w2 /\ lang r1 w1 /\ lang r2 w2.
Proof. inversion 1; subst; eauto. Qed.

Lemma lang_group_inv i r w : lang (Group i r) w -> lang r w.
Proof. inversion 1; assumption. Qed.

Lemma lang_star_inv p w : lang (Star p) w -> forallb p w = true.
Proof. inversion 1; assumption. Qed.

Lemma lang_chr_inv p w : lang (Chr p) w -> exists a, w = [a] /\ p a = true.
Proof. inversion 1; subst; eauto. Qed.

Lemma lang_lit c w : lang (Lit c) w <-> w = [c].
Proof.
  unfold Lit. split.
  - intros H. apply lang_chr_inv in H. destruct H as (a & -> & E).
    apply Ascii.eqb_eq in E. subst; reflexivity.
  - intros ->. apply lang_chr. apply Ascii.eqb_refl.
Qed.

Lemma lang_plus p w : lang (Plus p) w <-> run1 p w.
Proof.
  unfold Plus, run1. split.
  - intros H. apply lang_seq_inv in H. destruct H as (w1 & w2 & -> & H1 & H2).
    apply lang_chr_inv in H1. destruct H1 as (a & -> & Pa).
    apply lang_star_inv in H2. simpl. rewrite Pa, H2. split; [discriminate|reflexivity].
  - intros [Hn Hw]. destruct w as [|a w]; [contradiction|].
    simpl in Hw. apply andb_true_iff in Hw. destruct Hw as [Pa Hw].
    change (a :: w) with ([a] ++ w). apply lang_seq; [apply lang_chr | apply lang_star]; assumption.
Qed.

Lemma lang_rep_digits n w : lang (Rep n dig_re) w <-> digits_n n w.
Proof.
  unfold digits_n. revert w; induction n as [|n IH]; intros w; simpl.
  - split.
    + intros H. apply lang_eps_inv in H. subst. auto.
    + intros [H _]. destruct w; [apply lang_eps | discriminate].
  - split.
    + intros H. apply lang_seq_inv in H. destruct H as (w1 & w2 & -> & H1 & H2).
      apply lang_chr_inv in H1. destruct H1 as (a & -> & Pa).
      apply IH in H2. destruct H2 as [<- Hw]. simpl. rewrite Pa, Hw. auto.
    + intros [Hl Hw]. destruct w as [|a w]; [discriminate|].
      simpl in Hw. apply andb_true_iff in Hw. destruct Hw as [Pa Hw].
      change (a :: w) with ([a] ++ w). apply lang_seq; [apply lang_chr; assumption|].
      apply IH. split; [simpl in Hl; congruence | assumption].
Qed.

Ltac lang_inv :=
  repeat match goal with
    | H : lang (Seq _ _) _ |- _ =>
        apply lang_seq_inv in H; destruct H as (? & ? & -> & ? & H)
    | H : lang (Group _ _) _ |- _ => apply lang_group_inv in H
    | H : lang (Lit _) _ |- _ => apply lang_lit in H; subst
    | H : lang (Plus _) _ |- _ => apply lang_plus in H
    | H : lang (Rep _ dig_re) _ |- _ => apply lang_rep_digits in H
    | H : lang (Star _) _ |- _ => apply lang_star_inv in H
    end.

Ltac lang_build :=
  repeat first
    [ apply lang_seq
    | apply lang_group
    | apply lang_lit; reflexivity
    | apply lang_plus; assumption
    | apply lang_rep_digits; assumption
    | apply lang_star; assumption ].

(** The detection pattern denotes the date-time shape. *)
Lemma datetime_re_shape w : lang Analyzer.datetime_re w <-> datetime_shape w.
Proof.
  unfold Analyzer.datetime_re, datetime_shape. cbn [Cat]. split.
  - intros H. lang_inv. do 7 eexists. split; [reflexivity|]. tauto.
  - intros (Y & Mo & D & ws & H & Mi & S & -> & HY & HMo & HD & Hws & HH & HMi & HS).
    lang_build.
Qed.

(** The record pattern denotes the record shape. *)
Lemma record_re_shape w : lang Analyzer.record_re w <-> record_shape w.
Proof.
  unfold Analyzer.record_re, record_shape. cbn [Cat]. split.
  - intros H. lang_inv.
    match goal with H : lang Analyzer.datetime_re _ |- _ => apply datetime_re_shape in H end.
    do 6 eexists. split; [rewrite <- app_assoc; reflexivity|]. tauto.
  - intros (ts & frac & ws1 & dev & ws2 & sig & -> & Hts & Hfrac & H1 & Hdev & H2 & Hsig).
    rewrite (app_assoc ts frac). apply datetime_re_shape in Hts.
    lang_build. assumption.
Qed.

Lemma Contains_datetime s :
  Contains Analyzer.datetime_re s <-> has_part datetime_shape s.
Proof.
  unfold Contains, has_part. split; intros (pre & w & post & E & H);
    exists pre, w, post; split; auto; apply datetime_re_shape; assumption.
Qed.

Lemma Contains_record s :
  Contains Analyzer.record_re s <-> has_part record_shape s.
Proof.
  unfold Contains, has_part. split; intros (pre & w & post & E & H);
    exists pre, w, post; split; auto; apply record_re_shape; assumption.
Qed.

(** ** The monad *)

Lemma bind_ret_l {A B} (a : A) (f : A -> M B) : bind (ret a) f = f a.
Proof. unfold bind, ret. destruct (f a); reflexivity. Qed.

Lemma bind_print {B} (s : str) (k : M B) :
  bind (print s) (fun _ => k) = (s :: stdout k, outcome k).
Proof. unfold bind, print. destruct k; reflexivity. Qed.

Lemma lift_inr {A} (a : A) : lift (inr a) = ret a.
Proof. reflexivity. Qed.

(** ** The scanning loop of [analyze_plc_debug] *)

Lemma search_groups line m :
  re_search Analyzer.record_re line = Some m ->
  exists ts device signal, groups 3 m = [Some ts; Some device; Some signal].
Proof.
  intros H. apply re_search_sound in H. destruct H as [_ B].
  unfold groups. simpl.
  pose proof (B 1%nat eq_refl) as B1.
  pose proof (B 2%nat eq_refl) as B2.
  pose proof (B 3%nat eq_refl) as B3.
  destruct (group 1 (m_groups m)) as [ts|]; [|contradiction].
  destruct (group 2 (m_groups m)) as [d|]; [|contradiction].
  destruct (group 3 (m_groups m)) as [sg|]; [|contradiction].
  eauto.
Qed.

Lemma record_of_some_iff line :
  (exists r, record_of line = Some r) <-> has_part record_shape line.
Proof.
  rewrite <- Contains_record, <- re_search_iff. unfold record_of.
  destruct (re_search Analyzer.record_re line) as [m|] eqn:E; cbn [truthy].
  - destruct (search_groups _ E) as (ts & d & sg & ->). split; eauto.
  - split; [intros [r H]; discriminate | discriminate].
Qed.

Lemma record_of_none_iff line :
  record_of line = None <-> ~ has_part record_shape line.
Proof.
  rewrite <- record_of_some_iff. destruct (record_of line).
  - split; [discriminate | intros H; exfalso; eauto].
  - split; [intros _ [r H]; discriminate | reflexivity].
Qed.

Lemma scan_line_step st line : Analyzer.scan_line st line = ret (step st line).
Proof.
  unfold Analyzer.scan_line, step, record_of.
  destruct (re_search Analyzer.record_re line) as [m|] eqn:E; [|reflexivity].
  destruct (search_groups _ E) as (ts & d & sg & ->). reflexivity.
Qed.

Lemma scan_fold lines : forall st, Analyzer.scan st lines = ret (fold_left step lines st).
Proof.
  induction lines as [|line rest IH]; intros st; simpl; [reflexivity|].
  rewrite scan_line_step, bind_ret_l. apply IH.
Qed.

Lemma fold_step lines : forall st,
  fold_left step lines st =
  {| Analyzer.timestamps := Analyzer.timestamps st ++ timestamp_seq lines;
     Analyzer.devices := tally (device_seq lines) (Analyzer.devices st);
     Analyzer.signals := tally (signal_seq lines) (Analyzer.signals st) |}.
Proof.
  unfold timestamp_seq, device_seq, signal_seq, tally, records.
  induction lines as [|line rest IH]; intros st; simpl.
  - rewrite app_nil_r. destruct st; reflexivity.
  - rewrite IH. unfold step. destruct (record_of line) as [[[ts d] sg]|]; simpl.
    + rewrite <- app_assoc. reflexivity.
    + reflexivity.
Qed.

(** The loop never raises and prints nothing; its final state holds the
    records of the matching lines. *)
Lemma scan_records lines :
  Analyzer.scan Analyzer.scan_init lines =
  ret {| Analyzer.timestamps := timestamp_seq lines;
         Analyzer.devices := tally (device_seq lines) [];
         Analyzer.signals := tally (signal_seq lines) [] |}.
Proof. rewrite scan_fold, fold_step. reflexivity. Qed.

Lemma records_length_Count lines :
  Count (has_part record_shape) lines (length (records lines)).
Proof.
  unfold records. induction lines as [|line rest IH]; simpl.
  - constructor.
  - destruct (record_of line) as [r|] eqn:E; simpl.
    + apply Count_hit; auto. apply record_of_some_iff. eauto.
    + apply Count_miss; auto. apply record_of_none_iff. assumption.
Qed.

Lemma Count_fun {A} (P : A -> Prop) l : forall n m, Count P l n -> Count P l m -> n = m.
Proof.
  induction l as [|x l IH]; intros n m Hn Hm; inversion Hn; inversion Hm; subst;
    try reflexivity; try contradiction.
  - f_equal. eauto.
  - eauto.
Qed.

Lemma records_skip l1 x l2 :
  ~ has_part record_shape x -> records (l1 ++ x :: l2) = records (l1 ++ l2).
Proof.
  intros H. apply record_of_none_iff in H. unfold records.
  rewrite !flat_map_app. simpl. rewrite H. reflexivity.
Qed.

(** ** Counters *)

Lemma incr_cons k k' v c :
  incr ((k', v) :: c) k =
  if str_eqb k k' then (k', v + 1) :: c else (k', v) :: incr c k.
Proof. unfold incr. simpl. destruct (str_eqb k k'); reflexivity. Qed.

Lemma incr_nil k : incr [] k = [(k, 1)].
Proof. reflexivity. Qed.

Lemma total_incr c k : total (incr c k) = total c + 1.
Proof.
  induction c as [|[k' v] c IH].
  - reflexivity.
  - rewrite incr_cons. destruct (str_eqb k k'); simpl in *; lia.
Qed.

Lemma total_tally ks : forall c, total (tally ks c) = total c + len ks.
Proof.
  unfold tally, len. induction ks as [|k ks IH]; intros c; simpl fold_left.
  - simpl. lia.
  - rewrite IH, total_incr. simpl length. lia.
Qed.

Lemma positive_incr c k :
  Forall (fun kv => 1 <= snd kv) c -> Forall (fun kv => 1 <= snd kv) (incr c k).
Proof.
  induction c as [|[k' v] c IH]; intros H.
  - rewrite incr_nil. constructor; [simpl; lia | constructor].
  - rewrite incr_cons. inversion H as [|? ? Hv Hc]; subst. simpl in Hv.
    destruct (str_eqb k k'); constructor; simpl; auto; lia.
Qed.

Lemma positive_tally ks : forall c,
  Forall (fun kv => 1 <= snd kv) c -> Forall (fun kv => 1 <= snd kv) (tally ks c).
Proof.
  unfold tally. induction ks as [|k ks IH]; intros c H; simpl; auto using positive_incr.
Qed.

Lemma getitem_incr c k k' :
  getitem (incr c k) k' = getitem c k' + (if str_eqb k' k then 1 else 0).
Proof.
  induction c as [|[k0 v] c IH].
  - simpl. destruct (str_eqb k' k); lia.
  - rewrite incr_cons. destruct (str_eqb k k0) eqn:E; simpl.
    + apply str_eqb_eq in E. subst k0. destruct (str_eqb k' k); lia.
    + destruct (str_eqb k' k0) eqn:E'; auto.
      apply str_eqb_eq in E'. subst k0.
      destruct (str_eqb k' k) eqn:E''; [|lia].
      apply str_eqb_eq in E''. subst. rewrite str_eqb_refl in E. discriminate.
Qed.

Lemma getitem_tally ks k : forall c,
  getitem (tally ks c) k = getitem c k + occurrences k ks.
Proof.
  unfold tally. induction ks as [|k0 ks IH]; intros c; simpl.
  - lia.
  - rewrite IH, getitem_incr. lia.
Qed.

Lemma keys_incr c k :
  map fst (incr c k) = if existsb (str_eqb k) (map fst c) then map fst c
                       else map fst c ++ [k].
Proof.
  induction c as [|[k' v] c IH].
  - reflexivity.
  - rewrite incr_cons. simpl. destruct (str_eqb k k') eqn:E; simpl; [reflexivity|].
    rewrite IH. destruct (existsb (str_eqb k) (map fst c)); reflexivity.
Qed.

Lemma existsb_str_eqb k l : existsb (str_eqb k) l = true <-> In k l.
Proof.
  rewrite existsb_exists. split.
  - intros (x & Hx & E). apply str_eqb_eq in E. subst; assumption.
  - intros H. exists k. split; [assumption | apply str_eqb_refl].
Qed.

Lemma keys_incr_in c k x : In x (map fst (incr c k)) <-> In x (map fst c) \/ x = k.
Proof.
  rewrite keys_incr. destruct (existsb (str_eqb k) (map fst c)) eqn:E.
  - apply existsb_str_eqb in E. split; [auto | intros [H| ->]; assumption].
  - rewrite in_app_iff. simpl. intuition.
Qed.

Lemma NoDup_keys_incr c k : NoDup (map fst c) -> NoDup (map fst (incr c k)).
Proof.
  intros H. rewrite keys_incr. destruct (existsb (str_eqb k) (map fst c)) eqn:E; auto.
  assert (~ In k (map fst c)) as Hk.
  { intros Hin. apply existsb_str_eqb in Hin. congruence. }
  apply NoDup_app; auto.
  - repeat constructor. simpl. tauto.
  - intros x Hx [<-|[]]. contradiction.
Qed.

Lemma NoDup_keys_tally ks : forall c, NoDup (map fst c) -> NoDup (map fst (tally ks c)).
Proof.
  unfold tally. induction ks as [|k ks IH]; intros c H; simpl; auto using NoDup_keys_incr.
Qed.

Lemma getitem_entry c k v : NoDup (map fst c) -> In (k, v) c -> getitem c k = v.
Proof.
  induction c as [|[k' v'] c IH]; simpl; [tauto|].
  intros H [E|Hin].
  - injection E as -> ->. rewrite str_eqb_refl. reflexivity.
  - inversion H as [|? ? Hn Hc]; subst.
    destruct (str_eqb k k') eqn:E.
    + apply str_eqb_eq in E. subst k'. exfalso. apply Hn.
      change k with (fst (k, v)). apply in_map. assumption.
    + auto.
Qed.

(** ** Order of first encounter *)

Lemma precedes_head {A} (a b : A) l : In b l -> precedes a b (a :: l).
Proof.
  intros H. apply in_split in H. destruct H as (l2 & l3 & ->).
  exists [], l2, l3. reflexivity.
Qed.

Lemma precedes_cons {A} (a b y : A) l : precedes a b l -> precedes a b (y :: l).
Proof. intros (l1 & l2 & l3 & ->). exists (y :: l1), l2, l3. reflexivity. Qed.

Lemma precedes_cons_inv {A} (a b y : A) l :
  precedes a b (y :: l) -> (y = a /\ In b l) \/ precedes a b l.
Proof.
  intros (l1 & l2 & l3 & E). destruct l1 as [|z l1]; simpl in E.
  - injection E as -> ->. left. split; auto. apply in_or_app. right. left. reflexivity.
  - injection E as -> ->. right. exists l1, l2, l3. reflexivity.
Qed.

Lemma precedes_app_r {A} (a b : A) l l' : precedes a b l -> precedes a b (l ++ l').
Proof.
  intros (l1 & l2 & l3 & ->). exists l1, l2, (l3 ++ l').
  rewrite <- app_assoc. simpl. rewrite <- app_assoc. reflexivity.
Qed.

Lemma precedes_snoc {A} (a b : A) l : In a l -> precedes a b (l ++ [b]).
Proof.
  intros H. apply in_split in H. destruct H as (l1 & l2 & ->).
  exists l1, l2, []. rewrite <- app_assoc. reflexivity.
Qed.

Lemma precedes_in_r {A} (a b : A) l : precedes a b l -> In b l.
Proof. intros (l1 & l2 & l3 & ->). rewrite !in_app_iff. simpl. rewrite in_app_iff. simpl. auto. Qed.

Lemma precedes_in_l {A} (a b : A) l : precedes a b l -> In a l.
Proof. intros (l1 & l2 & l3 & ->). rewrite !in_app_iff. simpl. auto. Qed.

Lemma precedes_keys_incr A B c k :
  precedes A B (map fst c) -> precedes A B (map fst (incr c k)).
Proof.
  intros H. rewrite keys_incr. destruct (existsb _ _); auto using precedes_app_r.
Qed.

Lemma precedes_keys_tally A B ks : forall c,
  precedes A B (map fst c) -> precedes A B (map fst (tally ks c)).
Proof.
  unfold tally. induction ks as [|k ks IH]; intros c H; simpl; auto using precedes_keys_incr.
Qed.

Lemma tally_seen_then_new A B ks : forall c,
  In A (map fst c) -> ~ In B (map fst c) -> In B ks ->
  precedes A B (map fst (tally ks c)).
Proof.
  induction ks as [|k ks IH]; intros c HA HB Hin; [contradiction|].
  change (tally (k :: ks) c) with (tally ks (incr c k)).
  destruct (str_eqb k B) eqn:E.
  - apply str_eqb_eq in E. subst k. apply precedes_keys_tally.
    rewrite keys_incr. destruct (existsb (str_eqb B) (map fst c)) eqn:E.
    + apply existsb_str_eqb in E. contradiction.
    + apply precedes_snoc. assumption.
  - apply str_eqb_neq in E. apply IH.
    + apply keys_incr_in. auto.
    + rewrite keys_incr_in. intros [H| ->]; [contradiction | congruence].
    + destruct Hin as [->|Hin]; [congruence | assumption].
Qed.

Lemma first_index_lt_in k l : (first_index k l < length l)%nat <-> In k l.
Proof.
  induction l as [|x l IH]; simpl.
  - split; [lia | tauto].
  - destruct (str_eqb k x) eqn:E.
    + apply str_eqb_eq in E. subst. split; [auto | lia].
    + apply str_eqb_neq in E. rewrite <- Nat.succ_lt_mono, IH.
      split; [auto | intros [->|H]; [congruence | assumption]].
Qed.

Lemma tally_first_encounter A B ks : forall c,
  ~ In A (map fst c) -> ~ In B (map fst c) ->
  (first_index A ks < first_index B ks)%nat -> In B ks ->
  precedes A B (map fst (tally ks c)).
Proof.
  induction ks as [|k ks IH]; intros c HA HB Hlt Hin; [contradiction|].
  change (tally (k :: ks) c) with (tally ks (incr c k)).
  simpl in Hlt. destruct (str_eqb B k) eqn:EB; [destruct (str_eqb A k); lia|].
  apply str_eqb_neq in EB.
  destruct Hin as [->|Hin]; [congruence|].
  destruct (str_eqb A k) eqn:EA.
  - apply str_eqb_eq in EA. subst k. apply tally_seen_then_new; auto.
    + apply keys_incr_in. auto.
    + rewrite keys_incr_in. intros [H|H]; [contradiction | congruence].
  - apply str_eqb_neq in EA. apply IH; auto.
    + rewrite keys_incr_in. intros [H|H]; [contradiction | congruence].
    + rewrite keys_incr_in. intros [H|H]; [contradiction | congruence].
    + lia.
Qed.

Lemma precedes_map_fst (A B : str) (l : list (str * Z)) :
  precedes A B (map fst l) -> exists va vb, precedes (A, va) (B, vb) l.
Proof.
  intros (l1 & l2 & l3 & E).
  apply map_eq_app in E. destruct E as (m1 & m' & -> & E1 & E).
  apply map_eq_cons in E. destruct E as ([a va] & m'' & -> & Ea & E).
  apply map_eq_app in E. destruct E as (m2 & m3 & -> & E2 & E).
  apply map_eq_cons in E. destruct E as ([b vb] & m4 & -> & Eb & E).
  simpl in Ea, Eb. subst. exists va, vb, m1, m2, m4. reflexivity.
Qed.

(** In the counter of a key sequence, a key encountered first comes first,
    and every entry holds the number of occurrences of its key. *)
Lemma tally_order A B ks :
  (first_index A ks < first_index B ks)%nat -> In B ks ->
  precedes (A, occurrences A ks) (B, occurrences B ks) (tally ks []).
Proof.
  intros Hlt Hin.
  assert (precedes A B (map fst (tally ks []))) as H
    by (apply tally_first_encounter; simpl; auto).
  apply precedes_map_fst in H. destruct H as (va & vb & H).
  assert (NoDup (map fst (tally ks []))) as ND by (apply NoDup_keys_tally; constructor).
  pose proof (getitem_entry _ _ _ ND (precedes_in_l H)) as Ea.
  pose proof (getitem_entry _ _ _ ND (precedes_in_r H)) as Eb.
  rewrite getitem_tally in Ea, Eb. simpl in Ea, Eb. subst. assumption.
Qed.

(** ** The stable sort behind [most_common] *)

Lemma insert_desc_perm x l : Permutation (insert_desc x l) (x :: l).
Proof.
  induction l as [|y l IH]; simpl; [reflexivity|].
  destruct (snd x <? snd y); [|reflexivity].
  rewrite IH. apply perm_swap.
Qed.

Lemma sorted_perm l : Permutation (sorted_by_count_desc l) l.
Proof.
  induction l as [|x l IH]; simpl; [reflexivity|].
  rewrite insert_desc_perm. constructor. assumption.
Qed.

Lemma insert_desc_in x l z : In z (insert_desc x l) <-> z = x \/ In z l.
Proof.
  split; intros H.
  - apply (Permutation_in _ (insert_desc_perm x l)) in H. destruct H; auto.
  - apply (Permutation_in _ (Permutation_sym (insert_desc_perm x l))).
    destruct H; [left | right]; auto.
Qed.

Lemma insert_desc_sorted x l :
  StronglySorted count_ge l -> StronglySorted count_ge (insert_desc x l).
Proof.
  induction 1 as [|y l Hs IH Hy]; simpl.
  - repeat constructor.
  - destruct (snd x <? snd y) eqn:E.
    + apply Z.ltb_lt in E. constructor; auto.
      apply Forall_forall. intros z Hz. apply insert_desc_in in Hz.
      destruct Hz as [->|Hz].
      * unfold count_ge. lia.
      * rewrite Forall_forall in Hy. auto.
    + apply Z.ltb_ge in E. constructor; [constructor; assumption|].
      constructor; [assumption|].
      apply Forall_forall. intros z Hz. rewrite Forall_forall in Hy.
      specialize (Hy z Hz). unfold count_ge in *. lia.
Qed.

Lemma sorted_by_count_desc_sorted l : StronglySorted count_ge (sorted_by_count_desc l).
Proof.
  induction l as [|x l IH]; simpl; [constructor | apply insert_desc_sorted; assumption].
Qed.

Lemma in_firstn {A} (x : A) n l : In x (firstn n l) -> In x l.
Proof.
  intros H. rewrite <- (firstn_skipn n l). apply in_or_app. auto.
Qed.

Lemma firstn_sorted {A} (R : A -> A -> Prop) l :
  StronglySorted R l -> forall n, StronglySorted R (firstn n l).
Proof.
  induction 1 as [|x l Hs IH Hx]; intros [|n]; simpl; try constructor; auto.
  apply Forall_forall. intros z Hz. rewrite Forall_forall in Hx.
  apply Hx. eapply in_firstn; eassumption.
Qed.

Lemma insert_desc_precedes x a b l :
  precedes a b l -> precedes a b (insert_desc x l).
Proof.
  induction l as [|y l IH]; intros H.
  - destruct H as (l1 & l2 & l3 & E). destruct l1; discriminate.
  - simpl. destruct (snd x <? snd y); [|apply precedes_cons; assumption].
    apply precedes_cons_inv in H. destruct H as [[-> Hb]|H].
    + apply precedes_head. apply insert_desc_in. auto.
    + apply precedes_cons. auto.
Qed.

Lemma insert_desc_before x b l :
  In b l -> snd b <= snd x -> precedes x b (insert_desc x l).
Proof.
  induction l as [|y l IH]; intros Hin Hle; [contradiction|].
  simpl. destruct (snd x <? snd y) eqn:E.
  - apply Z.ltb_lt in E. destruct Hin as [->|Hin]; [lia|].
    apply precedes_cons. auto.
  - apply precedes_head. assumption.
Qed.

(** The sort is stable: of two entries, the earlier one stays first unless
    the later one has a larger count. *)
Lemma sorted_stable a b l :
  precedes a b l -> snd b <= snd a -> precedes a b (sorted_by_count_desc l).
Proof.
  induction l as [|y l IH]; intros H Hle.
  - destruct H as (l1 & l2 & l3 & E). destruct l1; discriminate.
  - simpl. apply precedes_cons_inv in H. destruct H as [[-> Hb]|H].
    + apply insert_desc_before; auto.
      apply (Permutation_in _ (Permutation_sym (sorted_perm l))). assumption.
    + apply insert_desc_precedes. auto.
Qed.

Lemma firstn_precedes {A} (a b : A) l n :
  NoDup l -> precedes a b l -> In b (firstn n l) -> precedes a b (firstn n l).
Proof.
  intros ND (l1 & l2 & l3 & ->) Hin.
  assert (l1 ++ a :: l2 ++ b :: l3 = (l1 ++ a :: l2) ++ b :: l3) as E
    by (rewrite <- app_assoc; reflexivity).
  rewrite E in *. set (L := l1 ++ a :: l2) in *.
  rewrite firstn_app in *.
  destruct (le_lt_dec n (length L)) as [Hn|Hn].
  - exfalso. replace (n - length L)%nat with O in Hin by lia.
    simpl in Hin. rewrite app_nil_r in Hin. apply in_firstn in Hin.
    apply NoDup_remove_2 in ND. apply ND. rewrite in_app_iff. auto.
  - rewrite firstn_all2 by lia.
    destruct (n - length L)%nat as [|k] eqn:Ek; [lia|]. simpl.
    exists l1, l2, (firstn k l3). subst L. rewrite <- app_assoc. reflexivity.
Qed.

(** Ranking of a key sequence: descending counts, ties in order of first
    encounter. *)
Lemma most_common_sorted n c : StronglySorted count_ge (most_common n c).
Proof. apply firstn_sorted, sorted_by_count_desc_sorted. Qed.

Lemma most_common_stable n ks A B :
  (first_index A ks < first_index B ks)%nat ->
  occurrences A ks = occurrences B ks ->
  In (B, occurrences B ks) (most_common n (tally ks [])) ->
  precedes (A, occurrences A ks) (B, occurrences B ks) (most_common n (tally ks [])).
Proof.
  intros Hlt Heq Hin. unfold most_common in *.
  assert (In B ks) as HB.
  { apply in_firstn in Hin.
    apply (Permutation_in _ (sorted_perm _)) in Hin.
    assert (0 < occurrences B ks) as Hpos.
    { pose proof (positive_tally ks (c := []) (Forall_nil _)) as P.
      rewrite Forall_forall in P. specialize (P _ Hin). simpl in P. lia. }
    clear - Hpos. induction ks as [|k ks IH]; simpl in *; [lia|].
    destruct (str_eqb B k) eqn:E; [apply str_eqb_eq in E; auto | right; apply IH; lia]. }
  apply firstn_precedes; auto.
  - apply (Permutation_NoDup (Permutation_sym (sorted_perm _))).
    apply (NoDup_map_inv fst). apply NoDup_keys_tally. constructor.
  - apply sorted_stable; [apply tally_order; assumption | simpl; lia].
Qed.

(** ** The report of [analyze_plc_debug] *)

Lemma print_ranking_eq l : Analyzer.print_ranking l = (map render_entry l, inr tt).
Proof.
  unfold Analyzer.print_ranking. induction l as [|[k v] l IH]; [reflexivity|].
  cbn [for_each]. rewrite IH. reflexivity.
Qed.

Lemma item_0 {A} (x : A) l : item (x :: l) 0 = inr x.
Proof. reflexivity. Qed.

Lemma nth_error_last {A} (l : list A) d :
  l <> [] -> nth_error l (length l - 1) = Some (last l d).
Proof.
  induction l as [|x l IH]; [congruence|]. intros _.
  destruct l as [|y l]; [reflexivity|].
  specialize (IH ltac:(discriminate)). simpl in *.
  rewrite Nat.sub_0_r in *. assumption.
Qed.

Lemma item_last {A} (l : list A) d : l <> [] -> item l (-1) = inr (last l d).
Proof.
  intros H. unfold item, len.
  assert (0 < length l)%nat by (destruct l; [congruence | simpl; lia]).
  replace (-1 <? 0) with true by reflexivity.
  destruct (-1 + Z.of_nat (length l) <? 0) eqn:E; [apply Z.ltb_lt in E; lia|].
  replace (Z.to_nat (-1 + Z.of_nat (length l))) with (length l - 1)%nat by lia.
  rewrite (nth_error_last d H). reflexivity.
Qed.

Lemma try_duration (ts : list str) (first last : str) :
  item ts 0 = inr first -> item ts (-1) = inr last ->
  try_except_all
    (first <- lift (item ts 0) ;;
     start <- lift (Datetime.strptime_Ymd_HMS (firstn 19 first)) ;;
     last <- lift (item ts (-1)) ;;
     end_ <- lift (Datetime.strptime_Ymd_HMS (firstn 19 last)) ;;
     duration <- lift (Datetime.sub end_ start) ;;
     print ("Duration: " ++ Datetime.str_of_timedelta duration))
    (ret tt)
  = (duration_lines first last, inr tt).
Proof.
  intros H0 H1. unfold duration_lines.
  rewrite H0, lift_inr, bind_ret_l.
  destruct (Datetime.strptime_Ymd_HMS (firstn 19 first)) as [e1|start]; [reflexivity|].
  rewrite lift_inr, bind_ret_l, H1, lift_inr, bind_ret_l.
  destruct (Datetime.strptime_Ymd_HMS (firstn 19 last)) as [e2|end_]; [reflexivity|].
  rewrite lift_inr, bind_ret_l.
  destruct (Datetime.sub end_ start) as [e3|d]; reflexivity.
Qed.

Lemma analyze_plc_debug_report lines :
  Analyzer.analyze_plc_debug lines = (report lines, inr tt).
Proof.
  unfold Analyzer.analyze_plc_debug, report.
  rewrite scan_records, bind_print, bind_print, bind_ret_l.
  cbn [Analyzer.timestamps Analyzer.devices Analyzer.signals].
  rewrite !print_ranking_eq.
  destruct (timestamp_seq lines) as [|first rest] eqn:E.
  - reflexivity.
  - assert (item (first :: rest) (-1) = inr (last (first :: rest) [])) as Hl
      by (apply item_last; discriminate).
    rewrite (@try_duration _ _ _ (item_0 first rest) Hl), item_0, Hl.
    reflexivity.
Qed.

(** ** Dates *)

Lemma month_cases m : 1 <= m <= 12 ->
  m = 1 \/ m = 2 \/ m = 3 \/ m = 4 \/ m = 5 \/ m = 6 \/ m = 7 \/ m = 8 \/ m = 9
  \/ m = 10 \/ m = 11 \/ m = 12.
Proof. lia. Qed.

Lemma days_in_month_le y m : 1 <= m <= 12 -> Datetime.days_in_month y m <= 31.
Proof.
  intros H. unfold Datetime.days_in_month.
  destruct ((m =? 2) && Datetime.is_leap y); [lia|].
  destruct (month_cases H) as [->|[->|[->|[->|[->|[->|[->|[->|[->|[->|[->| ->]]]]]]]]]]];
    vm_compute; discriminate.
Qed.

Lemma days_before_month_bounds y m :
  1 <= m <= 12 -> 0 <= Datetime.days_before_month y m <= 335.
Proof.
  intros H. unfold Datetime.days_before_month, Datetime.b2z.
  destruct (month_cases H) as [->|[->|[->|[->|[->|[->|[->|[->|[->|[->|[->| ->]]]]]]]]]]];
    destruct (Datetime.is_leap y); vm_compute; split; discriminate.
Qed.

Lemma days_before_year_bounds y :
  1 <= y <= 9999 -> 0 <= Datetime.days_before_year y <= 3651694.
Proof.
  intros H. unfold Datetime.days_before_year.
  Z.div_mod_to_equations. lia.
Qed.

Lemma new_datetime_valid y m d H Mi Sec us t :
  Datetime.new_datetime y m d H Mi Sec us = inr t ->
  valid_datetime t
  /\ t = {| Datetime.year := y; Datetime.month := m; Datetime.day := d;
            Datetime.hour := H; Datetime.minute := Mi; Datetime.second := Sec;
            Datetime.microsecond := us |}.
Proof.
  unfold Datetime.new_datetime.
  repeat match goal with
    | |- context [negb ((?a <=? ?b) && (?c <=? ?e))] =>
        let E1 := fresh "E" in let E2 := fresh "E" in
        destruct (a <=? b) eqn:E1; [apply Z.leb_le in E1 | discriminate];
        destruct (c <=? e) eqn:E2; [apply Z.leb_le in E2 | discriminate];
        cbn [andb negb]
    end.
  intros Ht; injection Ht as <-. split; [|reflexivity].
  unfold valid_datetime; cbn.
  assert (Datetime.days_in_month y m <= 31) by (apply days_in_month_le; lia).
  lia.
Qed.

Lemma strptime_valid s t : Datetime.strptime_Ymd_HMS s = inr t -> valid_datetime t.
Proof.
  unfold Datetime.strptime_Ymd_HMS.
  destruct (re_match Datetime.strptime_re s) as [m|]; [|discriminate].
  destruct (m_rest m); [|discriminate].
  destruct (groups 6 m) as [|[gY|] [|[gm|] [|[gd|] [|[gH|] [|[gM|] [|[gS|] [|? ?]]]]]]];
    try discriminate.
  intros H. apply new_datetime_valid in H. tauto.
Qed.

Lemma toordinal_bounds t : valid_datetime t -> 1 <= Datetime.toordinal t <= 3652060.
Proof.
  intros (Hy & Hm & Hd & _). unfold Datetime.toordinal, Datetime.ymd2ord.
  pose proof (days_before_year_bounds Hy).
  pose proof (days_before_month_bounds (Datetime.year t) Hm).
  lia.
Qed.

(** The difference of two valid [datetime] values is within the range of
    [timedelta]. *)
Lemma sub_ok a b : valid_datetime a -> valid_datetime b ->
  exists d, Datetime.sub a b = inr d.
Proof.
  intros Ha Hb. pose proof (toordinal_bounds Ha). pose proof (toordinal_bounds Hb).
  destruct Ha as (_ & _ & _ & ? & ? & ? & ?). destruct Hb as (_ & _ & _ & ? & ? & ? & ?).
  unfold Datetime.sub, Datetime.new_timedelta.
  match goal with |- context [999999999 <? ?x] => destruct (999999999 <? x) eqn:E end;
    [|eauto].
  exfalso. apply Z.ltb_lt in E. revert E.
  Z.div_mod_to_equations. lia.
Qed.

Lemma duration_lines_parse first last :
  both_parse first last ->
  exists d, duration_lines first last = ["Duration: " ++ Datetime.str_of_timedelta d].
Proof.
  intros (start & end_ & Hs & He). unfold duration_lines. rewrite Hs, He.
  destruct (sub_ok (strptime_valid _ He) (strptime_valid _ Hs)) as [d ->]. eauto.
Qed.

Lemma duration_lines_fail first last :
  ~ both_parse first last -> duration_lines first last = [].
Proof.
  intros H. unfold duration_lines.
  destruct (Datetime.strptime_Ymd_HMS (firstn 19 first)) as [|start] eqn:Hs; [reflexivity|].
  destruct (Datetime.strptime_Ymd_HMS (firstn 19 last)) as [|end_] eqn:He; [reflexivity|].
  exfalso. apply H. exists start, end_. auto.
Qed.

(** ** Decimal digits *)

Lemma digit_char_decimal d : isdecimal (digit_char d) = true.
Proof.
  unfold digit_char.
  assert (0 <= d mod 10 < 10) as H by (apply Z.mod_pos_bound; lia).
  assert (d mod 10 = 0 \/ d mod 10 = 1 \/ d mod 10 = 2 \/ d mod 10 = 3 \/ d mod 10 = 4
          \/ d mod 10 = 5 \/ d mod 10 = 6 \/ d mod 10 = 7 \/ d mod 10 = 8 \/ d mod 10 = 9)
    as C by lia.
  destruct C as [->|[->|[->|[->|[->|[->|[->|[->|[->| ->]]]]]]]]]; reflexivity.
Qed.

Lemma digit_char_value d : Z.of_N (ord (digit_char d)) - 48 = d mod 10.
Proof.
  unfold digit_char.
  assert (0 <= d mod 10 < 10) as H by (apply Z.mod_pos_bound; lia).
  assert (d mod 10 = 0 \/ d mod 10 = 1 \/ d mod 10 = 2 \/ d mod 10 = 3 \/ d mod 10 = 4
          \/ d mod 10 = 5 \/ d mod 10 = 6 \/ d mod 10 = 7 \/ d mod 10 = 8 \/ d mod 10 = 9)
    as C by lia.
  destruct C as [E|[E|[E|[E|[E|[E|[E|[E|[E|E]]]]]]]]]; rewrite E; reflexivity.
Qed.

(** The digits produced are decimal, there are at most [k] of them for a
    number below [10^k], and they are put in front of the accumulator. *)
Lemma digits_from_spec fuel : forall n acc k,
  0 <= n < 10 ^ Z.of_nat k -> (1 <= k)%nat ->
  exists ds, digits_from fuel n acc = ds ++ acc
             /\ forallb isdecimal ds = true /\ (length ds <= k)%nat.
Proof.
  induction fuel as [|fuel IH]; intros n acc k Hn Hk; simpl.
  - exists []. simpl. split; [reflexivity | split; [reflexivity | lia]].
  - destruct (n / 10 =? 0) eqn:E.
    + exists [digit_char n]. simpl. rewrite digit_char_decimal.
      split; [reflexivity | split; [reflexivity | lia]].
    + apply Z.eqb_neq in E.
      assert (2 <= k)%nat as Hk2.
      { destruct k as [|[|k]]; try lia. exfalso. apply E.
        apply Z.div_small. simpl in Hn. lia. }
      destruct (IH (n / 10) (digit_char n :: acc) (k - 1)%nat) as (ds & -> & Hd & Hl).
      * replace (Z.of_nat k) with (Z.succ (Z.of_nat (k - 1))) in Hn by lia.
        rewrite Z.pow_succ_r in Hn by lia.
        split; [apply Z.div_pos; lia | apply Z.div_lt_upper_bound; lia].
      * lia.
      * exists (ds ++ [digit_char n]). rewrite <- app_assoc. simpl.
        rewrite forallb_app, Hd. simpl. rewrite digit_char_decimal, length_app. simpl.
        split; [reflexivity | split; [reflexivity | lia]].
Qed.

Lemma digits_decimal n k :
  0 <= n < 10 ^ Z.of_nat k -> (1 <= k)%nat ->
  forallb isdecimal (digits n) = true /\ (length (digits n) <= k)%nat.
Proof.
  intros Hn Hk. unfold digits.
  destruct (digits_from_spec (S (Z.to_nat (Z.log2 n))) [] Hn Hk) as (ds & -> & Hd & Hl).
  rewrite app_nil_r. auto.
Qed.

Lemma repeat_zero_decimal n : forallb isdecimal (repeat_str "0" n) = true.
Proof. induction n; simpl; auto. Qed.

Lemma repeat_str_length1 (c : ascii) n : length (repeat_str [c] n) = n.
Proof. induction n; simpl; auto. Qed.

(** Zero padding to [w] places of a number below [10^w] gives [w] digits. *)
Lemma zero_pad_digits w n :
  0 <= n < 10 ^ Z.of_nat w -> (1 <= w)%nat -> digits_n w (zero_pad w n).
Proof.
  intros Hn Hw. destruct (digits_decimal Hn Hw) as [Hd Hl].
  unfold digits_n, zero_pad. rewrite length_app, forallb_app, repeat_str_length1.
  rewrite repeat_zero_decimal, Hd. split; [lia | reflexivity].
Qed.

Lemma digits_all_decimal n : 0 <= n -> forallb isdecimal (digits n) = true.
Proof.
  intros Hn.
  assert (n < 10 ^ Z.of_nat (S (Z.to_nat n))) as H.
  { rewrite Nat2Z.inj_succ, Z2Nat.id by lia.
    pose proof (Z.pow_gt_lin_r 10 (Z.succ n) ltac:(lia) ltac:(lia)). lia. }
  apply (digits_decimal (k := S (Z.to_nat n))); [lia | lia].
Qed.

Lemma int_of_digits_snoc s c :
  int_of_digits (s ++ [c]) = int_of_digits s * 10 + (Z.of_N (ord c) - 48).
Proof. unfold int_of_digits. rewrite fold_left_app. reflexivity. Qed.

(** The digits of a number read back as that number: the fuel of [digits]
    is enough. *)
Lemma digits_from_value fuel : forall n,
  0 <= n < 2 ^ Z.of_nat fuel -> (1 <= fuel)%nat ->
  forall acc, exists ds, digits_from fuel n acc = ds ++ acc /\ int_of_digits ds = n.
Proof.
  induction fuel as [|fuel IH]; intros n Hn Hf acc; [lia|]. simpl.
  destruct (n / 10 =? 0) eqn:E.
  - apply Z.eqb_eq in E. exists [digit_char n]. split; [reflexivity|].
    unfold int_of_digits. simpl. rewrite digit_char_value.
    pose proof (Z.div_mod n 10 ltac:(lia)). lia.
  - apply Z.eqb_neq in E.
    rewrite Nat2Z.inj_succ, Z.pow_succ_r in Hn by lia.
    assert (0 <= n / 10 < 2 ^ Z.of_nat fuel) as Hq.
    { split; [apply Z.div_pos; lia|]. apply Z.div_lt_upper_bound; lia. }
    assert (1 <= fuel)%nat as Hf'.
    { destruct fuel; [|lia]. simpl in Hq. lia. }
    destruct (IH (n / 10) Hq Hf' (digit_char n :: acc)) as (ds & -> & Hv).
    exists (ds ++ [digit_char n]). rewrite <- app_assoc. split; [reflexivity|].
    rewrite int_of_digits_snoc, Hv, digit_char_value.
    pose proof (Z.div_mod n 10 ltac:(lia)). lia.
Qed.

Lemma int_of_digits_digits n : 0 <= n -> int_of_digits (digits n) = n.
Proof.
  intros Hn. unfold digits.
  destruct (digits_from_value (fuel := S (Z.to_nat (Z.log2 n))) (n := n)) with (acc := @nil ascii)
    as (ds & -> & Hv).
  - split; [assumption|]. rewrite Nat2Z.inj_succ.
    destruct (Z.eq_dec n 0) as [->|Hz]; [simpl; lia|].
    rewrite Z2Nat.id by (apply Z.log2_nonneg).
    apply Z.log2_spec. lia.
  - lia.
  - rewrite app_nil_r. assumption.
Qed.

(** ** The lines of the generator *)

Lemma decimal_no_break c : isdecimal c = true -> no_break c = true.
Proof. destruct c as [[] [] [] [] [] [] [] []]; vm_compute; congruence. Qed.

Lemma forallb_impl {A} (p q : A -> bool) l :
  (forall x, p x = true -> q x = true) -> forallb p l = true -> forallb q l = true.
Proof.
  intros H. induction l as [|x l IH]; simpl; auto.
  rewrite !andb_true_iff. intros [Hx Hl]. auto.
Qed.

Lemma forallb_firstn {A} (p : A -> bool) n l :
  forallb p l = true -> forallb p (firstn n l) = true.
Proof.
  revert l; induction n as [|n IH]; intros [|x l]; simpl; auto.
  rewrite !andb_true_iff. intros [Hx Hl]. auto.
Qed.

Lemma safe_app a b : safe a -> safe b -> safe (a ++ b).
Proof. unfold safe. intros Ha Hb. rewrite forallb_app, Ha, Hb. reflexivity. Qed.

Lemma safe_digits_n n w : digits_n n w -> safe w.
Proof. intros [_ H]. eapply forallb_impl; [apply decimal_no_break | exact H]. Qed.

Lemma safe_str_of_Z n : safe (str_of_Z n).
Proof.
  unfold str_of_Z. destruct (n <? 0) eqn:E.
  - apply Z.ltb_lt in E. apply safe_app; [reflexivity|].
    eapply forallb_impl; [apply decimal_no_break | apply digits_all_decimal; lia].
  - apply Z.ltb_ge in E.
    eapply forallb_impl; [apply decimal_no_break | apply digits_all_decimal; lia].
Qed.

Lemma choice_Forall {A} (P : A -> Prop) l d draw :
  Forall P l -> P d -> P (Generator.choice l d draw).
Proof.
  intros Hl Hd. unfold Generator.choice.
  destruct (nth_in_or_default (draw mod length l)%nat l d) as [H|H].
  - rewrite Forall_forall in Hl. auto.
  - rewrite H. assumption.
Qed.

Lemma safe_devices draw : safe (Generator.choice Generator.devices "" draw).
Proof. apply choice_Forall; [repeat constructor | reflexivity]. Qed.

Lemma safe_signal draw d3 :
  let '(name, type, f) := Generator.choice Generator.signals ("", "", Generator.Choice []) draw in
  safe name /\ safe type /\ safe (Generator.call f d3).
Proof.
  apply (choice_Forall
           (P := fun e : str * str * Generator.val_func =>
                   let '(name, type, f) := e in
                   safe name /\ safe type /\ safe (Generator.call f d3))).
  - repeat constructor; try reflexivity; simpl Generator.call;
      try apply safe_str_of_Z;
      (apply choice_Forall; [repeat constructor | reflexivity]).
  - repeat split. simpl. apply choice_Forall; [constructor | reflexivity].
Qed.

Lemma drop_last3_app_l (a r : str) :
  (3 <= length r)%nat -> Generator.drop_last3 (a ++ r) = a ++ Generator.drop_last3 r.
Proof.
  intros H. unfold Generator.drop_last3. rewrite length_app.
  replace (length a + length r - 3)%nat with (length a + (length r - 3))%nat by lia.
  apply firstn_app_2.
Qed.

Lemma add_valid t delta t' : Datetime.add t delta = inr t' -> valid_datetime t'.
Proof.
  unfold Datetime.add.
  destruct (Datetime.new_timedelta _ _ _) as [|d]; [discriminate|].
  destruct ((0 <? Datetime.days d) && (Datetime.days d <=? Datetime.MAXORDINAL));
    [|discriminate].
  destruct (Datetime.ord2ymd (Datetime.days d)) as [[y m] dd].
  intros H. apply new_datetime_valid in H. tauto.
Qed.

(** The timestamp of a line: the 23 characters YYYY-MM-DD HH:MM:SS.mmm. *)
Lemma timestamp_shape t : valid_datetime t ->
  exists Y Mo D H Mi S F,
    Generator.drop_last3 (Datetime.strftime_Ymd_HMS_f t)
    = Y ++ "-" ++ Mo ++ "-" ++ D ++ " " ++ H ++ ":" ++ Mi ++ ":" ++ S ++ "." ++ F
    /\ digits_n 4 Y /\ digits_n 2 Mo /\ digits_n 2 D /\ digits_n 2 H
    /\ digits_n 2 Mi /\ digits_n 2 S /\ digits_n 3 F.
Proof.
  intros (Hy & Hm & Hd & HH & HM & HS & Hu). unfold Datetime.strftime_Ymd_HMS_f.
  assert (digits_n 4 (zero_pad 4 (Datetime.year t))) as DY
    by (apply zero_pad_digits; [simpl; lia | lia]).
  assert (digits_n 2 (zero_pad 2 (Datetime.month t))) as DMo
    by (apply zero_pad_digits; [simpl; lia | lia]).
  assert (digits_n 2 (zero_pad 2 (Datetime.day t))) as DD
    by (apply zero_pad_digits; [simpl; lia | lia]).
  assert (digits_n 2 (zero_pad 2 (Datetime.hour t))) as DH
    by (apply zero_pad_digits; [simpl; lia | lia]).
  assert (digits_n 2 (zero_pad 2 (Datetime.minute t))) as DMi
    by (apply zero_pad_digits; [simpl; lia | lia]).
  assert (digits_n 2 (zero_pad 2 (Datetime.second t))) as DS
    by (apply zero_pad_digits; [simpl; lia | lia]).
  assert (digits_n 6 (zero_pad 6 (Datetime.microsecond t))) as DF
    by (apply zero_pad_digits; [simpl; lia | lia]).
  exists (zero_pad 4 (Datetime.year t)), (zero_pad 2 (Datetime.month t)),
    (zero_pad 2 (Datetime.day t)), (zero_pad 2 (Datetime.hour t)),
    (zero_pad 2 (Datetime.minute t)), (zero_pad 2 (Datetime.second t)),
    (firstn 3 (zero_pad 6 (Datetime.microsecond t))).
  destruct DF as [LF PF].
  split; [|repeat (split; [assumption|]); split].
  - repeat (rewrite drop_last3_app_l by (rewrite ?length_app, LF; simpl; lia)).
    unfold Generator.drop_last3. rewrite LF. reflexivity.
  - rewrite length_firstn, LF. reflexivity.
  - apply forallb_firstn. assumption.
Qed.

Lemma make_line_shape n d1 d2 d3 line :
  Generator.make_line n d1 d2 d3 = inr line -> generator_line line.
Proof.
  unfold Generator.make_line. pose proof (safe_signal d2 d3) as Hs.
  destruct (Generator.choice Generator.signals _ d2) as [[name type] f].
  destruct Hs as (Hname & Htype & Hval).
  destruct (Datetime.new_timedelta 0 0 (n * 10 * 1000)) as [|elapsed]; [discriminate|].
  destruct (Datetime.add Generator.start_time elapsed) as [|t] eqn:Ea; [discriminate|].
  intros E; injection E as <-.
  destruct (timestamp_shape (add_valid _ _ Ea))
    as (Y & Mo & D & H & Mi & S & F & -> & HY & HMo & HD & HH & HMi & HS & HF).
  exists Y, Mo, D, H, Mi, S, F, (Generator.choice Generator.devices "" d1), name, type,
    (Generator.call f d3).
  split; [|pose proof (safe_devices d1); tauto].
  repeat rewrite <- app_assoc. reflexivity.
Qed.

Lemma generator_line_terminated line : generator_line line -> terminated_line line.
Proof.
  intros (Y & Mo & D & H & Mi & S & F & device & signal & type & val & -> &
          HY & HMo & HD & HH & HMi & HS & HF & Hdev & Hsig & Htype & Hval).
  exists (Y ++ "-" ++ Mo ++ "-" ++ D ++ " " ++ H ++ ":" ++ Mi ++ ":" ++ S
          ++ "." ++ F ++ " [Info] [" ++ device ++ "] [" ++ signal
          ++ "] (" ++ type ++ ") : " ++ val).
  split; [repeat rewrite <- app_assoc; reflexivity|].
  repeat first [ assumption
               | apply safe_app
               | eapply safe_digits_n; eassumption
               | reflexivity ].
Qed.

Lemma generator_line_starts line : generator_line line -> starts_with_datetime line.
Proof.
  intros (Y & Mo & D & H & Mi & S & F & device & signal & type & val & -> &
          HY & HMo & HD & HH & HMi & HS & HF & _).
  exists (Y ++ "-" ++ Mo ++ "-" ++ D ++ " " ++ H ++ ":" ++ Mi ++ ":" ++ S),
    ("." ++ F ++ " [Info] [" ++ device ++ "] [" ++ signal
     ++ "] (" ++ type ++ ") : " ++ val ++ [NL]).
  split; [repeat rewrite <- app_assoc; reflexivity|].
  exists Y, Mo, D, " ", H, Mi, S.
  repeat (split; [first [reflexivity | assumption
                        | split; [discriminate | reflexivity]]|]).
  assumption.
Qed.

Lemma terminated_line_len line : terminated_line line -> 1 <= len line.
Proof. intros (body & -> & _). unfold len. rewrite length_app. simpl. lia. Qed.

(** ** The loop of the generator *)

Section GeneratorLoop.
Variable draws : Generator.Rand.
Variable target : Z.

Lemma loop_written fuel : forall st st' r,
  Generator.loop fuel draws target st = Some (st', r) ->
  Forall generator_line (Generator.written st) ->
  Forall generator_line (Generator.written st').
Proof.
  induction fuel as [|fuel IH]; intros st st' r; simpl; [discriminate|].
  destruct (Generator.current_size st <? target).
  - destruct (Generator.make_line _ _ _ _) as [e|line] eqn:E.
    + intros H; injection H as <- <-. auto.
    + intros H Hw. apply IH in H; auto. simpl.
      apply Forall_app. split; [assumption|].
      constructor; [|constructor]. eapply make_line_shape; eassumption.
  - intros H; injection H as <- <-. auto.
Qed.

Lemma loop_total fuel : forall st,
  Z.max 0 (target - Generator.current_size st) < Z.of_nat fuel ->
  Generator.loop fuel draws target st <> None.
Proof.
  induction fuel as [|fuel IH]; intros st Hf; simpl; [lia|].
  destruct (Generator.current_size st <? target) eqn:Ec; [|discriminate].
  apply Z.ltb_lt in Ec.
  destruct (Generator.make_line _ _ _ _) as [e|line] eqn:E; [discriminate|].
  apply IH. simpl.
  pose proof (terminated_line_len (generator_line_terminated (make_line_shape _ _ _ _ E))).
  lia.
Qed.

(** A normal end of the loop means that the target size is reached. *)
Lemma loop_done fuel : forall st st',
  Generator.loop fuel draws target st = Some (st', inr tt) ->
  target <= Generator.current_size st'.
Proof.
  induction fuel as [|fuel IH]; intros st st'; simpl; [discriminate|].
  destruct (Generator.current_size st <? target) eqn:Ec.
  - destruct (Generator.make_line _ _ _ _) as [e|line]; [discriminate|]. apply IH.
  - intros H; injection H as <-. apply Z.ltb_ge in Ec. assumption.
Qed.
End GeneratorLoop.

(** ** Reading the lines back *)

Lemma universal_newlines_id s :
  forallb (fun c => negb (Ascii.eqb c CR)) s = true -> Analyzer.universal_newlines s = s.
Proof.
  induction s as [|c s IH]; simpl; [reflexivity|].
  rewrite andb_true_iff. intros [Hc Hs].
  destruct (Ascii.eqb c CR); [discriminate|]. rewrite IH; auto.
Qed.

Lemma split_keepends_line body rest :
  forallb (fun c => negb (Ascii.eqb c NL)) body = true ->
  Analyzer.split_keepends (body ++ NL :: rest)
  = (body ++ [NL]) :: Analyzer.split_keepends rest.
Proof.
  induction body as [|c body IH]; simpl.
  - reflexivity.
  - rewrite andb_true_iff. intros [Hc Hb].
    destruct (Ascii.eqb c NL); [discriminate|]. rewrite IH; auto.
Qed.

Lemma no_break_split c : no_break c = true ->
  negb (Ascii.eqb c NL) = true /\ negb (Ascii.eqb c CR) = true.
Proof.
  unfold no_break. rewrite negb_orb, andb_true_iff. auto.
Qed.

Lemma split_keepends_concat lines :
  Forall terminated_line lines -> Analyzer.split_keepends (concat lines) = lines.
Proof.
  induction 1 as [|line lines (body & -> & Hb) _ IH]; simpl; [reflexivity|].
  rewrite <- app_assoc. simpl. rewrite split_keepends_line, IH; [reflexivity|].
  eapply forallb_impl; [|exact Hb]. intros c Hc. apply no_break_split in Hc. tauto.
Qed.

Lemma concat_no_cr lines :
  Forall terminated_line lines ->
  forallb (fun c => negb (Ascii.eqb c CR)) (concat lines) = true.
Proof.
  induction 1 as [|line lines (body & -> & Hb) _ IH]; simpl; [reflexivity|].
  rewrite !forallb_app, IH. simpl. rewrite andb_true_r, andb_true_iff. split; [|reflexivity].
  eapply forallb_impl; [|exact Hb]. intros c Hc. apply no_break_split in Hc. tauto.
Qed.

(** Lines that end in LF and hold no other line break are read back as
    they were written. *)
Lemma readlines_concat lines :
  Forall terminated_line lines -> Analyzer.readlines (concat lines) = lines.
Proof.
  intros H. unfold Analyzer.readlines.
  rewrite universal_newlines_id by (apply concat_no_cr; assumption).
  apply split_keepends_concat. assumption.
Qed.

(** ** Detection *)

Lemma join_head sep x l : exists tail, join sep (x :: l) = x ++ tail.
Proof.
  destruct l as [|y l]; simpl.
  - exists []. rewrite app_nil_r. reflexivity.
  - eauto.
Qed.

Lemma sample_head line rest :
  exists tail, join [NL] (firstn 10 (line :: rest)) = line ++ tail.
Proof. simpl firstn. apply join_head. Qed.

Lemma detect_plc_debug_iff line rest :
  Analyzer.detect_format (line :: rest) = "plc_debug"
  <-> has_part datetime_shape (join [NL] (firstn 10 (line :: rest))).
Proof.
  rewrite <- Contains_datetime, <- re_search_iff.
  unfold Analyzer.detect_format.
  destruct (truthy (re_search Analyzer.datetime_re _)); [tauto|].
  split; [|discriminate].
  destruct (has_char TAB line && _); [discriminate|].
  destruct (has_char "," line && _); [discriminate|].
  destruct (truthy _ && _); discriminate.
Qed.

Lemma detect_starts_with_datetime line rest :
  starts_with_datetime line -> Analyzer.detect_format (line :: rest) = "plc_debug".
Proof.
  intros (ts & tl & -> & Hts). apply detect_plc_debug_iff.
  destruct (sample_head (ts ++ tl) rest) as [tail ->].
  exists [], ts, (tl ++ tail). rewrite <- app_assoc. auto.
Qed.

Lemma has_char_iff c s : has_char c s = true <-> In c s.
Proof.
  unfold has_char. rewrite existsb_exists. split.
  - intros (x & Hx & E). apply Ascii.eqb_eq in E. subst; assumption.
  - intros H. exists c. split; [assumption | apply Ascii.eqb_refl].
Qed.

Lemma cp_startswith_iff p s : cp_startswith p s = true <-> exists post, s = p ++ post.
Proof.
  revert s; induction p as [|x p IH]; intros s; simpl.
  - split; eauto.
  - destruct s as [|y s].
    + split; [discriminate | intros [post H]; discriminate].
    + rewrite andb_true_iff, N.eqb_eq, IH. split.
      * intros [-> [post ->]]. eauto.
      * intros [post E]. injection E as -> ->. eauto.
Qed.

Lemma cp_contains_iff p s :
  cp_contains p s = true <-> exists pre post, s = pre ++ p ++ post.
Proof.
  induction s as [|y s IH]; simpl; rewrite orb_true_iff, cp_startswith_iff.
  - split.
    + intros [[post H]|H]; [|discriminate]. exists [], post. assumption.
    + intros (pre & post & H). left. destruct pre; [eauto | discriminate].
  - rewrite IH. split.
    + intros [[post H]|(pre & post & ->)]; [exists [], post; assumption|].
      exists (y :: pre), post. reflexivity.
    + intros (pre & post & H). destruct pre as [|z pre]; simpl in H.
      * left. eauto.
      * injection H as -> ->. right. eauto.
Qed.

Lemma bracket_re_shape w : lang Analyzer.bracket_re w <-> bracket_shape w.
Proof.
  unfold Analyzer.bracket_re, bracket_shape. cbn [Cat]. split.
  - intros H. lang_inv. eauto.
  - intros (inner & -> & H). lang_build.
Qed.

Lemma Contains_bracket s : Contains Analyzer.bracket_re s <-> has_part bracket_shape s.
Proof.
  unfold Contains, has_part. split; intros (pre & w & post & E & H);
    exists pre, w, post; split; auto; apply bracket_re_shape; assumption.
Qed.

(** The tests of [detect_format] decide the rules of its contract. *)
Lemma plc_test lines :
  truthy (re_search Analyzer.datetime_re (join [NL] (firstn 10 lines))) = true
  <-> plc_rule lines.
Proof. rewrite re_search_iff, Contains_datetime. reflexivity. Qed.

Lemma tab_test line0 :
  has_char TAB line0 && (3 <? len (split TAB line0)) = true <-> tab_rule line0.
Proof. unfold tab_rule. rewrite andb_true_iff, has_char_iff, Z.ltb_lt. reflexivity. Qed.

Lemma csv_test line0 :
  has_char "," line0 && (3 <? len (split "," line0)) = true <-> csv_rule line0.
Proof. unfold csv_rule. rewrite andb_true_iff, has_char_iff, Z.ltb_lt. reflexivity. Qed.

Lemma amhs_test lines :
  truthy (re_search Analyzer.bracket_re (join [NL] (firstn 10 lines)))
  && cp_contains (code_points "AMHS") (upper (join [NL] (firstn 10 lines))) = true
  <-> amhs_rule lines.
Proof.
  unfold amhs_rule, sample_of.
  rewrite andb_true_iff, re_search_iff, Contains_bracket, cp_contains_iff. reflexivity.
Qed.

Lemma bool_decide_iff (b : bool) (P : Prop) : (b = true <-> P) -> (b = false <-> ~ P).
Proof.
  intros [H1 H2]. destruct b; split; intros H; try reflexivity; try discriminate.
  - exfalso. auto.
  - intros HP. specialize (H2 HP). discriminate.
Qed.

(** ** C1 *)

(** C1.  [detect_format] returns, for every list of lines, one of the six
    tags (which are pairwise distinct), and the rules are applied in the
    order: empty, plc_debug, tab_separated, csv, mcs_amhs, unknown.  In
    particular an input whose sample has the date-time shape and whose
    first line has a comma and more than 3 comma-separated fields is
    plc_debug. *)
Theorem detect_format_priority (lines : list str) :
  In (Analyzer.detect_format lines) format_tags
  /\ NoDup format_tags
  /\ (lines = [] -> Analyzer.detect_format lines = "empty")
  /\ (lines <> [] -> plc_rule lines -> Analyzer.detect_format lines = "plc_debug")
  /\ (forall line0 rest, lines = line0 :: rest ->
        (~ plc_rule lines -> tab_rule line0 ->
         Analyzer.detect_format lines = "tab_separated")
        /\ (~ plc_rule lines -> ~ tab_rule line0 -> csv_rule line0 ->
            Analyzer.detect_format lines = "csv")
        /\ (~ plc_rule lines -> ~ tab_rule line0 -> ~ csv_rule line0 ->
            amhs_rule lines -> Analyzer.detect_format lines = "mcs_amhs")
        /\ (~ plc_rule lines -> ~ tab_rule line0 -> ~ csv_rule line0 ->
            ~ amhs_rule lines -> Analyzer.detect_format lines = "unknown")
        /\ (plc_rule lines -> csv_rule line0 ->
            Analyzer.detect_format lines = "plc_debug")).
Proof.
  split; [|split].
  - unfold Analyzer.detect_format, format_tags. destruct lines as [|line0 rest].
    + simpl; tauto.
    + destruct (truthy _); [simpl; tauto|].
      destruct (has_char TAB line0 && _); [simpl; tauto|].
      destruct (has_char "," line0 && _); [simpl; tauto|].
      destruct (truthy _ && _); simpl; tauto.
  - unfold format_tags.
    repeat (constructor; [simpl; intuition discriminate|]). constructor.
  - destruct lines as [|line0 rest].
    + split; [reflexivity|]. split; [congruence|]. intros ? ? E; discriminate.
    + split; [discriminate|].
      pose proof (plc_test (line0 :: rest)) as Hp.
      pose proof (tab_test line0) as Ht.
      pose proof (csv_test line0) as Hc.
      pose proof (amhs_test (line0 :: rest)) as Ha.
      unfold Analyzer.detect_format.
      destruct (truthy (re_search Analyzer.datetime_re _)).
      * assert (plc_rule (line0 :: rest)) by (apply Hp; reflexivity).
        split; [reflexivity|]. intros l0 r E. injection E as <- <-.
        repeat split; intros; try reflexivity; contradiction.
      * apply bool_decide_iff in Hp.
        assert (~ plc_rule (line0 :: rest)) by (apply Hp; reflexivity).
        split; [intros; contradiction|]. intros l0 r E. injection E as <- <-.
        destruct (has_char TAB line0 && _).
        { assert (tab_rule line0) by (apply Ht; reflexivity).
          repeat split; intros; try reflexivity; contradiction. }
        apply bool_decide_iff in Ht.
        assert (~ tab_rule line0) by (apply Ht; reflexivity).
        destruct (has_char "," line0 && _).
        { assert (csv_rule line0) by (apply Hc; reflexivity).
          repeat split; intros; try reflexivity; contradiction. }
        apply bool_decide_iff in Hc.
        assert (~ csv_rule line0) by (apply Hc; reflexivity).
        destruct (truthy _ && _).
        { assert (amhs_rule (line0 :: rest)) by (apply Ha; reflexivity).
          repeat split; intros; try reflexivity; contradiction. }
        apply bool_decide_iff in Ha.
        assert (~ amhs_rule (line0 :: rest)) by (apply Ha; reflexivity).
        repeat split; intros; try reflexivity; contradiction.
Qed.

Lemma detect_format_priority_witness :
  plc_rule Examples.dated_csv
  /\ csv_rule ("2024-01-15 10:00:00,a,b,c,d" ++ [NL])
  /\ Analyzer.detect_format Examples.dated_csv = "plc_debug".
Proof.
  assert (plc_rule Examples.dated_csv) as Hp by (apply plc_test; vm_compute; reflexivity).
  assert (csv_rule ("2024-01-15 10:00:00,a,b,c,d" ++ [NL])) as Hc
    by (apply csv_test; vm_compute; reflexivity).
  split; [exact Hp | split; [exact Hc|]].
  destruct (detect_format_priority Examples.dated_csv) as (_ & _ & _ & _ & H).
  destruct (H _ _ eq_refl) as (_ & _ & _ & _ & H'). exact (H' Hp Hc).
Defined.

(** ** C2 *)

Lemma info_lines_not_2_entries :
  ~ (Analyzer.detect_format Examples.info_lines = "plc_debug"
     /\ In "Total entries: 2" (stdout (Analyzer.analyze_plc_debug Examples.info_lines))
     /\ In "  DEV-1: 2 entries" (stdout (Analyzer.analyze_plc_debug Examples.info_lines))).
Proof.
  intros (_ & H & _). vm_compute in H.
  repeat (destruct H as [H|H]; [discriminate|]). exact H.
Qed.

(** C2, amended.  The two example lines are detected as plc_debug, and
    the PLC-debug summarizer reports 0 entries and empty rankings: in these
    lines the first bracketed group is followed by another bracket, not by
    a word character, so neither line has the record shape. *)
Theorem info_lines_report :
  Analyzer.detect_format Examples.info_lines = "plc_debug"
  /\ Analyzer.analyze_plc_debug Examples.info_lines
     = (["Format: PLC Debug"; Analyzer.dashes; "Total entries: 0";
         NL :: "Top 10 Devices:"; NL :: "Top 10 Signals:"], inr tt)
  /\ Forall (fun line => ~ has_part record_shape line) Examples.info_lines.
Proof.
  split; [vm_compute; reflexivity|]. split; [vm_compute; reflexivity|].
  repeat constructor; apply record_of_none_iff; vm_compute; reflexivity.
Qed.

(** In the format documented in [analyze_plc_debug] the same two records
    are counted, with device DEV-1 first in the ranking. *)
Lemma documented_lines_report :
  Analyzer.detect_format Examples.documented_lines = "plc_debug"
  /\ Analyzer.analyze_plc_debug Examples.documented_lines
     = (["Format: PLC Debug"; Analyzer.dashes; "Total entries: 2";
         "Time range: 2024-01-15 10:00:00.123 to 2024-01-15 10:00:01";
         "Duration: 0:00:01";
         NL :: "Top 10 Devices:"; "  DEV-1: 2 entries";
         NL :: "Top 10 Signals:"; "  Temp: 2 entries"], inr tt).
Proof. split; vm_compute; reflexivity. Qed.

(** ** C3 *)

(** C3.  The entry count that the PLC-debug summarizer reports is the
    number of input lines that have a part of the record shape; a line
    without such a part adds nothing to the timestamps or to the two
    frequency tables.  This holds for every input, classified plc_debug or
    not. *)
Theorem entry_count_is_matching_lines (lines : list str) :
  exists st,
    Analyzer.scan Analyzer.scan_init lines = ret st
    /\ (forall n, Count (has_part record_shape) lines n
                   <-> n = length (Analyzer.timestamps st))
    /\ nth_error (stdout (Analyzer.analyze_plc_debug lines)) 2
       = Some ("Total entries: " ++ str_of_Z (len (Analyzer.timestamps st)))
    /\ forall l1 x l2, lines = l1 ++ x :: l2 -> ~ has_part record_shape x ->
         Analyzer.scan Analyzer.scan_init (l1 ++ l2) = ret st.
Proof.
  eexists. split; [apply scan_records|]. cbn [Analyzer.timestamps].
  split; [|split].
  - assert (Count (has_part record_shape) lines (length (timestamp_seq lines))) as C
      by (unfold timestamp_seq; rewrite length_map; apply records_length_Count).
    intros n. split; [intros H; exact (Count_fun H C) | intros ->; exact C].
  - rewrite analyze_plc_debug_report. reflexivity.
  - intros l1 x l2 -> Hx. rewrite scan_records.
    unfold timestamp_seq, device_seq, signal_seq. rewrite (records_skip l1 l2 Hx).
    reflexivity.
Qed.

Lemma entry_count_is_matching_lines_witness :
  exists st,
    Analyzer.scan Analyzer.scan_init Examples.documented_lines = ret st
    /\ Analyzer.timestamps st = ["2024-01-15 10:00:00.123"; "2024-01-15 10:00:01"]
    /\ Analyzer.scan Analyzer.scan_init
         ["2024-01-15 10:00:00.123 [DEV-1] Temp = 30" ++ [NL];
          "2024-01-15 10:00:01 [DEV-1] Temp = 31" ++ [NL]] = ret st.
Proof.
  destruct (entry_count_is_matching_lines Examples.documented_lines)
    as (st & Hst & _ & _ & Hskip).
  exists st. split; [exact Hst|]. split.
  - rewrite scan_records in Hst. injection Hst as <-. vm_compute. reflexivity.
  - apply (Hskip ["2024-01-15 10:00:00.123 [DEV-1] Temp = 30" ++ [NL]]
             ("# comment" ++ [NL])
             ["2024-01-15 10:00:01 [DEV-1] Temp = 31" ++ [NL]] eq_refl).
    apply record_of_none_iff. vm_compute. reflexivity.
Defined.

(** ** C4 *)

(** C4.  After the scan, every count in the device table and in the signal
    table is non-negative (at least 1, in fact), and the counts of each
    table sum to the number of matched lines. *)
Theorem counts_sum_to_entries (lines : list str) :
  exists st,
    Analyzer.scan Analyzer.scan_init lines = ret st
    /\ Count (has_part record_shape) lines (length (Analyzer.timestamps st))
    /\ Forall (fun kv => 0 <= snd kv) (Analyzer.devices st)
    /\ Forall (fun kv => 0 <= snd kv) (Analyzer.signals st)
    /\ total (Analyzer.devices st) = len (Analyzer.timestamps st)
    /\ total (Analyzer.signals st) = len (Analyzer.timestamps st).
Proof.
  eexists. split; [apply scan_records|].
  cbn [Analyzer.timestamps Analyzer.devices Analyzer.signals].
  assert (forall ks, Forall (fun kv : str * Z => 0 <= snd kv) (tally ks [])) as Hpos.
  { intros ks. pose proof (positive_tally ks (c := []) (Forall_nil _)) as P.
    eapply Forall_impl; [|exact P]. simpl. intros; lia. }
  unfold timestamp_seq, device_seq, signal_seq, len.
  repeat split; auto.
  - rewrite length_map. apply records_length_Count.
  - rewrite total_tally. unfold len. rewrite !length_map. reflexivity.
  - rewrite total_tally. unfold len. rewrite !length_map. reflexivity.
Qed.

(** ** C5 *)

Lemma eleven_devices_tie_unreported :
  exists st,
    Analyzer.scan Analyzer.scan_init Examples.eleven_devices = ret st
    /\ (first_index "D10" (device_seq Examples.eleven_devices)
        < first_index "D11" (device_seq Examples.eleven_devices))%nat
    /\ getitem (Analyzer.devices st) "D10" = 1
    /\ getitem (Analyzer.devices st) "D11" = 1
    /\ ~ precedes ("D10", 1) ("D11", 1) (most_common 10 (Analyzer.devices st)).
Proof.
  eexists. split; [apply scan_records|]. cbn [Analyzer.devices].
  split; [vm_compute; repeat constructor|].
  split; [vm_compute; reflexivity|]. split; [vm_compute; reflexivity|].
  intros H. apply precedes_in_r in H. vm_compute in H.
  repeat (destruct H as [H|H]; [discriminate|]). exact H.
Qed.

(** C5, amended.  The two rankings are in descending order of count, they
    are what the summarizer prints, and ties are broken by first encounter
    among the reported entries: if A and B end with equal counts, A is
    first met before B in the line sequence, and B is among the ten
    reported entries, then A is reported too, before B. *)
Theorem ranking_stable (lines : list str) (A B : str) :
  exists st,
    Analyzer.scan Analyzer.scan_init lines = ret st
    /\ StronglySorted count_ge (most_common 10 (Analyzer.devices st))
    /\ StronglySorted count_ge (most_common 10 (Analyzer.signals st))
    /\ (exists head,
          stdout (Analyzer.analyze_plc_debug lines)
          = head ++ [NL :: "Top 10 Devices:"]
            ++ map render_entry (most_common 10 (Analyzer.devices st))
            ++ [NL :: "Top 10 Signals:"]
            ++ map render_entry (most_common 10 (Analyzer.signals st)))
    /\ ((first_index A (device_seq lines) < first_index B (device_seq lines))%nat ->
        getitem (Analyzer.devices st) A = getitem (Analyzer.devices st) B ->
        In (B, getitem (Analyzer.devices st) B) (most_common 10 (Analyzer.devices st)) ->
        precedes (A, getitem (Analyzer.devices st) A) (B, getitem (Analyzer.devices st) B)
                 (most_common 10 (Analyzer.devices st)))
    /\ ((first_index A (signal_seq lines) < first_index B (signal_seq lines))%nat ->
        getitem (Analyzer.signals st) A = getitem (Analyzer.signals st) B ->
        In (B, getitem (Analyzer.signals st) B) (most_common 10 (Analyzer.signals st)) ->
        precedes (A, getitem (Analyzer.signals st) A) (B, getitem (Analyzer.signals st) B)
                 (most_common 10 (Analyzer.signals st))).
Proof.
  eexists. split; [apply scan_records|].
  cbn [Analyzer.devices Analyzer.signals].
  split; [apply most_common_sorted|]. split; [apply most_common_sorted|].
  split; [|split].
  - rewrite analyze_plc_debug_report. unfold report, stdout, fst.
    eexists. rewrite app_assoc. reflexivity.
  - rewrite !getitem_tally. simpl getitem. rewrite !Z.add_0_l.
    apply most_common_stable.
  - rewrite !getitem_tally. simpl getitem. rewrite !Z.add_0_l.
    apply most_common_stable.
Qed.

Lemma ranking_stable_witness :
  (first_index "X" (device_seq Examples.tie_lines)
   < first_index "Y" (device_seq Examples.tie_lines))%nat
  /\ most_common 10 (tally (device_seq Examples.tie_lines) [])
     = [("X", 2); ("Y", 2); ("Z", 1)]
  /\ precedes ("X", 2) ("Y", 2) (most_common 10 (tally (device_seq Examples.tie_lines) [])).
Proof.
  split; [vm_compute; repeat constructor|]. split; [vm_compute; reflexivity|].
  destruct (ranking_stable Examples.tie_lines "X" "Y") as (st & Hst & _ & _ & _ & Hdev & _).
  rewrite scan_records in Hst. injection Hst as Est. subst st.
  refine (Hdev _ _ _).
  - vm_compute; repeat constructor.
  - vm_compute; reflexivity.
  - vm_compute. auto.
Defined.

(** ** The entry point *)

Lemma analyze_csv_report line0 rest :
  Analyzer.analyze_csv (line0 :: rest)
  = (["Format: CSV"; Analyzer.dashes;
      "Columns: " ++ str_of_Z (len (split "," (strip line0)));
      "Headers: " ++ join ", " (firstn 5 (split "," (strip line0)))
        ++ (if 5 <? len (split "," (strip line0)) then "..." else "");
      "Data rows: " ++ str_of_Z (len (line0 :: rest) - 1)], inr tt).
Proof. reflexivity. Qed.

Lemma analyze_tab_report line0 rest :
  Analyzer.analyze_tab (line0 :: rest)
  = (["Format: Tab-Separated"; Analyzer.dashes;
      "Columns: " ++ str_of_Z (len (split TAB (strip line0)));
      "Data rows: " ++ str_of_Z (len (line0 :: rest))], inr tt).
Proof. reflexivity. Qed.

Lemma print_preview_ok l : forall i, outcome (Analyzer.print_preview i l) = inr tt.
Proof.
  induction l as [|line rest IH]; intros i; [reflexivity|].
  cbn [Analyzer.print_preview]. rewrite bind_print. apply IH.
Qed.

Lemma dispatch_ok lines : outcome (dispatch lines) = inr tt.
Proof.
  unfold dispatch.
  destruct (str_eqb _ "plc_debug"); [rewrite analyze_plc_debug_report; reflexivity|].
  destruct (str_eqb _ "csv"); [destruct lines; reflexivity|].
  destruct (str_eqb _ "tab_separated"); [destruct lines; reflexivity|].
  destruct (str_eqb _ "empty"); [reflexivity|].
  rewrite !bind_print. apply print_preview_ok.
Qed.

Lemma len_ge_2 {A} (a b : A) l : (len (a :: b :: l) <? 2) = false.
Proof. apply Z.ltb_ge. unfold len. simpl length. lia. Qed.

(** [main] with a path argument, when the file is read *)
Lemma main_read_ok w a0 path more lines :
  Analyzer.read_log_file w path = ret lines ->
  Analyzer.main w (a0 :: path :: more)
  = (preamble path lines ++ stdout (dispatch lines), outcome (dispatch lines)).
Proof.
  intros Hr. unfold Analyzer.main. rewrite len_ge_2, bind_ret_l.
  change (item (a0 :: path :: more) 1) with (@inr error str path).
  rewrite lift_inr, bind_ret_l, !bind_print, Hr.
  change (try_except_Exception (ret lines) _) with (ret lines).
  rewrite bind_ret_l. cbv zeta. fold (dispatch lines).
  rewrite !bind_print. reflexivity.
Qed.

(** [main] with a path argument, when reading raises *)
Lemma main_read_fails w a0 path more e :
  Analyzer.read_log_file w path = raise (Exception e) ->
  Analyzer.main w (a0 :: path :: more)
  = (["Analyzing: " ++ path; repeat_str "=" 50;
      "Error reading file: " ++ Analyzer.message e], inl (SystemExit 1)).
Proof.
  intros Hr. unfold Analyzer.main. rewrite len_ge_2, bind_ret_l.
  change (item (a0 :: path :: more) 1) with (@inr error str path).
  rewrite lift_inr, bind_ret_l, !bind_print, Hr. reflexivity.
Qed.

Lemma main_usage w argv :
  len argv < 2 -> Analyzer.main w argv = (usage, inl (SystemExit 1)).
Proof.
  intros H. apply Z.ltb_lt in H. unfold Analyzer.main. rewrite H. reflexivity.
Qed.

(** Reading either raises an [Exception] or returns the lines; it prints
    nothing. *)
Lemma read_log_file_cases w path :
  (exists e, Analyzer.read_log_file w path = raise (Exception e))
  \/ (exists lines, Analyzer.read_log_file w path = ret lines).
Proof.
  unfold Analyzer.read_log_file. destruct (endswith path ".gz").
  - destruct (Analyzer.gzip_open_text w path) as [e|text]; [left | right];
      eexists; reflexivity.
  - destruct (Analyzer.open_text w path) as [e|text]; [left | right];
      eexists; reflexivity.
Qed.


Lemma last_app_nonempty {A} (l l' : list A) d : l' <> [] -> last (l ++ l') d = last l' d.
Proof.
  intros H. induction l as [|x l IH]; [reflexivity|].
  simpl. destruct (l ++ l') eqn:E; [|assumption].
  apply app_eq_nil in E. tauto.
Qed.

(** ** C6 *)

(** C6.  For every non-empty input the CSV summarizer reports
    (number of lines - 1) data rows and the tab-separated summarizer
    reports (number of lines) data rows, header line included; [main]
    prints the same when it routes the lines of a file to one of them. *)
Theorem row_count_asymmetry (lines : list str) :
  lines <> [] ->
  last (stdout (Analyzer.analyze_csv lines)) []
    = "Data rows: " ++ str_of_Z (len lines - 1)
  /\ last (stdout (Analyzer.analyze_tab lines)) []
    = "Data rows: " ++ str_of_Z (len lines)
  /\ forall w a0 path more,
       Analyzer.read_log_file w path = ret lines ->
       (Analyzer.detect_format lines = "csv" ->
        last (stdout (Analyzer.main w (a0 :: path :: more))) []
          = "Data rows: " ++ str_of_Z (len lines - 1))
       /\ (Analyzer.detect_format lines = "tab_separated" ->
           last (stdout (Analyzer.main w (a0 :: path :: more))) []
             = "Data rows: " ++ str_of_Z (len lines)).
Proof.
  destruct lines as [|line0 rest]; [congruence|]. intros _.
  split; [reflexivity|]. split; [reflexivity|].
  intros w a0 path more Hr. rewrite (@main_read_ok w a0 path more _ Hr). unfold stdout at 1 3, fst.
  unfold dispatch. split; intros ->; cbn [str_eqb Ascii.eqb Bool.eqb andb];
    rewrite last_app_nonempty by discriminate; reflexivity.
Qed.

Lemma row_count_asymmetry_witness :
  last (stdout (Analyzer.analyze_csv Examples.csv_lines)) [] = "Data rows: 1"
  /\ last (stdout (Analyzer.analyze_tab Examples.csv_lines)) [] = "Data rows: 2"
  /\ last (stdout (Analyzer.main Examples.one_file ["analyze-log.py"; "a.csv"])) []
     = "Data rows: 1".
Proof.
  destruct (row_count_asymmetry (lines := Examples.csv_lines) ltac:(discriminate))
    as (Hc & Ht & Hm).
  split; [exact Hc|]. split; [exact Ht|].
  destruct (Hm Examples.one_file "analyze-log.py" "a.csv" [] eq_refl) as [H _].
  exact (H eq_refl).
Defined.

(** ** C7 *)

Lemma startswith_head c p s :
  startswith (c :: p) s = true -> exists s', s = c :: s'.
Proof.
  destruct s as [|x s]; simpl; [discriminate|].
  rewrite andb_true_iff, Ascii.eqb_eq. intros [-> _]. eauto.
Qed.

Ltac other_lines Hin Hl :=
  apply startswith_head in Hl; destruct Hl as [? Hl];
  repeat match type of Hin with
    | _ \/ _ => destruct Hin as [Hin|Hin]
    | In _ (_ ++ _) => apply in_app_or in Hin
    | In _ (map _ _) => apply in_map_iff in Hin; destruct Hin as (? & Hin & _)
    | In _ (_ :: _) => simpl in Hin
    | In _ [] => destruct Hin
    | False => destruct Hin
    | _ = _ => rewrite <- Hin in Hl; simpl in Hl; discriminate Hl
    end.

Lemma duration_printed_report lines first rest :
  timestamp_seq lines = first :: rest ->
  duration_printed (report lines) <-> both_parse first (last (first :: rest) []).
Proof.
  intros E. unfold duration_printed, report. rewrite E. unfold time_lines. split.
  - intros (l & Hin & Hl).
    destruct (Datetime.strptime_Ymd_HMS (firstn 19 first)) as [e1|start] eqn:Hs.
    + exfalso. unfold duration_lines in Hin. rewrite Hs in Hin. other_lines Hin Hl.
    + destruct (Datetime.strptime_Ymd_HMS (firstn 19 (last (first :: rest) [])))
        as [e2|end_] eqn:He.
      * exfalso. unfold duration_lines in Hin. rewrite Hs, He in Hin. other_lines Hin Hl.
      * exists start, end_. auto.
  - intros H. destruct (duration_lines_parse H) as [d ->].
    exists ("Duration: " ++ Datetime.str_of_timedelta d). split; [|reflexivity].
    simpl. do 4 right. left. reflexivity.
Qed.



(** ** C9 *)



(** ** C8 *)

Lemma make_line_first d1 d2 d3 : exists line, Generator.make_line 0 d1 d2 d3 = inr line.
Proof.
  unfold Generator.make_line.
  destruct (Generator.choice Generator.signals _ d2) as [[name type] f].
  destruct (Datetime.new_timedelta 0 0 (0 * 10 * 1000)) as [e|elapsed] eqn:E;
    [vm_compute in E; discriminate|].
  vm_compute in E. injection E as <-.
  destruct (Datetime.add Generator.start_time _) as [e|t] eqn:E;
    [vm_compute in E; discriminate|].
  eauto.
Qed.

Lemma loop_extends draws target fuel : forall st st' r,
  Generator.loop fuel draws target st = Some (st', r) ->
  exists more, Generator.written st' = Generator.written st ++ more.
Proof.
  induction fuel as [|fuel IH]; intros st st' r; simpl; [discriminate|].
  destruct (Generator.current_size st <? target).
  - destruct (Generator.make_line _ _ _ _) as [e|line].
    + intros H; injection H as <- <-. exists []. rewrite app_nil_r. reflexivity.
    + intros H. apply IH in H. destruct H as [more ->]. simpl.
      exists (line :: more). rewrite <- app_assoc. reflexivity.
  - intros H; injection H as <- <-. exists []. rewrite app_nil_r. reflexivity.
Qed.

(** With a positive target at least one line is written. *)
Lemma generate_writes draws target_size_mb st r :
  0 < target_size_mb ->
  Generator.generate_large_log draws target_size_mb = Some (st, r) ->
  Generator.written st <> [].
Proof.
  intros Hpos. unfold Generator.generate_large_log. cbn [Generator.loop].
  replace (Generator.current_size Generator.initial <? target_size_mb * 1024 * 1024)
    with true by (symmetry; apply Z.ltb_lt; simpl; lia).
  change (Generator.line_count Generator.initial) with 0.
  match goal with
  | |- context [Generator.make_line 0 ?a ?b ?c] =>
      destruct (make_line_first a b c) as [line ->]
  end.
  intros H. apply loop_extends in H. destruct H as [more ->]. discriminate.
Qed.

(** C8.  The generator ends for every target size and every sequence of
    draws.  Whatever it has written, each line has the form
    <timestamp> [Info] [<device>] [<signal>] (<type>) : <value> and begins
    with the date-time shape, and the analyzer reads these very lines back;
    a non-empty output is therefore detected as plc_debug, and the output
    is non-empty for every positive target size. *)
Theorem generator_output_is_plc_debug (draws : Generator.Rand) (target_size_mb : Z) :
  exists st r,
    Generator.generate_large_log draws target_size_mb = Some (st, r)
    /\ Forall generator_line (Generator.written st)
    /\ Forall starts_with_datetime (Generator.written st)
    /\ Analyzer.readlines (Generator.file_content st) = Generator.written st
    /\ (Generator.file_content st <> [] ->
        Analyzer.detect_format (Analyzer.readlines (Generator.file_content st))
        = "plc_debug")
    /\ (0 < target_size_mb -> Generator.file_content st <> []).
Proof.
  destruct (Generator.generate_large_log draws target_size_mb) as [[st r]|] eqn:E.
  - exists st, r. split; [reflexivity|].
    assert (Forall generator_line (Generator.written st)) as Hg.
    { unfold Generator.generate_large_log in E.
      eapply loop_written; [exact E | constructor]. }
    assert (Forall terminated_line (Generator.written st)) as Ht.
    { eapply Forall_impl; [|exact Hg]. apply generator_line_terminated. }
    assert (Forall starts_with_datetime (Generator.written st)) as Hs.
    { eapply Forall_impl; [|exact Hg]. apply generator_line_starts. }
    assert (Analyzer.readlines (Generator.file_content st) = Generator.written st) as Hr.
    { apply readlines_concat. assumption. }
    repeat (split; [assumption|]). split.
    + intros Hne. rewrite Hr. unfold Generator.file_content in Hne.
      destruct (Generator.written st) as [|line rest]; [contradiction Hne; reflexivity|].
      apply detect_starts_with_datetime. inversion Hs; assumption.
    + intros Hpos. pose proof (generate_writes draws Hpos E) as Hw.
      unfold Generator.file_content.
      destruct (Generator.written st) as [|line rest]; [congruence|].
      inversion Ht as [|? ? (body & -> & _) _]; subst. simpl.
      destruct body; discriminate.
  - exfalso. revert E. unfold Generator.generate_large_log.
    apply loop_total. simpl. lia.
Qed.

Lemma generator_output_is_plc_debug_witness :
  exists st r,
    Generator.generate_large_log (fun k => k) 1 = Some (st, r)
    /\ Generator.file_content st <> []
    /\ Analyzer.detect_format (Analyzer.readlines (Generator.file_content st))
       = "plc_debug".
Proof.
  destruct (generator_output_is_plc_debug (fun k => k) 1)
    as (st & r & Hgen & _ & _ & _ & Hdet & Hne).
  exists st, r. split; [exact Hgen|].
  assert (Generator.file_content st <> []) as H by (apply Hne; reflexivity).
  split; [exact H | exact (Hdet H)].
Defined.

(** ** C10 *)

Lemma no_datetime_part s :
  truthy (re_search Analyzer.datetime_re s) = false -> ~ has_part datetime_shape s.
Proof.
  intros H Hp. apply Contains_datetime, re_search_iff in Hp. congruence.
Qed.

(** C10.  There is a non-empty input in which no line has a part of
    the date-time shape and which [detect_format] classifies plc_debug,
    because the white space of the pattern matches the line break between
    the joined lines: the two lines of a text with a date at the end of the
    first line and a time at the start of the second; and likewise the same
    two lines without their line ends, where the joining LF is the only
    character between the date and the time. *)
Theorem datetime_across_lines :
  (exists lines,
     lines <> []
     /\ lines = Analyzer.readlines Examples.split_datetime_text
     /\ Forall (fun line => ~ has_part datetime_shape line) lines
     /\ has_part datetime_shape (sample_of lines)
     /\ Analyzer.detect_format lines = "plc_debug")
  /\ Forall (fun line => ~ has_part datetime_shape line) ["2024-01-15"; "10:00:00"]
  /\ sample_of ["2024-01-15"; "10:00:00"] = "2024-01-15" ++ [NL] ++ "10:00:00"
  /\ Analyzer.detect_format ["2024-01-15"; "10:00:00"] = "plc_debug".
Proof.
  split; [|split; [|split]].
  - exists ["2024-01-15" ++ [NL]; "10:00:00" ++ [NL]].
    split; [discriminate|]. split; [vm_compute; reflexivity|]. split; [|split].
    + repeat constructor; apply no_datetime_part; vm_compute; reflexivity.
    + apply plc_test. vm_compute. reflexivity.
    + vm_compute. reflexivity.
  - repeat constructor; apply no_datetime_part; vm_compute; reflexivity.
  - reflexivity.
  - vm_compute. reflexivity.
Qed.

(** * Further properties *)

(** ** Captured groups *)

Lemma sem_lang r w c c' : sem r w c c' -> lang r w.
Proof. induction 1; eauto using lang. Qed.

Lemma sem_group_free r w c c' : sem r w c c' -> group_free r = true -> c' = c.
Proof.
  induction 1; simpl; intros G; try reflexivity; try discriminate.
  - apply andb_true_iff in G. destruct G as [G1 G2].
    rewrite (IHsem2 G2). auto.
  - apply andb_true_iff in G. tauto.
  - apply andb_true_iff in G. tauto.
Qed.

Section GreedyFacts.
Variable A : Type.

Lemma star_greedy_total p s (k : str -> option A) :
  (forall s', k s' <> None) -> star_greedy p s k <> None.
Proof.
  intros Hk. induction s as [|a s IH]; simpl; auto.
  destruct (p a); auto. destruct (star_greedy p s k); [discriminate | contradiction].
Qed.

Lemma star_greedy_longest p s (k : str -> option A) x :
  (forall s', k s' <> None) -> star_greedy p s k = Some x ->
  exists w s', s = w ++ s' /\ forallb p w = true /\ k s' = Some x /\ stops p s'.
Proof.
  intros Hk. induction s as [|a s IH]; simpl.
  - intros H. exists [], []. simpl. auto.
  - destruct (p a) eqn:Pa.
    + pose proof (@star_greedy_total p s k Hk) as T.
      destruct (star_greedy p s k) as [y|]; [|contradiction].
      intros H; injection H as ->. destruct (IH eq_refl) as (w & s' & -> & Hw & Hx & Hs).
      exists (a :: w), s'. simpl. rewrite Pa, Hw. auto.
    + intros H. exists [], (a :: s). simpl. auto.
Qed.

(** The matcher is sound for the semantics with captures. *)
Lemma backtrack_sem r : forall s c (k : str -> captures -> option A) x,
  backtrack r s c k = Some x ->
  exists w s' c', s = w ++ s' /\ sem r w c c' /\ k s' c' = Some x.
Proof.
  induction r as [|p|r1 IH1 r2 IH2|r1 IH1 r2 IH2|p|j r IH]; intros s c k x; simpl.
  - intros H. exists [], s, c. repeat split; auto using sem_eps.
  - destruct s as [|a s]; [discriminate|]. destruct (p a) eqn:Pa; [|discriminate].
    intros H. exists [a], s, c. repeat split; auto using sem_chr.
  - intros H. apply IH1 in H. destruct H as (w1 & s1 & c1 & -> & L1 & H).
    apply IH2 in H. destruct H as (w2 & s2 & c2 & -> & L2 & H).
    exists (w1 ++ w2), s2, c2. rewrite app_assoc. repeat split; eauto using sem_seq.
  - destruct (backtrack r1 s c k) eqn:E.
    + intros H; injection H as ->. apply IH1 in E.
      destruct E as (w & s' & c' & -> & L & H).
      exists w, s', c'. repeat split; auto using sem_alt_l.
    + intros H. apply IH2 in H. destruct H as (w & s' & c' & -> & L & H).
      exists w, s', c'. repeat split; auto using sem_alt_r.
  - intros H.
    destruct (star_greedy_sound _ _ _ H) as (w & s' & -> & Hw & Hk).
    exists w, s', c. repeat split; auto using sem_star.
  - intros H. apply IH in H. destruct H as (w & s' & c' & -> & L & H).
    rewrite firstn_consumed in H.
    exists w, s', (set_group j w c'). repeat split; auto using sem_group.
Qed.

(** When the continuation accepts every rest, a pattern that ends in a
    greedy repetition takes the longest run. *)
Lemma backtrack_longest r : forall p s c (k : str -> captures -> option A) x,
  tail_class r = Some p -> (forall s0 c0, k s0 c0 <> None) ->
  backtrack r s c k = Some x ->
  exists w s' c', s = w ++ s' /\ sem r w c c' /\ k s' c' = Some x /\ stops p s'.
Proof.
  induction r as [|q|r1 IH1 r2 IH2|r1 IH1 r2 IH2|q|j r IH]; intros p s c k x; simpl;
    try discriminate.
  - intros T Hk H. apply backtrack_sem in H. destruct H as (w1 & s1 & c1 & -> & L1 & H).
    apply (IH2 p) in H; auto. destruct H as (w2 & s2 & c2 & -> & L2 & H & St).
    exists (w1 ++ w2), s2, c2. rewrite app_assoc. repeat split; eauto using sem_seq.
  - intros T Hk H. injection T as <-.
    destruct (@star_greedy_longest q s (fun s0 => k s0 c) x (fun s0 => Hk s0 c) H)
      as (w & s' & -> & Hw & Hx & St).
    exists w, s', c. repeat split; auto using sem_star.
  - intros T Hk H. apply (IH p) in H; auto.
    destruct H as (w & s' & c' & -> & L & H & St). rewrite firstn_consumed in H.
    exists w, s', (set_group j w c'). repeat split; auto using sem_group.
Qed.
End GreedyFacts.

Lemma re_match_sem r s m p :
  tail_class r = Some p -> re_match r s = Some m ->
  exists w, s = w ++ m_rest m /\ sem r w [] (m_groups m) /\ stops p (m_rest m).
Proof.
  intros T E. unfold re_match in E.
  assert (forall (s0 : str) (c0 : captures),
             Some {| m_groups := c0; m_rest := s0 |} <> None) as Hk by discriminate.
  destruct (@backtrack_longest _ r p s [] _ m T Hk E) as (w & s' & c' & -> & L & H & St).
  injection H as <-. simpl. eauto.
Qed.

Lemma re_search_sem r s m p :
  tail_class r = Some p -> re_search r s = Some m ->
  exists pre w, s = pre ++ w ++ m_rest m /\ sem r w [] (m_groups m) /\ stops p (m_rest m).
Proof.
  intros T. induction s as [|a s IH]; simpl.
  - destruct (re_match r []) as [m'|] eqn:E; [|discriminate]. intros H; injection H as ->.
    destruct (re_match_sem _ _ T E) as (w & Ew & L & St). exists [], w. auto.
  - destruct (re_match r (a :: s)) as [m'|] eqn:E.
    + intros H; injection H as ->.
      destruct (re_match_sem _ _ T E) as (w & Ew & L & St). exists [], w. auto.
    + intros H. destruct (IH H) as (pre & w & -> & L & St).
      exists (a :: pre), w. auto.
Qed.

Lemma sem_seq_inv r1 r2 w c c2 :
  sem (Seq r1 r2) w c c2 ->
  exists w1 w2 c1, w = w1 ++ w2 /\ sem r1 w1 c c1 /\ sem r2 w2 c1 c2.
Proof. inversion 1; subst; eauto 6. Qed.

Lemma sem_group_inv i r w c c2 :
  sem (Group i r) w c c2 -> exists c1, c2 = set_group i w c1 /\ sem r w c c1.
Proof. inversion 1; subst; eauto. Qed.

(** A record found in a line: the three groups are the timestamp, the
    device between the brackets and the longest run of word characters
    after them. *)
Lemma record_of_in_line line ts device signal :
  record_of line = Some (ts, device, signal) -> record_in_line line ts device signal.
Proof.
  unfold record_of.
  destruct (re_search Analyzer.record_re line) as [m|] eqn:E; [|discriminate].
  apply (@re_search_sem Analyzer.record_re line m isword eq_refl) in E.
  destruct E as (pre & w & -> & L & St).
  unfold Analyzer.record_re in L. cbn [Cat] in L.
  apply sem_seq_inv in L. destruct L as (w1 & x1 & c1 & -> & G1 & L).
  apply sem_seq_inv in L. destruct L as (w2 & x2 & c2 & -> & P1 & L).
  apply sem_seq_inv in L. destruct L as (w3 & x3 & c3 & -> & B1 & L).
  apply sem_seq_inv in L. destruct L as (w4 & x4 & c4 & -> & G2 & L).
  apply sem_seq_inv in L. destruct L as (w5 & x5 & c5 & -> & B2 & L).
  apply sem_seq_inv in L. destruct L as (w6 & w7 & c6 & -> & P2 & G3).
  pose proof (sem_group_free P1 eq_refl) as E1; subst c2.
  pose proof (sem_group_free B1 eq_refl) as E1; subst c3.
  pose proof (sem_group_free B2 eq_refl) as E1; subst c5.
  pose proof (sem_group_free P2 eq_refl) as E1; subst c6.
  apply sem_group_inv in G1. destruct G1 as (d1 & -> & G1).
  pose proof (sem_group_free G1 eq_refl) as E1; subst d1.
  apply sem_group_inv in G2. destruct G2 as (d2 & -> & G2).
  pose proof (sem_group_free G2 eq_refl) as E1; subst d2.
  apply sem_group_inv in G3. destruct G3 as (d3 & E3 & G3).
  pose proof (sem_group_free G3 eq_refl) as E1; subst d3.
  unfold groups. rewrite E3. cbn. intros H; injection H as <- <- <-.
  apply sem_lang in G1, P1, B1, G2, B2, P2, G3.
  apply lang_lit in B1, B2. subst w3 w5.
  apply lang_plus in P1, G2, P2, G3.
  apply lang_seq_inv in G1. destruct G1 as (d & frac & -> & Hd & Hf).
  apply datetime_re_shape in Hd. apply lang_star_inv in Hf.
  exists pre, w2, w6, (m_rest m). split.
  - repeat rewrite <- app_assoc. reflexivity.
  - repeat (split; [first [assumption | exists d, frac; auto]|]). assumption.
Qed.

Lemma records_in r lines :
  In r (records lines) -> exists line, In line lines /\ record_of line = Some r.
Proof.
  unfold records. rewrite in_flat_map. intros (line & Hin & H).
  exists line. split; [assumption|].
  destruct (record_of line) as [r'|]; [|contradiction].
  destruct H as [->|[]]. reflexivity.
Qed.

Lemma tally_keys ks k : In k (map fst (tally ks [])) <-> In k ks.
Proof.
  assert (forall c, In k (map fst (tally ks c)) <-> In k (map fst c) \/ In k ks) as G.
  { unfold tally. induction ks as [|x ks IH]; intros c; simpl; [tauto|].
    rewrite IH, keys_incr_in. intuition. }
  rewrite G. simpl. tauto.
Qed.

(** X1.  What the scan collects is well formed: every timestamp has the
    date-time shape followed by digits and dots, every device name is a
    non-empty text without a closing bracket, every signal name is a
    non-empty run of word characters; and each collected timestamp sits in
    one of the lines, followed by white space, the bracketed device, white
    space and the signal, which ends where the word characters end. *)
Theorem scan_collects_well_formed (lines : list str) :
  exists st,
    Analyzer.scan Analyzer.scan_init lines = ret st
    /\ Forall timestamp_text (Analyzer.timestamps st)
    /\ Forall (fun kv => run1 Analyzer.not_rbracket (fst kv)) (Analyzer.devices st)
    /\ Forall (fun kv => run1 isword (fst kv)) (Analyzer.signals st)
    /\ Forall (fun ts => exists line device signal,
                 In line lines /\ record_in_line line ts device signal
                 /\ In device (map fst (Analyzer.devices st))
                 /\ In signal (map fst (Analyzer.signals st)))
              (Analyzer.timestamps st).
Proof.
  eexists. split; [apply scan_records|].
  cbn [Analyzer.timestamps Analyzer.devices Analyzer.signals].
  assert (forall r, In r (records lines) ->
            exists line, In line lines
                         /\ record_in_line line (fst (fst r)) (snd (fst r)) (snd r)) as R.
  { intros [[ts d] sg] Hr. destruct (records_in _ _ Hr) as (line & Hin & E).
    exists line. split; [assumption|]. apply record_of_in_line. assumption. }
  split; [|split; [|split]].
  - apply Forall_forall. intros ts Hts. unfold timestamp_seq in Hts.
    apply in_map_iff in Hts. destruct Hts as (r & <- & Hr).
    destruct (R r Hr) as (line & _ & (pre & ws1 & ws2 & post & _ & H & _)). exact H.
  - apply Forall_forall. intros [k v] Hk.
    assert (In k (device_seq lines)) as Hin
      by (apply tally_keys; change k with (fst (k, v)); apply in_map; assumption).
    unfold device_seq in Hin. apply in_map_iff in Hin. destruct Hin as (r & <- & Hr).
    destruct (R r Hr) as (line & _ & (pre & ws1 & ws2 & post & _ & _ & _ & H & _)). exact H.
  - apply Forall_forall. intros [k v] Hk.
    assert (In k (signal_seq lines)) as Hin
      by (apply tally_keys; change k with (fst (k, v)); apply in_map; assumption).
    unfold signal_seq in Hin. apply in_map_iff in Hin. destruct Hin as (r & <- & Hr).
    destruct (R r Hr) as (line & _ & (pre & ws1 & ws2 & post & _ & _ & _ & _ & _ & H & _)).
    exact H.
  - apply Forall_forall. intros ts Hts. unfold timestamp_seq in Hts.
    apply in_map_iff in Hts. destruct Hts as (r & <- & Hr).
    destruct (R r Hr) as (line & Hin & H).
    exists line, (snd (fst r)), (snd r). split; [assumption|]. split; [assumption|].
    split; apply tally_keys.
    + unfold device_seq. apply in_map_iff. exists r. auto.
    + unfold signal_seq. apply in_map_iff. exists r. auto.
Qed.

(** ** The sample of the detector *)

(** X2.  [detect_format] looks at the first ten lines only: the lines
    after the tenth never change the result. *)
Theorem detect_format_first_ten (lines : list str) :
  Analyzer.detect_format lines = Analyzer.detect_format (firstn 10 lines).
Proof.
  destruct lines as [|line0 rest]; [reflexivity|].
  unfold Analyzer.detect_format.
  change (firstn 10 (line0 :: rest)) with (line0 :: firstn 9 rest).
  change (firstn 10 (line0 :: firstn 9 rest)) with (line0 :: firstn 9 (firstn 9 rest)).
  rewrite firstn_firstn, Nat.min_id. reflexivity.
Qed.

(** ** Reading the file *)

Lemma universal_newlines_cons c s :
  Analyzer.universal_newlines (c :: s)
  = if Ascii.eqb c CR then
      NL :: match s with
            | d :: s'' => if Ascii.eqb d NL then Analyzer.universal_newlines s''
                          else Analyzer.universal_newlines s
            | [] => []
            end
    else c :: Analyzer.universal_newlines s.
Proof. reflexivity. Qed.

Lemma universal_newlines_no_cr s :
  forallb (fun c => negb (Ascii.eqb c CR)) (Analyzer.universal_newlines s) = true.
Proof.
  assert (forall n s, (length s <= n)%nat ->
            forallb (fun c => negb (Ascii.eqb c CR)) (Analyzer.universal_newlines s) = true)
    as G.
  { clear s. induction n as [|n IH]; intros s Hl.
    - destruct s; [reflexivity | simpl in Hl; lia].
    - destruct s as [|c s]; [reflexivity|]. simpl in Hl.
      rewrite universal_newlines_cons.
      destruct (Ascii.eqb c CR) eqn:Ec.
      + destruct s as [|d s]; [reflexivity|]. simpl in Hl.
        destruct (Ascii.eqb d NL); cbn [forallb]; rewrite IH; auto; simpl; lia.
      + cbn [forallb]. rewrite Ec. rewrite IH; auto. lia. }
  apply (G (length s)). lia.
Qed.

Lemma universal_newlines_length s :
  (length (Analyzer.universal_newlines s) <= length s)%nat.
Proof.
  assert (forall n s, (length s <= n)%nat ->
            (length (Analyzer.universal_newlines s) <= length s)%nat) as G.
  { clear s. induction n as [|n IH]; intros s Hl.
    - destruct s; [simpl; lia | simpl in Hl; lia].
    - destruct s as [|c s]; [simpl; lia|]. simpl in Hl.
      rewrite universal_newlines_cons.
      destruct (Ascii.eqb c CR).
      + destruct s as [|d s]; [simpl; lia|]. simpl in Hl.
        destruct (Ascii.eqb d NL); cbn [length].
        * specialize (IH s ltac:(lia)). lia.
        * specialize (IH (d :: s) ltac:(simpl; lia)). cbn [length] in IH. lia.
      + cbn [length]. specialize (IH s ltac:(lia)). lia. }
  apply (G (length s)). lia.
Qed.

Lemma split_keepends_concat_id s : concat (Analyzer.split_keepends s) = s.
Proof.
  induction s as [|c s IH]; simpl; [reflexivity|].
  destruct (Ascii.eqb c NL).
  - simpl. rewrite IH. reflexivity.
  - destruct (Analyzer.split_keepends s) as [|l ls]; simpl in *.
    + rewrite <- IH. reflexivity.
    + rewrite IH. reflexivity.
Qed.

Lemma read_line_cons c l :
  no_break c = true -> read_line l -> read_line (c :: l).
Proof.
  intros Hc (body & Hb & [->| [-> Hn]]).
  - exists (c :: body). simpl. rewrite Hc, Hb. auto.
  - exists (c :: body). simpl. rewrite Hc, Hb. split; [reflexivity|].
    right. split; [reflexivity | discriminate].
Qed.

Lemma split_keepends_read_lines s :
  forallb (fun c => negb (Ascii.eqb c CR)) s = true ->
  Forall read_line (Analyzer.split_keepends s).
Proof.
  induction s as [|c s IH]; simpl; [constructor|].
  rewrite andb_true_iff. intros [Hc Hs]. specialize (IH Hs).
  destruct (Ascii.eqb c NL) eqn:En.
  - constructor; [|assumption]. apply Ascii.eqb_eq in En. subst c.
    exists []. simpl. auto.
  - assert (no_break c = true) as Hnb.
    { unfold no_break. rewrite En. apply negb_true_iff in Hc. rewrite Hc. reflexivity. }
    destruct (Analyzer.split_keepends s) as [|l ls].
    + constructor; [|constructor]. exists [c]. simpl. rewrite Hnb.
      split; [reflexivity|]. right. split; [reflexivity | discriminate].
    + inversion IH; subst. constructor; [|assumption]. apply read_line_cons; assumption.
Qed.

Lemma split_keepends_init_terminated s :
  forallb (fun c => negb (Ascii.eqb c CR)) s = true ->
  forall init x, Analyzer.split_keepends s = init ++ [x] -> Forall terminated_line init.
Proof.
  induction s as [|c s IH]; simpl.
  - intros _ init x E. destruct init; discriminate.
  - rewrite andb_true_iff. intros [Hc Hs] init x. specialize (IH Hs).
    destruct (Ascii.eqb c NL) eqn:En.
    + apply Ascii.eqb_eq in En. subst c. destruct init as [|y init]; simpl.
      * intros _. constructor.
      * intros E. injection E as <- E. constructor; [|eapply IH; eassumption].
        exists []. simpl. auto.
    + assert (no_break c = true) as Hnb.
      { unfold no_break. rewrite En. apply negb_true_iff in Hc. rewrite Hc. reflexivity. }
      destruct (Analyzer.split_keepends s) as [|l ls].
      * destruct init as [|y init]; simpl; [constructor|].
        intros E. injection E as _ E. destruct init; discriminate.
      * destruct init as [|y init]; simpl; [constructor|].
        intros E. injection E as <- E.
        specialize (IH (l :: init) x ltac:(simpl; congruence)).
        inversion IH as [|? ? (body & -> & Hb) Hi]; subst.
        constructor; [|assumption]. exists (c :: body). simpl. rewrite Hnb, Hb. auto.
Qed.

Lemma read_log_file_source w path :
  Analyzer.read_log_file w path
  = match source w path with
    | inl e => raise (Exception e)
    | inr text => ret (Analyzer.readlines text)
    end.
Proof.
  unfold Analyzer.read_log_file, source. destruct (endswith path ".gz").
  - destruct (Analyzer.gzip_open_text w path); reflexivity.
  - destruct (Analyzer.open_text w path); reflexivity.
Qed.

(** X3.  When the file is opened, [read_log_file] returns lines whose
    concatenation is the text with CR LF and CR read as LF (the text
    itself when it has no CR), of at most the length of the text; no line
    is empty or has a line break inside, and every line but the last ends
    in LF. *)
Theorem read_log_file_lines (w : Analyzer.World) (path text : str) :
  source w path = inr text ->
  exists lines,
    Analyzer.read_log_file w path = ret lines
    /\ concat lines = Analyzer.universal_newlines text
    /\ len (concat lines) <= len text
    /\ (forallb (fun c => negb (Ascii.eqb c CR)) text = true -> concat lines = text)
    /\ Forall read_line lines
    /\ (forall init x, lines = init ++ [x] -> Forall terminated_line init).
Proof.
  intros Hs. exists (Analyzer.readlines text).
  split; [rewrite read_log_file_source, Hs; reflexivity|].
  unfold Analyzer.readlines. rewrite split_keepends_concat_id.
  split; [reflexivity|]. split; [|split; [|split]].
  - unfold len. pose proof (universal_newlines_length text). lia.
  - apply universal_newlines_id.
  - apply split_keepends_read_lines, universal_newlines_no_cr.
  - apply split_keepends_init_terminated, universal_newlines_no_cr.
Qed.

Lemma read_log_file_lines_witness :
  exists lines,
    Analyzer.read_log_file Examples.one_file "a.csv" = ret lines
    /\ concat lines = "a,b,c,d,e" ++ [NL] ++ "1,2,3,4,5" ++ [NL].
Proof.
  destruct (@read_log_file_lines Examples.one_file "a.csv"
              ("a,b,c,d,e" ++ [NL] ++ "1,2,3,4,5" ++ [NL]) eq_refl)
    as (lines & Hr & _ & _ & Hc & _).
  exists lines. split; [exact Hr | exact (Hc eq_refl)].
Defined.

(** ** What [main] reports before the summary *)

Lemma split_keepends_nil s : Analyzer.split_keepends s = [] -> s = [].
Proof.
  destruct s as [|c s]; [reflexivity|]. simpl.
  destruct (Ascii.eqb c NL); [discriminate|].
  destruct (Analyzer.split_keepends s); discriminate.
Qed.

Lemma split_keepends_count s :
  len (Analyzer.split_keepends s) = count_char NL s + unterminated s.
Proof.
  unfold len, unterminated. induction s as [|c s IH]; [reflexivity|].
  cbn [Analyzer.split_keepends count_char].
  destruct (Ascii.eqb c NL) eqn:En.
  - apply Ascii.eqb_eq in En. subst c. cbn [length].
    replace (last (NL :: s) NL) with (last s NL) by (destruct s; reflexivity).
    lia.
  - destruct (Analyzer.split_keepends s) as [|l ls] eqn:Es.
    + apply split_keepends_nil in Es. subst s. simpl. rewrite En. reflexivity.
    + assert (s <> []) as Hs by (intros ->; discriminate).
      replace (last (c :: s) NL) with (last s NL) by (destruct s; [contradiction | reflexivity]).
      cbn [length] in *. lia.
Qed.

(** X4.  With a file that opens, [main] reports as file size the number
    of characters after CR LF and CR are read as LF, which is at most the
    length of the text, and as line count the number of LF in that text,
    plus one when the text does not end in LF. *)
Theorem main_reports_size (w : Analyzer.World) (a0 path : str) (more : list str)
        (text : str) :
  source w path = inr text ->
  let t := Analyzer.universal_newlines text in
  firstn 5 (stdout (Analyzer.main w (a0 :: path :: more)))
  = ["Analyzing: " ++ path; repeat_str "=" 50;
     "File size: " ++ str_of_Z_commas (len t) ++ " characters";
     "Lines: " ++ str_of_Z_commas (count_char NL t + unterminated t); ""]
  /\ len t <= len text.
Proof.
  intros Hs t.
  assert (Analyzer.read_log_file w path = ret (Analyzer.readlines text)) as Hr
    by (rewrite read_log_file_source, Hs; reflexivity).
  rewrite (@main_read_ok w a0 path more _ Hr). unfold stdout at 1, fst, preamble.
  unfold Analyzer.readlines. fold t.
  rewrite split_keepends_concat_id, split_keepends_count. split; [reflexivity|].
  unfold len, t. pose proof (universal_newlines_length text). lia.
Qed.

Lemma main_reports_size_witness :
  firstn 5 (stdout (Analyzer.main Examples.one_file ["analyze-log.py"; "a.csv"]))
  = ["Analyzing: a.csv"; repeat_str "=" 50; "File size: 20 characters";
     "Lines: 2"; ""].
Proof.
  exact (proj1 (@main_reports_size Examples.one_file "analyze-log.py" "a.csv" []
                  (concat Examples.csv_lines) eq_refl)).
Defined.

(** ** The empty file *)

Lemma detect_format_empty_iff lines :
  Analyzer.detect_format lines = "empty" <-> lines = [].
Proof.
  split; [|intros ->; reflexivity].
  destruct lines as [|line0 rest]; [reflexivity|]. unfold Analyzer.detect_format.
  destruct (truthy _); [discriminate|].
  destruct (has_char TAB line0 && _); [discriminate|].
  destruct (has_char "," line0 && _); [discriminate|].
  destruct (truthy _ && _); discriminate.
Qed.

Lemma readlines_nil_iff text : Analyzer.readlines text = [] <-> text = [].
Proof.
  split; [|intros ->; reflexivity].
  unfold Analyzer.readlines. intros H. apply split_keepends_nil in H.
  destruct text as [|c s]; [reflexivity|]. rewrite universal_newlines_cons in H.
  destruct (Ascii.eqb c CR); discriminate.
Qed.

Ltac not_this_line Hin :=
  unfold stdout, fst in Hin;
  repeat match type of Hin with
    | _ \/ _ => destruct Hin as [Hin|Hin]
    | In _ (_ ++ _) => apply in_app_or in Hin
    | In _ (map _ _) => apply in_map_iff in Hin; destruct Hin as (? & Hin & _)
    | In _ (_ :: _) => simpl in Hin
    | In _ [] => destruct Hin
    | False => destruct Hin
    | _ = _ => try discriminate Hin; (simpl in Hin; discriminate Hin)
    end.

Lemma preview_lines_eq l : forall i,
  Analyzer.print_preview i l = (preview_lines i l, inr tt).
Proof.
  induction l as [|line rest IH]; intros i; [reflexivity|].
  cbn [Analyzer.print_preview preview_lines]. rewrite bind_print, IH. reflexivity.
Qed.

Lemma preview_lines_indent l : forall i x,
  In x (preview_lines i l) -> exists y, x = " "%char :: y.
Proof.
  induction l as [|line rest IH]; intros i x; simpl; [tauto|].
  intros [<-|H]; eauto.
Qed.

Lemma dispatch_not_empty_message lines l :
  lines <> [] -> In l (stdout (dispatch lines)) -> l <> "File is empty".
Proof.
  intros Hne Hin ->. unfold dispatch in Hin.
  destruct (str_eqb _ "plc_debug").
  { rewrite analyze_plc_debug_report in Hin. unfold stdout, fst, report, time_lines in Hin.
    destruct (timestamp_seq lines) as [|first rest].
    - not_this_line Hin.
    - unfold duration_lines in Hin.
      destruct (Datetime.strptime_Ymd_HMS (firstn 19 first)); [not_this_line Hin|].
      destruct (Datetime.strptime_Ymd_HMS (firstn 19 (last (first :: rest) [])));
        [not_this_line Hin|].
      destruct (Datetime.sub _ _); not_this_line Hin. }
  destruct (str_eqb _ "csv").
  { destruct lines as [|line0 rest]; [contradiction|].
    rewrite analyze_csv_report in Hin. not_this_line Hin. }
  destruct (str_eqb _ "tab_separated").
  { destruct lines as [|line0 rest]; [contradiction|].
    rewrite analyze_tab_report in Hin. not_this_line Hin. }
  destruct (str_eqb _ "empty") eqn:E.
  { apply str_eqb_eq, detect_format_empty_iff in E. contradiction. }
  rewrite !bind_print, preview_lines_eq in Hin. unfold stdout, fst in Hin.
  destruct Hin as [Hin|[Hin|[Hin|Hin]]]; try (simpl in Hin; discriminate Hin).
  apply preview_lines_indent in Hin. destruct Hin as [y Hy]. discriminate.
Qed.

(** X5.  With a file that opens, [main] prints the message "File is
    empty" exactly when the file has no character at all (a file with a
    single line break is not empty); for such a file it reports 0
    characters and 0 lines and ends with status 0. *)
Theorem empty_file_message (w : Analyzer.World) (a0 path : str) (more : list str)
        (text : str) :
  source w path = inr text ->
  (In "File is empty" (stdout (Analyzer.main w (a0 :: path :: more))) <-> text = [])
  /\ (text = [] ->
      Analyzer.main w (a0 :: path :: more)
      = (["Analyzing: " ++ path; repeat_str "=" 50; "File size: 0 characters";
          "Lines: 0"; ""; "File is empty"], inr tt)).
Proof.
  intros Hs.
  assert (Analyzer.read_log_file w path = ret (Analyzer.readlines text)) as Hr
    by (rewrite read_log_file_source, Hs; reflexivity).
  rewrite (@main_read_ok w a0 path more _ Hr).
  split; [split|].
  - intros Hin. unfold stdout at 1, fst in Hin. apply in_app_or in Hin.
    destruct (list_eq_dec ascii_dec text []) as [E|Hne]; [assumption|]. exfalso.
    assert (Analyzer.readlines text <> []) as Hl by (rewrite readlines_nil_iff; assumption).
    destruct Hin as [Hin|Hin].
    + unfold preamble in Hin. not_this_line Hin.
    + exact (dispatch_not_empty_message Hl Hin eq_refl).
  - intros ->. unfold stdout at 1, fst. apply in_or_app. right. simpl. auto.
  - intros ->. reflexivity.
Qed.

Lemma empty_file_message_witness :
  ~ In "File is empty" (stdout (Analyzer.main Examples.one_file ["analyze-log.py"; "a.csv"])).
Proof.
  destruct (@empty_file_message Examples.one_file "analyze-log.py" "a.csv" []
              (concat Examples.csv_lines) eq_refl) as [[H _] _].
  intros Hin. specialize (H Hin). discriminate H.
Defined.

(** ** Formats without a summarizer *)

Lemma preview_lines_length l : forall i, length (preview_lines i l) = length l.
Proof. induction l as [|x l IH]; intros i; simpl; auto. Qed.

Lemma preview_entry_length (d : str) (x : str) :
  length d = 1%nat -> (length ("  " ++ d ++ ": " ++ firstn 80 (strip x)) <= 85)%nat.
Proof.
  intros Hd. rewrite !length_app, Hd. pose proof (firstn_le_length 80 (strip x)).
  cbn [length]. lia.
Qed.

Lemma preview_first_three lines :
  Forall (fun l => (length l <= 85)%nat) (preview_lines 0 (firstn 3 lines)).
Proof.
  destruct lines as [|a [|b [|c rest]]]; cbn [firstn preview_lines];
    repeat (apply Forall_cons; [apply preview_entry_length; reflexivity|]);
    apply Forall_nil.
Qed.

(** X6.  A file classified mcs_amhs has no summarizer of its own: like an
    unknown one it gets the tag, a rule and a preview of its first three
    lines at most, each stripped of surrounding white space and cut to 80
    characters; [main] then ends with status 0. *)
Theorem unsummarized_formats_preview (w : Analyzer.World) (a0 path : str)
        (more lines : list str) :
  Analyzer.read_log_file w path = ret lines ->
  Analyzer.detect_format lines = "mcs_amhs" \/ Analyzer.detect_format lines = "unknown" ->
  Analyzer.main w (a0 :: path :: more)
  = (preamble path lines
     ++ ["Format: " ++ Analyzer.detect_format lines; Analyzer.dashes; "First 3 lines:"]
     ++ preview_lines 0 (firstn 3 lines), inr tt)
  /\ length (preview_lines 0 (firstn 3 lines)) = Nat.min 3 (length lines)
  /\ Forall (fun l => (length l <= 85)%nat) (preview_lines 0 (firstn 3 lines)).
Proof.
  intros Hr Htag. rewrite (@main_read_ok w a0 path more lines Hr).
  split; [|split].
  - unfold dispatch.
    destruct Htag as [-> | ->]; cbn [str_eqb Ascii.eqb Bool.eqb andb];
      rewrite !bind_print, preview_lines_eq; reflexivity.
  - rewrite preview_lines_length. apply length_firstn.
  - apply preview_first_three.
Qed.

Lemma unsummarized_formats_preview_witness :
  Analyzer.main amhs_file ["analyze-log.py"; "mcs.log"]
  = (["Analyzing: mcs.log"; repeat_str "=" 50; "File size: 52 characters";
      "Lines: 4"; ""; "Format: mcs_amhs"; Analyzer.dashes; "First 3 lines:";
      "  1: [AMHS] transfer start"; "  2: carrier 1"; "  3: carrier 2"], inr tt).
Proof.
  exact (proj1 (@unsummarized_formats_preview amhs_file "analyze-log.py" "mcs.log" []
                  ["[AMHS] transfer start" ++ [NL]; "carrier 1" ++ [NL];
                   "carrier 2" ++ [NL]; "carrier 3" ++ [NL]]
                  eq_refl (or_introl eq_refl))).
Defined.

(** ** Columns *)

Lemma count_char_nonneg c s : 0 <= count_char c s.
Proof. induction s as [|x s IH]; simpl; [lia | destruct (Ascii.eqb x c); lia]. Qed.

Lemma split_len c s : len (split c s) = 1 + count_char c s.
Proof.
  unfold len. induction s as [|x s IH]; [reflexivity|].
  cbn [split count_char]. pose proof (count_char_nonneg c s).
  destruct (Ascii.eqb x c).
  - cbn [length]. lia.
  - destruct (split c s) as [|f fs]; cbn [length] in *; lia.
Qed.

Lemma count_char_app c a b : count_char c (a ++ b) = count_char c a + count_char c b.
Proof. induction a as [|x a IH]; simpl; lia. Qed.

Lemma count_char_spaces c ws :
  isspace c = false -> forallb isspace ws = true -> count_char c ws = 0.
Proof.
  intros Hc. induction ws as [|x ws IH]; simpl; [reflexivity|].
  rewrite andb_true_iff. intros [Hx Hw].
  destruct (Ascii.eqb x c) eqn:E; [apply Ascii.eqb_eq in E; congruence | auto].
Qed.

Lemma lstrip_split s : exists pre, s = pre ++ lstrip s /\ forallb isspace pre = true.
Proof.
  induction s as [|c s (pre & E & H)]; simpl.
  - exists []. auto.
  - destruct (isspace c) eqn:Ec.
    + exists (c :: pre). simpl. rewrite Ec, H, <- E. auto.
    + exists []. auto.
Qed.

(** [strip] removes white space at both ends and nothing else. *)
Lemma strip_split s :
  exists pre post, s = pre ++ strip s ++ post
                   /\ forallb isspace pre = true /\ forallb isspace post = true.
Proof.
  destruct (lstrip_split s) as (pre & E & Hpre).
  destruct (lstrip_split (rev (lstrip s))) as (q & Eq & Hq).
  exists pre, (rev q). unfold strip. split; [|split; [assumption|]].
  - rewrite <- rev_app_distr, <- Eq, rev_involutive. assumption.
  - rewrite forallb_forall in *. intros x Hx. apply Hq. apply in_rev. assumption.
Qed.

Lemma detect_format_csv_inv lines :
  Analyzer.detect_format lines = "csv" ->
  exists line0 rest, lines = line0 :: rest /\ 3 < len (split "," line0).
Proof.
  destruct lines as [|line0 rest]; [discriminate|]. unfold Analyzer.detect_format.
  destruct (truthy _); [discriminate|].
  destruct (has_char TAB line0 && _); [discriminate|].
  destruct (has_char "," line0 && (3 <? len (split "," line0))) eqn:E.
  - intros _. apply andb_true_iff in E. destruct E as [_ E]. apply Z.ltb_lt in E. eauto.
  - destruct (truthy _ && _); discriminate.
Qed.

Lemma detect_format_tab_inv lines :
  Analyzer.detect_format lines = "tab_separated" ->
  exists line0 rest, lines = line0 :: rest /\ 3 < len (split TAB line0).
Proof.
  destruct lines as [|line0 rest]; [discriminate|]. unfold Analyzer.detect_format.
  destruct (truthy _); [discriminate|].
  destruct (has_char TAB line0 && (3 <? len (split TAB line0))) eqn:E.
  - intros _. apply andb_true_iff in E. destruct E as [_ E]. apply Z.ltb_lt in E. eauto.
  - destruct (has_char "," line0 && _); [discriminate|].
    destruct (truthy _ && _); discriminate.
Qed.

(** X7.  For an input classified csv, the column count that the CSV
    summarizer reports is the field count the detector found in the first
    line, so more than 3: stripping the line removes no comma. *)
Theorem csv_columns_as_detected (lines : list str) :
  Analyzer.detect_format lines = "csv" ->
  exists line0 rest,
    lines = line0 :: rest
    /\ nth_error (stdout (Analyzer.analyze_csv lines)) 2
       = Some ("Columns: " ++ str_of_Z (len (split "," line0)))
    /\ 3 < len (split "," line0).
Proof.
  intros H. destruct (detect_format_csv_inv _ H) as (line0 & rest & -> & Hn).
  exists line0, rest. split; [reflexivity|]. split; [|assumption].
  rewrite analyze_csv_report. unfold stdout, fst. cbn [nth_error].
  destruct (strip_split line0) as (pre & post & E & Hpre & Hpost).
  pose proof (f_equal (count_char ",") E) as Ec. rewrite !count_char_app in Ec.
  rewrite (@count_char_spaces "," pre eq_refl Hpre) in Ec.
  rewrite (@count_char_spaces "," post eq_refl Hpost) in Ec.
  rewrite !split_len.
  replace (count_char "," line0) with (count_char "," (strip line0)) by lia.
  reflexivity.
Qed.

Lemma csv_columns_as_detected_witness :
  nth_error (stdout (Analyzer.analyze_csv Examples.csv_lines)) 2 = Some "Columns: 5".
Proof.
  destruct (@csv_columns_as_detected Examples.csv_lines eq_refl)
    as (line0 & rest & E & H & _).
  injection E as <- <-. exact H.
Defined.

(** X8.  For an input classified tab_separated, the column count that
    the tab summarizer reports is at least 1 and at most the field count
    the detector found (more than 3); it can be smaller, down to 1, since
    stripping the first line removes tabs at its ends. *)
Theorem tab_columns_at_most_detected (lines : list str) :
  Analyzer.detect_format lines = "tab_separated" ->
  (exists line0 rest n,
     lines = line0 :: rest
     /\ nth_error (stdout (Analyzer.analyze_tab lines)) 2
        = Some ("Columns: " ++ str_of_Z n)
     /\ 1 <= n <= len (split TAB line0) /\ 3 < len (split TAB line0))
  /\ Analyzer.detect_format tab_edge_lines = "tab_separated"
  /\ nth_error (stdout (Analyzer.analyze_tab tab_edge_lines)) 2 = Some "Columns: 1".
Proof.
  intros H. split; [|split; vm_compute; reflexivity].
  destruct (detect_format_tab_inv _ H) as (line0 & rest & -> & Hn).
  exists line0, rest, (len (split TAB (strip line0))).
  split; [reflexivity|]. split; [reflexivity|]. split; [|assumption].
  destruct (strip_split line0) as (pre & post & E & Hpre & Hpost).
  pose proof (f_equal (count_char TAB) E) as Ec. rewrite !count_char_app in Ec.
  rewrite !split_len.
  pose proof (count_char_nonneg TAB pre). pose proof (count_char_nonneg TAB post).
  pose proof (count_char_nonneg TAB (strip line0)). lia.
Qed.

Lemma tab_columns_at_most_detected_witness :
  exists n, nth_error (stdout (Analyzer.analyze_tab tab_edge_lines)) 2
            = Some ("Columns: " ++ str_of_Z n)
            /\ 1 <= n <= len (split TAB ("a" ++ [TAB; TAB; TAB; NL])).
Proof.
  destruct (@tab_columns_at_most_detected tab_edge_lines eq_refl)
    as [(line0 & rest & n & E & H & Hn & _) _].
  injection E as <- <-. exists n. split; [exact H | exact Hn].
Defined.

(** ** The scan of two files in a row *)

Lemma occurrences_app k a b : occurrences k (a ++ b) = occurrences k a + occurrences k b.
Proof. induction a as [|x a IH]; simpl; lia. Qed.

Lemma records_app l1 l2 : records (l1 ++ l2) = records l1 ++ records l2.
Proof. unfold records. apply flat_map_app. Qed.

Lemma records_length lines : (length (records lines) <= length lines)%nat.
Proof.
  unfold records. induction lines as [|line rest IH]; simpl; [lia|].
  destruct (record_of line); simpl; lia.
Qed.

(** X9.  The scan composes: scanning [l1 ++ l2] is scanning [l2] from the
    state reached on [l1]; the timestamps are those of [l1] followed by
    those of [l2], and every device and signal count is the sum of its
    counts in [l1] and in [l2].  A line adds at most one entry. *)
Theorem scan_concatenation (l1 l2 : list str) :
  exists st1 st2 st,
    Analyzer.scan Analyzer.scan_init l1 = ret st1
    /\ Analyzer.scan Analyzer.scan_init l2 = ret st2
    /\ Analyzer.scan Analyzer.scan_init (l1 ++ l2) = ret st
    /\ Analyzer.scan st1 l2 = ret st
    /\ Analyzer.timestamps st = Analyzer.timestamps st1 ++ Analyzer.timestamps st2
    /\ (forall k, getitem (Analyzer.devices st) k
                  = getitem (Analyzer.devices st1) k + getitem (Analyzer.devices st2) k)
    /\ (forall k, getitem (Analyzer.signals st) k
                  = getitem (Analyzer.signals st1) k + getitem (Analyzer.signals st2) k)
    /\ len (Analyzer.timestamps st) <= len (l1 ++ l2).
Proof.
  exists (fold_left step l1 Analyzer.scan_init), (fold_left step l2 Analyzer.scan_init),
    (fold_left step (l1 ++ l2) Analyzer.scan_init).
  split; [apply scan_fold|]. split; [apply scan_fold|]. split; [apply scan_fold|].
  split; [rewrite scan_fold, fold_left_app; reflexivity|].
  assert (len (timestamp_seq (l1 ++ l2)) <= len (l1 ++ l2)) as B.
  { unfold len, timestamp_seq. rewrite length_map.
    pose proof (records_length (l1 ++ l2)). lia. }
  rewrite !fold_step. cbn [Analyzer.timestamps Analyzer.devices Analyzer.signals app].
  split; [|split; [|split; [|exact B]]].
  - unfold timestamp_seq. rewrite records_app, map_app. reflexivity.
  - intros k. unfold device_seq. rewrite records_app, map_app.
    rewrite !getitem_tally, occurrences_app. simpl. lia.
  - intros k. unfold signal_seq. rewrite records_app, map_app.
    rewrite !getitem_tally, occurrences_app. simpl. lia.
Qed.

(** ** The ranking holds the most frequent keys *)

Lemma NoDup_firstn {A} (l : list A) n : NoDup l -> NoDup (firstn n l).
Proof.
  intros H. rewrite <- (firstn_skipn n l) in H. apply NoDup_app_remove_r in H. assumption.
Qed.

Lemma sorted_split_order {A} (R : A -> A -> Prop) l1 l2 :
  StronglySorted R (l1 ++ l2) -> forall a b, In a l1 -> In b l2 -> R a b.
Proof.
  induction l1 as [|x l1 IH]; simpl; [tauto|].
  intros H a b [->|Ha] Hb.
  - inversion H as [|? ? _ F]; subst. rewrite Forall_forall in F. apply F.
    apply in_or_app. auto.
  - inversion H; subst. eauto.
Qed.

Lemma occurrences_absent k ks : ~ In k ks -> occurrences k ks = 0.
Proof.
  induction ks as [|x ks IH]; simpl; [reflexivity|]. intros H.
  destruct (str_eqb k x) eqn:E; [apply str_eqb_eq in E; subst; tauto|].
  rewrite IH; tauto.
Qed.

Lemma entry_of_key (c : Counter) k : In k (map fst c) -> exists v, In (k, v) c.
Proof.
  rewrite in_map_iff. intros ([k' v] & E & H). simpl in E. subst. eauto.
Qed.

Lemma most_common_top n ks :
  top_ranking n ks (tally ks []) (most_common n (tally ks [])).
Proof.
  set (c := tally ks []). unfold most_common.
  assert (NoDup (map fst c)) as ND by (apply NoDup_keys_tally; constructor).
  assert (Permutation (sorted_by_count_desc c) c) as Pm by apply sorted_perm.
  assert (forall k v, In (k, v) c -> v = occurrences k ks /\ 1 <= v) as Hc.
  { intros k v Hin. split.
    - rewrite <- (getitem_entry _ _ _ ND Hin). unfold c. rewrite getitem_tally. reflexivity.
    - pose proof (positive_tally ks (c := []) (Forall_nil _)) as P.
      rewrite Forall_forall in P. exact (P _ Hin). }
  split; [|split; [|split]].
  - rewrite length_firstn, (Permutation_length Pm). reflexivity.
  - rewrite <- firstn_map. apply NoDup_firstn.
    apply (Permutation_NoDup (Permutation_sym (Permutation_map fst Pm))). assumption.
  - intros k v Hin. apply Hc. apply (Permutation_in _ Pm). eapply in_firstn; eassumption.
  - intros k v k' Hin Hout.
    assert (1 <= v) as Hv.
    { apply (Hc k). apply (Permutation_in _ Pm). eapply in_firstn; eassumption. }
    destruct (in_dec (list_eq_dec ascii_dec) k' ks) as [Hk|Hk];
      [|rewrite (occurrences_absent _ _ Hk); lia].
    apply tally_keys in Hk. fold c in Hk. destruct (entry_of_key _ _ Hk) as [v' Hv'].
    destruct (Hc _ _ Hv') as [-> _].
    apply (Permutation_in _ (Permutation_sym Pm)) in Hv'.
    rewrite <- (firstn_skipn n (sorted_by_count_desc c)) in Hv'.
    apply in_app_or in Hv'. destruct Hv' as [Hf|Hs].
    + exfalso. apply Hout. change k' with (fst (k', occurrences k' ks)).
      apply in_map. assumption.
    + pose proof (sorted_by_count_desc_sorted c) as S.
      rewrite <- (firstn_skipn n (sorted_by_count_desc c)) in S.
      exact (@sorted_split_order _ count_ge _ _ S _ _ Hin Hs).
Qed.


(** ** The lines of the generator, part by part *)

Lemma choice_In {A} (l : list A) d draw : l <> [] -> In (Generator.choice l d draw) l.
Proof.
  intros H. unfold Generator.choice. apply nth_In.
  apply Nat.mod_upper_bound. destruct l; [congruence | discriminate].
Qed.

Lemma new_timedelta_ms n :
  Datetime.new_timedelta 0 0 (n * 10 * 1000)
  = if 999999999 <? Z.abs (n * 10 * 1000 / 1000000 / 86400) then inl OverflowError
    else inr {| Datetime.days := n * 10 * 1000 / 1000000 / 86400;
                Datetime.seconds := (n * 10 * 1000 / 1000000) mod 86400;
                Datetime.microseconds := (n * 10 * 1000) mod 1000000 |}.
Proof. unfold Datetime.new_timedelta. cbn [Z.mul Z.add]. reflexivity. Qed.

Lemma make_line_generated n d1 d2 d3 line :
  Generator.make_line n d1 d2 d3 = inr line -> generated_line n line.
Proof.
  unfold Generator.make_line.
  pose proof (@choice_In _ Generator.signals ("", "", Generator.Choice []) d2
                ltac:(discriminate)) as Hs.
  destruct (Generator.choice Generator.signals _ d2) as [[name type] f].
  rewrite new_timedelta_ms.
  destruct (999999999 <? _); [discriminate|].
  destruct (Datetime.add Generator.start_time _) as [|t] eqn:Ea; [discriminate|].
  intros E; injection E as <-.
  exists t, (Generator.choice Generator.devices "" d1), name, type, f, d3.
  split; [exact Ea|]. split; [apply choice_In; discriminate|]. split; [exact Hs|].
  repeat rewrite <- app_assoc. reflexivity.
Qed.

Lemma decimal_plain c : isdecimal c = true -> plain c = true.
Proof. destruct c as [[] [] [] [] [] [] [] []]; vm_compute; congruence. Qed.

Lemma plain_app a b : forallb plain a = true -> forallb plain b = true ->
  forallb plain (a ++ b) = true.
Proof. intros Ha Hb. rewrite forallb_app, Ha, Hb. reflexivity. Qed.

Lemma plain_digits_n n w : digits_n n w -> forallb plain w = true.
Proof. intros [_ H]. eapply forallb_impl; [apply decimal_plain | exact H]. Qed.

Lemma digits_from_length fuel : forall n acc,
  (length acc <= length (digits_from fuel n acc))%nat.
Proof.
  induction fuel as [|fuel IH]; intros n acc; simpl; [lia|].
  destruct (n / 10 =? 0); [simpl; lia|].
  specialize (IH (n / 10) (digit_char n :: acc)). simpl in IH. lia.
Qed.

Lemma digits_nonempty n : (1 <= length (digits n))%nat.
Proof.
  unfold digits. cbn [digits_from]. destruct (n / 10 =? 0); [simpl; lia|].
  pose proof (digits_from_length (Z.to_nat (Z.log2 n)) (n / 10) [digit_char n]) as H.
  simpl in H. lia.
Qed.

Lemma randint_bounds a b draw : a <= b -> a <= Generator.randint a b draw <= b.
Proof.
  intros H. unfold Generator.randint.
  pose proof (Z.mod_pos_bound (Z.of_nat draw) (b - a + 1) ltac:(lia)). lia.
Qed.

(** The text of a number drawn between [a] and [b], for [0 <= a] and
    [b < 10^k]: between 1 and [k] digits *)
Lemma randint_text a b k draw :
  0 <= a <= b -> b < 10 ^ Z.of_nat k -> (1 <= k)%nat ->
  forallb plain (str_of_Z (Generator.randint a b draw)) = true
  /\ (1 <= length (str_of_Z (Generator.randint a b draw)) <= k)%nat.
Proof.
  intros Hab Hb Hk. pose proof (randint_bounds draw (proj2 Hab)) as R.
  unfold str_of_Z. replace (Generator.randint a b draw <? 0) with false
    by (symmetry; apply Z.ltb_ge; lia).
  destruct (@digits_decimal (Generator.randint a b draw) k ltac:(lia) Hk) as [Hd Hl].
  split; [eapply forallb_impl; [apply decimal_plain | exact Hd]|].
  pose proof (digits_nonempty (Generator.randint a b draw)). lia.
Qed.

Lemma timestamp_23 t : valid_datetime t ->
  length (Generator.drop_last3 (Datetime.strftime_Ymd_HMS_f t)) = 23%nat
  /\ forallb plain (Generator.drop_last3 (Datetime.strftime_Ymd_HMS_f t)) = true.
Proof.
  intros V. destruct (timestamp_shape V)
    as (Y & Mo & D & H & Mi & S & F & -> & HY & HMo & HD & HH & HMi & HS & HF).
  split.
  - rewrite !length_app.
    destruct HY as [LY _], HMo as [LMo _], HD as [LD _], HH as [LH _], HMi as [LMi _],
      HS as [LS _], HF as [LF _].
    rewrite LY, LMo, LD, LH, LMi, LS, LF. reflexivity.
  - repeat first [ apply plain_app
                 | eapply plain_digits_n; eassumption
                 | reflexivity ].
Qed.

(** The parts of a generated line: a timestamp of 23 characters, one of
    the four devices (20 characters each), a signal with its type and a
    value; none of them holds a line break or a closing bracket. *)
Lemma generated_parts n line :
  generated_line n line ->
  exists ts device name type val,
    line = ts ++ " [Info] [" ++ device ++ "] [" ++ name ++ "] (" ++ type ++ ") : "
           ++ val ++ [NL]
    /\ length ts = 23%nat /\ length device = 20%nat
    /\ (21 <= length name + length type + length val <= 31)%nat
    /\ forallb plain ts = true /\ forallb plain device = true
    /\ forallb plain name = true /\ forallb plain type = true
    /\ forallb plain val = true.
Proof.
  intros (t & device & name & type & f & draw & Ea & Hd & Hs & ->).
  destruct (timestamp_23 (add_valid _ _ Ea)) as [Lts Pts].
  exists (Generator.drop_last3 (Datetime.strftime_Ymd_HMS_f t)), device, name, type,
    (Generator.call f draw).
  split; [reflexivity|]. split; [exact Lts|].
  assert (length device = 20%nat /\ forallb plain device = true) as [Ld Pd].
  { unfold Generator.devices in Hd. simpl in Hd.
    destruct Hd as [<-|[<-|[<-|[<-|[]]]]]; split; reflexivity. }
  split; [exact Ld|].
  assert ((21 <= length name + length type + length (Generator.call f draw) <= 31)%nat
          /\ forallb plain name = true /\ forallb plain type = true
          /\ forallb plain (Generator.call f draw) = true) as (Hl & Pn & Pt & Pv).
  { unfold Generator.signals in Hs. simpl in Hs.
    destruct Hs as [E|[E|[E|[E|[E|[E|[E|[]]]]]]]]; injection E as <- <- <-;
      cbn [Generator.call].
    - destruct (@randint_text 10 50 2 draw ltac:(lia) ltac:(simpl; lia) ltac:(lia)) as [P L].
      cbn [length]. repeat split; try reflexivity; try assumption; lia.
    - destruct (@randint_text 0 1000 4 draw ltac:(lia) ltac:(simpl; lia) ltac:(lia)) as [P L].
      cbn [length]. repeat split; try reflexivity; try assumption; lia.
    - pose proof (@choice_In str ["RUNNING"; "STOPPED"; "ERROR"; "STOPPING"] "" draw
                    ltac:(discriminate)) as Hc.
      simpl in Hc. destruct Hc as [<-|[<-|[<-|[<-|[]]]]];
        cbn [length]; repeat split; try reflexivity; lia.
    - pose proof (@choice_In str ["ON"; "OFF"] "" draw ltac:(discriminate)) as Hc.
      simpl in Hc. destruct Hc as [<-|[<-|[]]];
        cbn [length]; repeat split; try reflexivity; lia.
    - destruct (@randint_text 50 150 3 draw ltac:(lia) ltac:(simpl; lia) ltac:(lia)) as [P L].
      cbn [length]. repeat split; try reflexivity; try assumption; lia.
    - pose proof (@choice_In str ["ON"; "OFF"] "" draw ltac:(discriminate)) as Hc.
      simpl in Hc. destruct Hc as [<-|[<-|[]]];
        cbn [length]; repeat split; try reflexivity; lia.
    - pose proof (@choice_In str ["OK"; "WARNING"; "ERROR"] "" draw ltac:(discriminate)) as Hc.
      simpl in Hc. destruct Hc as [<-|[<-|[<-|[]]]];
        cbn [length]; repeat split; try reflexivity; lia. }
  repeat (split; [assumption|]). assumption.
Qed.

Lemma generated_line_length n line :
  generated_line n line -> 84 <= len line <= 94.
Proof.
  intros H. destruct (generated_parts H)
    as (ts & device & name & type & val & -> & Lts & Ld & Hl & _).
  unfold len. rewrite !length_app, Lts, Ld. cbn [length]. lia.
Qed.

(** ** No generated line is a record *)

Lemma word_not_space a : isword a = true -> isspace a = false.
Proof. destruct a as [[] [] [] [] [] [] [] []]; vm_compute; congruence. Qed.

Lemma ws_then_word_run ws a rest :
  forallb isspace ws = true -> isword a = true -> ws_then_word (ws ++ a :: rest) = true.
Proof.
  intros Hws Ha. induction ws as [|c ws IH]; simpl.
  - rewrite (word_not_space _ Ha). assumption.
  - simpl in Hws. apply andb_true_iff in Hws. destruct Hws as [Hc Hws].
    rewrite Hc. auto.
Qed.

Lemma bracket_then_word_app_r a b :
  bracket_then_word b = true -> bracket_then_word (a ++ b) = true.
Proof.
  intros H. induction a as [|c a IH]; [assumption|].
  cbn [app bracket_then_word]. rewrite IH. apply orb_true_r.
Qed.

Lemma bracket_then_word_skip a b :
  forallb Analyzer.not_rbracket a = true ->
  bracket_then_word (a ++ b) = bracket_then_word b.
Proof.
  intros H. induction a as [|c a IH]; [reflexivity|].
  simpl in H. apply andb_true_iff in H. destruct H as [Hc Ha].
  cbn [app bracket_then_word]. unfold Analyzer.not_rbracket in Hc.
  apply negb_true_iff in Hc. rewrite Hc. simpl. auto.
Qed.

(** A text with a part of the record shape has a closing bracket that is
    followed by white space and a word character. *)
Lemma record_shape_bracket_then_word s :
  has_part record_shape s -> bracket_then_word s = true.
Proof.
  intros (pre & w & post & -> &
          (ts & frac & ws1 & dev & ws2 & sig & -> & _ & _ & _ & _ & [Hn2 Hw2] & [Hns Hsig])).
  apply bracket_then_word_app_r.
  repeat rewrite <- app_assoc.
  do 3 apply bracket_then_word_app_r. simpl app.
  apply bracket_then_word_app_r.
  destruct ws2 as [|c ws2]; [contradiction|]. destruct sig as [|a sig]; [contradiction|].
  simpl in Hw2, Hsig. apply andb_true_iff in Hw2, Hsig.
  destruct Hw2 as [Hc Hw2]. destruct Hsig as [Ha _].
  cbn [app bracket_then_word]. rewrite Ascii.eqb_refl, Hc.
  rewrite (@ws_then_word_run ws2 a (sig ++ post) Hw2 Ha). reflexivity.
Qed.

Lemma plain_not_rbracket s :
  forallb plain s = true -> forallb Analyzer.not_rbracket s = true.
Proof.
  apply forallb_impl. intros c H. unfold plain in H. apply andb_true_iff in H. tauto.
Qed.

Lemma plain_no_break s : forallb plain s = true -> forallb no_break s = true.
Proof.
  apply forallb_impl. intros c H. unfold plain in H. apply andb_true_iff in H. tauto.
Qed.

Lemma generated_no_record n line : generated_line n line -> record_of line = None.
Proof.
  intros H. destruct (generated_parts H)
    as (ts & device & name & type & val & -> & _ & _ & _ & Pts & Pd & Pn & Pt & Pv).
  apply record_of_none_iff. intros Hp. apply record_shape_bracket_then_word in Hp.
  apply plain_not_rbracket in Pts, Pd, Pn, Pt, Pv.
  rewrite (@bracket_then_word_skip _ _ Pts) in Hp.
  change (bracket_then_word (" [Info] [" ++ device ++ "] [" ++ name ++ "] (" ++ type
                             ++ ") : " ++ val ++ [NL]))
    with (bracket_then_word (device ++ "] [" ++ name ++ "] (" ++ type
                             ++ ") : " ++ val ++ [NL])) in Hp.
  rewrite (@bracket_then_word_skip _ _ Pd) in Hp.
  change (bracket_then_word ("] [" ++ name ++ "] (" ++ type ++ ") : " ++ val ++ [NL]))
    with (bracket_then_word (name ++ "] (" ++ type ++ ") : " ++ val ++ [NL])) in Hp.
  rewrite (@bracket_then_word_skip _ _ Pn) in Hp.
  change (bracket_then_word ("] (" ++ type ++ ") : " ++ val ++ [NL]))
    with (bracket_then_word (type ++ ") : " ++ val ++ [NL])) in Hp.
  rewrite (@bracket_then_word_skip _ _ Pt) in Hp.
  change (bracket_then_word (") : " ++ val ++ [NL]))
    with (bracket_then_word (val ++ [NL])) in Hp.
  rewrite (@bracket_then_word_skip _ _ Pv) in Hp. discriminate Hp.
Qed.

Lemma generated_terminated n line : generated_line n line -> terminated_line line.
Proof.
  intros H. destruct (generated_parts H)
    as (ts & device & name & type & val & -> & _ & _ & _ & Pts & Pd & Pn & Pt & Pv).
  exists (ts ++ " [Info] [" ++ device ++ "] [" ++ name ++ "] (" ++ type ++ ") : " ++ val).
  split; [repeat rewrite <- app_assoc; reflexivity|].
  apply plain_no_break in Pts, Pd, Pn, Pt, Pv.
  repeat rewrite forallb_app. rewrite Pts, Pd, Pn, Pt, Pv. reflexivity.
Qed.

(** ** What the loop of the generator keeps *)

Lemma nth_error_snoc {A} (l : list A) x i y :
  nth_error (l ++ [x]) i = Some y ->
  nth_error l i = Some y \/ (i = length l /\ y = x).
Proof.
  intros H. destruct (Nat.lt_ge_cases i (length l)) as [Hi|Hi].
  - rewrite nth_error_app1 in H by assumption. auto.
  - rewrite nth_error_app2 in H by assumption.
    destruct (i - length l)%nat as [|k] eqn:E.
    + simpl in H. injection H as <-. right. split; [lia | reflexivity].
    + simpl in H. destruct k; discriminate.
Qed.

Lemma len_concat_snoc (l : list str) x : len (concat (l ++ [x])) = len (concat l) + len x.
Proof.
  unfold len. rewrite concat_app, length_app. simpl. rewrite app_nil_r. lia.
Qed.

Section GeneratorInvariant.
Variable draws : Generator.Rand.
Variable target : Z.

Lemma loop_keeps_invariant fuel : forall st st' r,
  Generator.loop fuel draws target st = Some (st', r) ->
  loop_invariant target st -> loop_invariant target st'.
Proof.
  induction fuel as [|fuel IH]; intros st st' r; simpl; [discriminate|].
  destruct (Generator.current_size st <? target) eqn:Ec.
  - destruct (Generator.make_line _ _ _ _) as [e|line] eqn:E.
    + intros H; injection H as <- <-. auto.
    + intros H (Hc & Hs & Hg & Hl). apply IH in H; [assumption|].
      apply Z.ltb_lt in Ec. unfold loop_invariant. cbn.
      split; [|split; [|split]].
      * unfold len in *. rewrite length_app. simpl. lia.
      * rewrite len_concat_snoc. lia.
      * intros i y Hi. apply nth_error_snoc in Hi. destruct Hi as [Hi|[-> ->]]; [auto|].
        apply make_line_generated in E. rewrite Hc in E. unfold len in E. exact E.
      * intros init x Hx. apply app_inj_tail in Hx. destruct Hx as [<- _]. lia.
  - intros H; injection H as <- <-. auto.
Qed.

Lemma loop_result fuel : forall st st' r,
  Generator.loop fuel draws target st = Some (st', r) ->
  match r with
  | inr _ => target <= Generator.current_size st'
  | inl e =>
      Generator.current_size st' < target
      /\ forall d1 d2 d3, exists e',
           Generator.make_line (Generator.line_count st') d1 d2 d3 = inl e'
  end.
Proof.
  induction fuel as [|fuel IH]; intros st st' r; simpl; [discriminate|].
  destruct (Generator.current_size st <? target) eqn:Ec.
  - destruct (Generator.make_line _ _ _ _) as [e|line] eqn:E.
    + intros H; injection H as <- <-. apply Z.ltb_lt in Ec. split; [assumption|].
      intros d1 d2 d3. unfold Generator.make_line in *.
      destruct (Generator.choice Generator.signals _ (draws _)) as [[? ?] ?].
      destruct (Generator.choice Generator.signals _ d2) as [[? ?] ?].
      destruct (Datetime.new_timedelta _ _ _); [eauto|].
      destruct (Datetime.add _ _); [eauto | discriminate].
    + apply IH.
  - intros H; injection H as <- <-. apply Z.ltb_ge in Ec. assumption.
Qed.
End GeneratorInvariant.

Lemma initial_invariant target : loop_invariant target Generator.initial.
Proof.
  unfold loop_invariant. cbn. repeat split; try reflexivity.
  - intros i line H. destruct i; discriminate.
  - intros init x H. destruct init; discriminate.
Qed.

Lemma invariant_generated target st :
  loop_invariant target st -> Forall (fun l => exists n, generated_line n l) (Generator.written st).
Proof.
  intros (_ & _ & Hg & _). apply Forall_forall. intros l Hl.
  apply In_nth_error in Hl. destruct Hl as [i Hi]. eauto.
Qed.

Lemma no_records_report lines :
  Forall (fun l => record_of l = None) lines ->
  Analyzer.analyze_plc_debug lines = (zero_report, inr tt).
Proof.
  intros H. rewrite analyze_plc_debug_report.
  assert (records lines = []) as E.
  { unfold records. induction H as [|l ls Hl _ IH]; simpl; [reflexivity|].
    rewrite Hl. assumption. }
  unfold report, timestamp_seq, device_seq, signal_seq. rewrite E. reflexivity.
Qed.

Lemma snoc_cases {A} (l : list A) : l = [] \/ exists init x, l = init ++ [x].
Proof. induction l using rev_ind; eauto. Qed.

Lemma generated_file_nonempty draws target_size_mb st r :
  0 < target_size_mb ->
  Generator.generate_large_log draws target_size_mb = Some (st, r) ->
  Generator.file_content st <> [].
Proof.
  intros Hpos E. pose proof (generate_writes draws Hpos E) as Hw.
  assert (Forall generator_line (Generator.written st)) as Hg
    by (unfold Generator.generate_large_log in E; eapply loop_written; [exact E | constructor]).
  unfold Generator.file_content.
  destruct (Generator.written st) as [|line rest]; [congruence|].
  inversion Hg as [|? ? Hl _]; subst. apply generator_line_terminated in Hl.
  destruct Hl as (body & -> & _). simpl. destruct body; discriminate.
Qed.

(** X11.  The analyzer finds no record in the output of the generator:
    for every target size and all random draws, the PLC-debug summarizer
    run on the lines read back from the generated file reports 0 entries
    and empty rankings; and so does [main] on a non-empty generated file,
    which it classifies plc_debug. *)
Theorem generator_output_has_no_records (draws : Generator.Rand) (target_size_mb : Z) :
  exists st r,
    Generator.generate_large_log draws target_size_mb = Some (st, r)
    /\ Analyzer.analyze_plc_debug (Analyzer.readlines (Generator.file_content st))
       = (zero_report, inr tt)
    /\ forall w a0 path more,
         source w path = inr (Generator.file_content st) ->
         Generator.file_content st <> [] ->
         Analyzer.main w (a0 :: path :: more)
         = (preamble path (Generator.written st) ++ zero_report, inr tt).
Proof.
  destruct (Generator.generate_large_log draws target_size_mb) as [[st r]|] eqn:E;
    [|exfalso; revert E; unfold Generator.generate_large_log; apply loop_total; simpl; lia].
  exists st, r. split; [reflexivity|].
  assert (loop_invariant (target_size_mb * 1024 * 1024) st) as Inv
    by (eapply loop_keeps_invariant; [exact E | apply initial_invariant]).
  pose proof (invariant_generated Inv) as G.
  assert (Analyzer.readlines (Generator.file_content st) = Generator.written st) as Hr.
  { apply readlines_concat. eapply Forall_impl; [|exact G].
    intros l [n Hl]. eapply generated_terminated; eassumption. }
  assert (Analyzer.analyze_plc_debug (Generator.written st) = (zero_report, inr tt)) as Hz.
  { apply no_records_report. eapply Forall_impl; [|exact G].
    intros l [n Hl]. eapply generated_no_record; eassumption. }
  split; [rewrite Hr; exact Hz|].
  intros w a0 path more Hs Hne.
  assert (Analyzer.read_log_file w path = ret (Generator.written st)) as Hread
    by (rewrite read_log_file_source, Hs, Hr; reflexivity).
  rewrite (@main_read_ok w a0 path more _ Hread).
  assert (Analyzer.detect_format (Generator.written st) = "plc_debug") as Hd.
  { unfold Generator.file_content in Hne.
    destruct (Generator.written st) as [|l ls] eqn:Ew; [contradiction Hne; reflexivity|].
    apply detect_starts_with_datetime. apply generator_line_starts.
    unfold Generator.generate_large_log in E.
    pose proof (@loop_written _ _ _ _ _ _ E (Forall_nil _)) as W. rewrite Ew in W.
    inversion W; assumption. }
  unfold dispatch. rewrite Hd. cbn [str_eqb Ascii.eqb Bool.eqb andb].
  rewrite Hz. reflexivity.
Qed.

Lemma generator_output_has_no_records_witness :
  exists st r,
    Generator.generate_large_log (fun k => k) 100 = Some (st, r)
    /\ Analyzer.main (file_at "large_test.log" (Generator.file_content st))
         ["analyze-log.py"; "large_test.log"]
       = (preamble "large_test.log" (Generator.written st) ++ zero_report, inr tt).
Proof.
  destruct (generator_output_has_no_records (fun k => k) 100)
    as (st & r & Hgen & _ & Hmain).
  exists st, r. split; [exact Hgen|].
  apply Hmain; [reflexivity|]. eapply generated_file_nonempty; [|exact Hgen]. lia.
Defined.

(** ** The generator within its first day *)

Lemma new_timedelta_normal d s us :
  0 <= s < 86400 -> 0 <= us < 1000000 -> Z.abs d <= 999999999 ->
  Datetime.new_timedelta d s us
  = inr {| Datetime.days := d; Datetime.seconds := s; Datetime.microseconds := us |}.
Proof.
  intros Hs Hus Hd. unfold Datetime.new_timedelta.
  assert (((d * 86400 + s) * 1000000 + us) / 1000000 = d * 86400 + s) as E1
    by (symmetry; apply Z.div_unique with us; lia).
  assert (((d * 86400 + s) * 1000000 + us) mod 1000000 = us) as E2
    by (symmetry; apply Z.mod_unique with (d * 86400 + s); lia).
  assert ((d * 86400 + s) / 86400 = d) as E3
    by (symmetry; apply Z.div_unique with s; lia).
  assert ((d * 86400 + s) mod 86400 = s) as E4
    by (symmetry; apply Z.mod_unique with d; lia).
  cbv zeta. rewrite E1, E2, E3, E4.
  destruct (999999999 <? Z.abs d) eqn:E; [apply Z.ltb_lt in E; lia | reflexivity].
Qed.

Lemma new_datetime_ok y m d H Mi Sec us :
  1 <= y <= 9999 -> 1 <= m <= 12 -> 1 <= d <= Datetime.days_in_month y m ->
  0 <= H <= 23 -> 0 <= Mi <= 59 -> 0 <= Sec <= 59 -> 0 <= us <= 999999 ->
  Datetime.new_datetime y m d H Mi Sec us
  = inr {| Datetime.year := y; Datetime.month := m; Datetime.day := d;
           Datetime.hour := H; Datetime.minute := Mi; Datetime.second := Sec;
           Datetime.microsecond := us |}.
Proof.
  intros. unfold Datetime.new_datetime.
  repeat match goal with
    | |- context [negb ((?a <=? ?b) && (?c <=? ?e))] =>
        replace ((a <=? b) && (c <=? e)) with true
          by (symmetry; apply andb_true_iff; split; apply Z.leb_le; lia);
        cbn [negb]
    end.
  reflexivity.
Qed.

(** The time of line [n] while the clock stays on the first day *)
Lemma add_same_day n :
  0 <= n < 3960000 ->
  Datetime.add Generator.start_time
    {| Datetime.days := n * 10 * 1000 / 1000000 / 86400;
       Datetime.seconds := (n * 10 * 1000 / 1000000) mod 86400;
       Datetime.microseconds := (n * 10 * 1000) mod 1000000 |}
  = inr {| Datetime.year := 2025; Datetime.month := 9; Datetime.day := 22;
           Datetime.hour := (46800 + n / 100) / 3600;
           Datetime.minute := (46800 + n / 100) mod 3600 / 60;
           Datetime.second := (46800 + n / 100) mod 3600 mod 60;
           Datetime.microsecond := n mod 100 * 10000 |}.
Proof.
  intros Hn.
  pose proof (Z.div_mod n 100 ltac:(lia)) as Hdm.
  pose proof (Z.mod_pos_bound n 100 ltac:(lia)) as Hr.
  assert (0 <= n / 100 < 39600) as Hq
    by (split; [apply Z.div_pos; lia | apply Z.div_lt_upper_bound; lia]).
  set (q := n / 100) in *. set (r := n mod 100) in *.
  assert (n * 10 * 1000 / 1000000 = q) as E1
    by (symmetry; apply Z.div_unique with (r * 10000); lia).
  assert ((n * 10 * 1000) mod 1000000 = r * 10000) as E2
    by (symmetry; apply Z.mod_unique with q; lia).
  rewrite E1, E2, (Z.div_small q 86400), (Z.mod_small q 86400) by lia.
  unfold Datetime.add.
  change (Datetime.toordinal Generator.start_time) with 739516.
  cbn [Datetime.days Datetime.seconds Datetime.microseconds Datetime.hour Datetime.minute
       Datetime.second Datetime.microsecond Generator.start_time].
  replace (13 * 3600 + 0 * 60 + 0 + q) with (46800 + q) by lia.
  replace (0 + r * 10000) with (r * 10000) by lia.
  rewrite (@new_timedelta_normal (739516 + 0) (46800 + q) (r * 10000)) by lia.
  cbn [Datetime.days Datetime.seconds Datetime.microseconds].
  change ((0 <? 739516 + 0) && (739516 + 0 <=? Datetime.MAXORDINAL)) with true.
  change (Datetime.ord2ymd (739516 + 0)) with (2025, 9, 22).
  cbv iota beta.
  pose proof (Z.div_mod (46800 + q) 3600 ltac:(lia)).
  pose proof (Z.mod_pos_bound (46800 + q) 3600 ltac:(lia)).
  pose proof (Z.div_mod ((46800 + q) mod 3600) 60 ltac:(lia)).
  pose proof (Z.mod_pos_bound ((46800 + q) mod 3600) 60 ltac:(lia)).
  apply new_datetime_ok; try lia.
  change (Datetime.days_in_month 2025 9) with 30. lia.
Qed.

Lemma drop_last3_app (a b : str) :
  (3 <= length b)%nat -> Generator.drop_last3 (a ++ b) = a ++ Generator.drop_last3 b.
Proof.
  intros Hb. unfold Generator.drop_last3. rewrite length_app, firstn_app.
  rewrite firstn_all2 by lia. f_equal. f_equal. lia.
Qed.

Lemma startswith_app (p s : str) : startswith p (p ++ s) = true.
Proof. induction p as [|c p IH]; simpl; [reflexivity|]. rewrite Ascii.eqb_refl. exact IH. Qed.

(** Below 3,960,000 lines the clock has not reached midnight: the line
    carries the date of the start. *)
Lemma generated_same_day n line :
  0 <= n < 3960000 -> generated_line n line -> startswith "2025-09-22 " line = true.
Proof.
  intros Hn (t & device & name & type & f & draw & Ea & _ & _ & ->).
  rewrite (add_same_day Hn) in Ea. injection Ea as <-.
  unfold Datetime.strftime_Ymd_HMS_f.
  cbn [Datetime.year Datetime.month Datetime.day Datetime.hour Datetime.minute
       Datetime.second Datetime.microsecond].
  change (zero_pad 4 2025) with ("2025" : str).
  change (zero_pad 2 9) with ("09" : str).
  change (zero_pad 2 22) with ("22" : str).
  set (rest := zero_pad 2 _ ++ ":" ++ zero_pad 2 _ ++ ":" ++ zero_pad 2 _ ++ "." ++ zero_pad 6 _).
  change ("2025" ++ "-" ++ "09" ++ "-" ++ "22" ++ " " ++ rest) with ("2025-09-22 " ++ rest).
  rewrite drop_last3_app.
  - rewrite <- app_assoc. apply startswith_app.
  - subst rest. rewrite !length_app.
    pose proof (Z.mod_pos_bound n 100 ltac:(lia)) as Hr.
    assert (digits_n 6 (zero_pad 6 (n mod 100 * 10000))) as [L _]
      by (apply zero_pad_digits; [simpl; lia | lia]).
    rewrite L. lia.
Qed.

Lemma concat_length_bounds (a b : Z) (ls : list str) :
  Forall (fun l => a <= len l <= b) ls ->
  a * len ls <= len (concat ls) <= b * len ls.
Proof.
  unfold len. induction 1 as [|l ls Hl _ IH]; simpl; [lia|].
  rewrite length_app. lia.
Qed.

Lemma invariant_lengths target st :
  loop_invariant target st ->
  84 * Generator.line_count st <= Generator.current_size st <= 94 * Generator.line_count st.
Proof.
  intros Inv. pose proof (invariant_generated Inv) as G.
  destruct Inv as (Hc & Hs & _ & _). rewrite Hc, Hs.
  apply concat_length_bounds. eapply Forall_impl; [|exact G].
  intros l [n Hl]. eapply generated_line_length; eassumption.
Qed.

Lemma make_line_same_day n d1 d2 d3 :
  0 <= n < 3960000 -> exists line, Generator.make_line n d1 d2 d3 = inr line.
Proof.
  intros Hn. unfold Generator.make_line.
  destruct (Generator.choice Generator.signals _ d2) as [[name type] f].
  rewrite new_timedelta_ms.
  assert (n * 10 * 1000 / 1000000 / 86400 = 0) as E.
  { apply Z.div_small. split; [apply Z.div_pos; lia|].
    apply Z.div_lt_upper_bound; lia. }
  replace (999999999 <? Z.abs (n * 10 * 1000 / 1000000 / 86400)) with false
    by (rewrite E; reflexivity).
  rewrite (add_same_day Hn). eauto.
Qed.

(** X12.  Up to a target of 317 MB (the script asks for 100) the generator
    ends normally, whatever is drawn.  The counters agree with what was
    written; the file is at least as long as the target and, for a positive
    target, exceeds it by less than one line of at most 94 characters;
    every line has between 84 and 94 characters and carries the date
    2025-09-22. *)
Theorem generator_completes (draws : Generator.Rand) (target_size_mb : Z) :
  target_size_mb <= 317 ->
  exists st,
    Generator.generate_large_log draws target_size_mb = Some (st, inr tt)
    /\ Generator.current_size st = len (Generator.file_content st)
    /\ Generator.line_count st = len (Generator.written st)
    /\ target_size_mb * 1024 * 1024 <= len (Generator.file_content st)
    /\ (0 < target_size_mb ->
        len (Generator.file_content st) < target_size_mb * 1024 * 1024 + 94)
    /\ Forall (fun line => 84 <= len line <= 94
                           /\ startswith "2025-09-22 " line = true)
              (Generator.written st).
Proof.
  intros Hmb. set (target := target_size_mb * 1024 * 1024).
  destruct (Generator.generate_large_log draws target_size_mb) as [[st r]|] eqn:E;
    [|exfalso; revert E; unfold Generator.generate_large_log; apply loop_total; simpl; lia].
  assert (loop_invariant target st) as Inv
    by (eapply loop_keeps_invariant; [exact E | apply initial_invariant]).
  pose proof (invariant_lengths Inv) as HL.
  pose proof (invariant_generated Inv) as G.
  pose proof Inv as (Hc & Hs & Hg & Hlast).
  assert (Generator.written st = [] \/ 84 * (Generator.line_count st - 1) < target) as Hn.
  { destruct (snoc_cases (Generator.written st)) as [Ew|(l & x & Ew)]; [auto|]. right.
    pose proof (Hlast l x Ew) as Hl. rewrite Ew in G.
    assert (84 * len l <= len (concat l) <= 94 * len l) as B.
    { apply concat_length_bounds. apply Forall_app in G. destruct G as [G _].
      eapply Forall_impl; [|exact G].
      intros y [n Hy]. eapply generated_line_length; eassumption. }
    rewrite Hc, Ew. unfold len in *. rewrite length_app.
    change (length [x]) with 1%nat. lia. }
  assert (r = inr tt) as ->.
  { destruct r as [e|[]]; [exfalso|reflexivity].
    pose proof (loop_result _ _ _ _ E) as [Hlt Hfail].
    destruct (@make_line_same_day (Generator.line_count st) O O O) as [line Hline].
    - rewrite Hc in *. unfold len in *. subst target. lia.
    - destruct (Hfail O O O) as [e' He']. congruence. }
  exists st. split; [reflexivity|]. unfold Generator.file_content.
  split; [exact Hs|]. split; [exact Hc|].
  split; [rewrite <- Hs; eapply loop_done; exact E|].
  split.
  - intros Hpos. pose proof (generated_file_nonempty draws Hpos E) as Hne.
    unfold Generator.file_content in Hne.
    destruct (snoc_cases (Generator.written st)) as [Ew|(l & x & Ew)];
      [rewrite Ew in Hne; contradiction Hne; reflexivity|].
    pose proof (Hlast l x Ew) as Hl. rewrite Ew in G |- *. rewrite len_concat_snoc.
    apply Forall_app in G. destruct G as [_ G]. inversion G as [|? ? [n Hx] _]; subst.
    pose proof (generated_line_length Hx). lia.
  - apply Forall_forall. intros line Hin. apply In_nth_error in Hin.
    destruct Hin as [i Hi]. pose proof (Hg i line Hi) as Hgen.
    split; [eapply generated_line_length; exact Hgen|].
    apply generated_same_day with (n := Z.of_nat i); [|exact Hgen].
    assert (i < length (Generator.written st))%nat as Hlen
      by (apply (proj1 (nth_error_Some (Generator.written st) i)); intros Hnone;
          discriminate (eq_trans (eq_sym Hnone) Hi)).
    destruct Hn as [Hn|Hn]; [rewrite Hn in Hlen; simpl in Hlen; lia|].
    rewrite Hc in Hn. unfold len in Hn. subst target. lia.
Qed.

Lemma generator_completes_witness :
  exists st,
    Generator.generate_large_log (fun k => k) 100 = Some (st, inr tt)
    /\ 104857600 <= len (Generator.file_content st) < 104857694.
Proof.
  destruct (@generator_completes (fun k => k) 100 ltac:(lia))
    as (st & Hgen & _ & _ & Hlo & Hhi & _).
  exists st. split; [exact Hgen|]. split; [exact Hlo | apply Hhi; lia].
Defined.
